(** * ImgCanvas: the document reducer and the resize geometry

    A shallow embedding of [src/context/ImageContext.tsx] (the reducer
    [imageReducer] with its undo/redo history) and of [handleResize] in
    [src/components/DraggableImage.tsx], with the properties the
    specification states about them; then of the code around them: the
    layer commands, the drag and the keyboard handlers that dispatch to the
    reducer, the layer list of the sidebar, the placement of pasted images
    and the layout of the combined export.

    Conventions of the embedding.
    - A JavaScript [number] is an exact rational ([Q]): no rounding, no NaN,
      no infinities.  [===] on numbers is [Qeq_bool].  The exception is
      [handleResize], whose quotients and products round: it is embedded
      over binary64 numbers in the module [Doubles].
    - An image or step id is the string [img_<Date.now()>_<random>] built by
      [generateId]; the record [ImageId] keeps the two variable parts, so
      [parseInt(id.split('_')[1])] is the projection [id_time].
    - [Date.now()] and [Math.random()] are read from an explicit [Env]
      handed to the reducer with every action.
    - [JSON.parse(JSON.stringify(v))] is the identity on values; the
      reducer is a function from states to states, so a snapshot can never
      alias the live collection.
    - A [TypeError] thrown inside the reducer is the result [None]. *)

From Stdlib Require Import Floats.
From Stdlib Require Uint63.
From Stdlib Require Import QArith Qround Qminmax Lqa Sorted.
From stdpp Require Import base option list strings.

Local Open Scope Z_scope.

(** ** Numbers *)

Definition Z2Q (n : nat) : Q := inject_Z (Z.of_nat n).

(** [a < b] on numbers, as a boolean. *)
Definition Qltb (a b : Q) : bool := negb (Qle_bool b a).

(** ** Data model ([src/types]) *)

Record ImageId := mkId { id_time : Z; id_rand : string }.

#[global] Instance ImageId_eq_dec : EqDecision ImageId.
Proof. solve_decision. Defined.

(** [generateId] with the clock reading and the random suffix it draws. *)
Definition generateId (now : Z) (rnd : string) : ImageId := mkId now rnd.

Record ImageItem := mkImage {
  img_id : ImageId;
  img_src : string;
  img_x : Q;
  img_y : Q;
  img_width : Q;
  img_height : Q;
  img_originalWidth : Q;
  img_originalHeight : Q;
  img_zIndex : Q;
  img_visible : bool;
  img_aspectRatioLocked : bool;
  img_rotation : option Q;
  img_opacity : option Q
}.

Inductive DragMode := free | grid_snap.

#[global] Instance DragMode_eq_dec : EqDecision DragMode.
Proof. solve_decision. Defined.

Inductive HistoryAction :=
| add_image | delete_image | move_image | resize_image | crop_image
| reorder_layer | toggle_visibility | toggle_aspect_ratio | multiple_changes.

Record HistoryStep := mkStep {
  step_id : ImageId;
  step_action : HistoryAction;
  step_timestamp : Z;
  step_description : string;
  step_images : list ImageItem
}.

Record CropSelection := mkSel {
  sel_x : Q; sel_y : Q; sel_width : Q; sel_height : Q
}.

Record CropState := mkCrop {
  crop_imageId : option ImageId;
  crop_selection : option CropSelection;
  crop_isActive : bool
}.

Inductive ResizeHandle := nw | ne | sw | se.

Record AppState := mkState {
  images : list ImageItem;
  selectedImageId : option ImageId;
  dragMode : DragMode;
  aspectRatioLocked : bool;
  history : list HistoryStep;
  historyIndex : Z;
  cropState : CropState;
  layerSidebarVisible : bool;
  darkMode : bool;
  isLoading : bool
}.

Definition clearedCrop : CropState := mkCrop None None false.

Definition initialState : AppState :=
  mkState [] None free true [] (-1) clearedCrop false false false.

(** The payload of [ADD_IMAGE]: [Omit<ImageItem, 'id' | 'zIndex'>]. *)
Record NewImage := mkNew {
  new_src : string;
  new_x : Q;
  new_y : Q;
  new_width : Q;
  new_height : Q;
  new_originalWidth : Q;
  new_originalHeight : Q;
  new_visible : bool;
  new_aspectRatioLocked : bool;
  new_rotation : option Q;
  new_opacity : option Q
}.

(** [Partial<ImageItem>]: every field may be present or absent. *)
Record ImageUpdates := mkUpd {
  upd_id : option ImageId;
  upd_src : option string;
  upd_x : option Q;
  upd_y : option Q;
  upd_width : option Q;
  upd_height : option Q;
  upd_originalWidth : option Q;
  upd_originalHeight : option Q;
  upd_zIndex : option Q;
  upd_visible : option bool;
  upd_aspectRatioLocked : option bool;
  upd_rotation : option (option Q);
  upd_opacity : option (option Q)
}.

(** [Partial<AppState>]. *)
Record PartialState := mkPartial {
  p_images : option (list ImageItem);
  p_selectedImageId : option (option ImageId);
  p_dragMode : option DragMode;
  p_aspectRatioLocked : option bool;
  p_history : option (list HistoryStep);
  p_historyIndex : option Z;
  p_cropState : option CropState;
  p_layerSidebarVisible : option bool;
  p_darkMode : option bool;
  p_isLoading : option bool
}.

Inductive Action :=
| ADD_IMAGE (payload : NewImage)
| DELETE_IMAGE (payload : ImageId)
| UPDATE_IMAGE (id : ImageId) (updates : ImageUpdates)
| SELECT_IMAGE (payload : option ImageId)
| SET_DRAG_MODE (payload : DragMode)
| TOGGLE_ASPECT_RATIO_LOCK
| SET_ASPECT_RATIO_LOCK (payload : bool)
| UNDO
| REDO
| ADD_HISTORY_STEP (action : HistoryAction) (description : string)
| START_CROP (payload : ImageId)
| UPDATE_CROP_SELECTION (payload : CropSelection)
| APPLY_CROP
| CANCEL_CROP
| REORDER_LAYER (imageId : ImageId) (newZIndex : Q)
| TOGGLE_LAYER_VISIBILITY (payload : ImageId)
| TOGGLE_LAYER_SIDEBAR
| SET_LAYER_SIDEBAR (payload : bool)
| TOGGLE_DARK_MODE
| SET_DARK_MODE (payload : bool)
| SET_LOADING (payload : bool)
| LOAD_STATE (payload : PartialState)
| RESET_STATE.

(** What one reducer call reads from the outside world: [e_now] is the
    [Date.now()] of the duplicate check, [e_imageId] the id drawn for a new
    image, [e_stepId] and [e_timestamp] the id and the clock reading of
    [createHistoryStep]. *)
Record Env := mkEnv {
  e_now : Z;
  e_imageId : ImageId;
  e_stepId : ImageId;
  e_timestamp : Z
}.

(** ** Field assignments *)

Definition set_zIndex (z : Q) (i : ImageItem) : ImageItem :=
  mkImage (img_id i) (img_src i) (img_x i) (img_y i) (img_width i)
    (img_height i) (img_originalWidth i) (img_originalHeight i) z
    (img_visible i) (img_aspectRatioLocked i) (img_rotation i) (img_opacity i).

Definition set_visible (b : bool) (i : ImageItem) : ImageItem :=
  mkImage (img_id i) (img_src i) (img_x i) (img_y i) (img_width i)
    (img_height i) (img_originalWidth i) (img_originalHeight i) (img_zIndex i)
    b (img_aspectRatioLocked i) (img_rotation i) (img_opacity i).

Definition set_geometry (x y w h : Q) (i : ImageItem) : ImageItem :=
  mkImage (img_id i) (img_src i) x y w h
    (img_originalWidth i) (img_originalHeight i) (img_zIndex i)
    (img_visible i) (img_aspectRatioLocked i) (img_rotation i) (img_opacity i).

(** [Object.assign(image, updates)]. *)
Definition assignImage (u : ImageUpdates) (i : ImageItem) : ImageItem :=
  mkImage
    (default (img_id i) (upd_id u))
    (default (img_src i) (upd_src u))
    (default (img_x i) (upd_x u))
    (default (img_y i) (upd_y u))
    (default (img_width i) (upd_width u))
    (default (img_height i) (upd_height u))
    (default (img_originalWidth i) (upd_originalWidth u))
    (default (img_originalHeight i) (upd_originalHeight u))
    (default (img_zIndex i) (upd_zIndex u))
    (default (img_visible i) (upd_visible u))
    (default (img_aspectRatioLocked i) (upd_aspectRatioLocked u))
    (default (img_rotation i) (upd_rotation u))
    (default (img_opacity i) (upd_opacity u)).

Definition with_images (l : list ImageItem) (s : AppState) : AppState :=
  mkState l (selectedImageId s) (dragMode s) (aspectRatioLocked s)
    (history s) (historyIndex s) (cropState s) (layerSidebarVisible s)
    (darkMode s) (isLoading s).

Definition with_selected (o : option ImageId) (s : AppState) : AppState :=
  mkState (images s) o (dragMode s) (aspectRatioLocked s)
    (history s) (historyIndex s) (cropState s) (layerSidebarVisible s)
    (darkMode s) (isLoading s).

Definition with_dragMode (m : DragMode) (s : AppState) : AppState :=
  mkState (images s) (selectedImageId s) m (aspectRatioLocked s)
    (history s) (historyIndex s) (cropState s) (layerSidebarVisible s)
    (darkMode s) (isLoading s).

Definition with_aspectRatioLocked (b : bool) (s : AppState) : AppState :=
  mkState (images s) (selectedImageId s) (dragMode s) b
    (history s) (historyIndex s) (cropState s) (layerSidebarVisible s)
    (darkMode s) (isLoading s).

Definition with_history (h : list HistoryStep) (i : Z) (s : AppState)
  : AppState :=
  mkState (images s) (selectedImageId s) (dragMode s) (aspectRatioLocked s)
    h i (cropState s) (layerSidebarVisible s) (darkMode s) (isLoading s).

Definition with_cropState (c : CropState) (s : AppState) : AppState :=
  mkState (images s) (selectedImageId s) (dragMode s) (aspectRatioLocked s)
    (history s) (historyIndex s) c (layerSidebarVisible s)
    (darkMode s) (isLoading s).

Definition with_layerSidebarVisible (b : bool) (s : AppState) : AppState :=
  mkState (images s) (selectedImageId s) (dragMode s) (aspectRatioLocked s)
    (history s) (historyIndex s) (cropState s) b (darkMode s) (isLoading s).

Definition with_darkMode (b : bool) (s : AppState) : AppState :=
  mkState (images s) (selectedImageId s) (dragMode s) (aspectRatioLocked s)
    (history s) (historyIndex s) (cropState s) (layerSidebarVisible s)
    b (isLoading s).

Definition with_isLoading (b : bool) (s : AppState) : AppState :=
  mkState (images s) (selectedImageId s) (dragMode s) (aspectRatioLocked s)
    (history s) (historyIndex s) (cropState s) (layerSidebarVisible s)
    (darkMode s) b.

(** [Object.assign(draft, payload)] for [LOAD_STATE]. *)
Definition assignState (p : PartialState) (s : AppState) : AppState :=
  mkState
    (default (images s) (p_images p))
    (default (selectedImageId s) (p_selectedImageId p))
    (default (dragMode s) (p_dragMode p))
    (default (aspectRatioLocked s) (p_aspectRatioLocked p))
    (default (history s) (p_history p))
    (default (historyIndex s) (p_historyIndex p))
    (default (cropState s) (p_cropState p))
    (default (layerSidebarVisible s) (p_layerSidebarVisible p))
    (default (darkMode s) (p_darkMode p))
    (default (isLoading s) (p_isLoading p)).

(** ** Array primitives *)

(** [arr.slice(0, e)]: a negative [e] counts from the end. *)
Definition slice0 {A} (l : list A) (e : Z) : list A :=
  let len := Z.of_nat (length l) in
  take (Z.to_nat (if e <? 0 then Z.max (len + e) 0 else Z.min e len)) l.

(** [arr.slice(-1)]: the last element, if there is one. *)
Definition sliceLast {A} (l : list A) : list A := drop (length l - 1)%nat l.

(** [arr[i]], [None] standing for [undefined]. *)
Definition at_index {A} (l : list A) (i : Z) : option A :=
  if i <? 0 then None else l !! Z.to_nat i.

(** [images.findIndex(img => img.id === id)], [None] standing for [-1]. *)
Definition findIndex (i : ImageId) (l : list ImageItem) : option nat :=
  fst <$> list_find (λ img, img_id img = i) l.

(** [images.forEach((img, index) => { img.zIndex = index })]. *)
Definition renumberByPosition (l : list ImageItem) : list ImageItem :=
  imap (λ index img, set_zIndex (Z2Q index) img) l.

(** ** Layer reordering *)

(** The adjustment [REORDER_LAYER] applies to every image whose id is not
    the target's: moving up lowers the images in [(old, new]], moving down
    raises those in [[new, old)]. *)
Definition shiftOther (target : ImageId) (oldZIndex newZIndex : Q)
    (img : ImageItem) : ImageItem :=
  if decide (img_id img = target) then img
  else if Qltb oldZIndex newZIndex then
    if Qle_bool (img_zIndex img) newZIndex && Qltb oldZIndex (img_zIndex img)
    then set_zIndex (img_zIndex img - 1)%Q img else img
  else
    if Qle_bool newZIndex (img_zIndex img) && Qltb (img_zIndex img) oldZIndex
    then set_zIndex (img_zIndex img + 1)%Q img else img.

(** [[...images].sort((a, b) => a.zIndex - b.zIndex)] is a stable sort of
    references to the images of the draft.  A reference is the position of
    the image in [images]; the sort is an insertion sort that keeps equal
    keys in their order. *)
Fixpoint insertByZ (p : nat * Q) (l : list (nat * Q)) : list (nat * Q) :=
  match l with
  | [] => [p]
  | q :: l' =>
      if Qle_bool (snd p) (snd q) then p :: q :: l' else q :: insertByZ p l'
  end.

Definition sortByZ (l : list (nat * Q)) : list (nat * Q) :=
  foldr insertByZ [] l.

Definition sortedPositions (l : list ImageItem) : list nat :=
  (sortByZ (imap (λ pos img, (pos, img_zIndex img)) l)).*1.

(** [sortedImages.forEach((img, index) => { img.zIndex = index })]: the
    assignment goes through the reference, into the draft. *)
Fixpoint assignRanks (index : nat) (order : list nat) (l : list ImageItem)
  : list ImageItem :=
  match order with
  | [] => l
  | pos :: rest =>
      assignRanks (S index) rest (alter (set_zIndex (Z2Q index)) pos l)
  end.

Definition normalizeZIndex (l : list ImageItem) : list ImageItem :=
  assignRanks 0 (sortedPositions l) l.

Definition reorderImages (imageIndex : nat) (target : ImageId) (newZIndex : Q)
    (l : list ImageItem) : list ImageItem :=
  let oldZIndex := default 0%Q (img_zIndex <$> l !! imageIndex) in
  let l1 := alter (set_zIndex newZIndex) imageIndex l in
  let l2 := shiftOther target oldZIndex newZIndex <$> l1 in
  normalizeZIndex l2.

(** ** History *)

Definition createHistoryStep (e : Env) (action : HistoryAction)
    (description : string) (imgs : list ImageItem) : HistoryStep :=
  mkStep (e_stepId e) action (e_timestamp e) description imgs.

(** The three lines every appending case repeats: drop what lies after the
    cursor, push the step, point the cursor at it. *)
Definition pushHistory (st : HistoryStep) (s : AppState) : AppState :=
  let h := slice0 (history s) (historyIndex s + 1) ++ [st] in
  with_history h (Z.of_nat (length h) - 1) s.

(** [if (history.length > 100) { history.shift(); historyIndex-- }]. *)
Definition capHistory (s : AppState) : AppState :=
  if 100 <? Z.of_nat (length (history s))
  then with_history (drop 1 (history s)) (historyIndex s - 1) s
  else s.

(** ** The reducer *)

Definition isDuplicate (e : Env) (payload : NewImage) (l : list ImageItem)
  : bool :=
  existsb (λ img,
      String.eqb (img_src img) (new_src payload)
      && Qeq_bool (img_x img) (new_x payload)
      && Qeq_bool (img_y img) (new_y payload)
      && (e_now e - id_time (img_id img) <? 50))
    (sliceLast l).

Definition newImageOf (e : Env) (payload : NewImage) (s : AppState)
  : ImageItem :=
  mkImage (e_imageId e) (new_src payload) (new_x payload) (new_y payload)
    (new_width payload) (new_height payload) (new_originalWidth payload)
    (new_originalHeight payload) (Z2Q (length (images s)))
    (new_visible payload) (aspectRatioLocked s) (new_rotation payload)
    (new_opacity payload).

Definition applySelection (sel : CropSelection) (image : ImageItem)
  : ImageItem :=
  set_geometry (img_x image + sel_x sel)%Q (img_y image + sel_y sel)%Q
    (sel_width sel) (sel_height sel) image.

Definition imageReducer (e : Env) (s : AppState) (a : Action)
  : option AppState :=
  match a with
  | ADD_IMAGE payload =>
      if isDuplicate e payload (images s) then Some s
      else
        let newImage := newImageOf e payload s in
        let s1 := with_selected (Some (img_id newImage))
                    (with_images (images s ++ [newImage]) s) in
        Some (capHistory
                (pushHistory
                   (createHistoryStep e add_image "画像を追加" (images s1)) s1))
  | DELETE_IMAGE payload =>
      match findIndex payload (images s) with
      | Some imageIndex =>
          let s1 := with_images (delete imageIndex (images s)) s in
          let s2 := if decide (selectedImageId s1 = Some payload)
                    then with_selected None s1 else s1 in
          let s3 := with_images (renumberByPosition (images s2)) s2 in
          Some (pushHistory
                  (createHistoryStep e delete_image "画像を削除" (images s3))
                  s3)
      | None => Some s
      end
  | UPDATE_IMAGE id updates =>
      match findIndex id (images s) with
      | Some imageIndex =>
          Some (with_images (alter (assignImage updates) imageIndex (images s)) s)
      | None => Some s
      end
  | SELECT_IMAGE payload => Some (with_selected payload s)
  | SET_DRAG_MODE payload => Some (with_dragMode payload s)
  | TOGGLE_ASPECT_RATIO_LOCK =>
      Some (with_aspectRatioLocked (negb (aspectRatioLocked s)) s)
  | SET_ASPECT_RATIO_LOCK payload => Some (with_aspectRatioLocked payload s)
  | UNDO =>
      if 0 <? historyIndex s then
        let i := historyIndex s - 1 in
        step ← at_index (history s) i;
        Some (with_images (step_images step) (with_history (history s) i s))
      else Some s
  | REDO =>
      if historyIndex s <? Z.of_nat (length (history s)) - 1 then
        let i := historyIndex s + 1 in
        step ← at_index (history s) i;
        Some (with_images (step_images step) (with_history (history s) i s))
      else Some s
  | ADD_HISTORY_STEP action description =>
      Some (capHistory
              (pushHistory (createHistoryStep e action description (images s))
                 s))
  | START_CROP payload =>
      Some (with_cropState (mkCrop (Some payload) None true) s)
  | UPDATE_CROP_SELECTION payload =>
      Some (with_cropState
              (mkCrop (crop_imageId (cropState s)) (Some payload)
                 (crop_isActive (cropState s))) s)
  | APPLY_CROP =>
      let s1 :=
        match crop_imageId (cropState s), crop_selection (cropState s) with
        | Some target, Some selection =>
            match findIndex target (images s) with
            | Some imageIndex =>
                let s' := with_images
                            (alter (applySelection selection) imageIndex
                               (images s)) s in
                pushHistory
                  (createHistoryStep e crop_image "画像をトリミング"
                     (images s')) s'
            | None => s
            end
        | _, _ => s
        end in
      Some (with_cropState clearedCrop s1)
  | CANCEL_CROP => Some (with_cropState clearedCrop s)
  | REORDER_LAYER imageId newZIndex =>
      match findIndex imageId (images s) with
      | Some imageIndex =>
          let s1 := with_images
                      (reorderImages imageIndex imageId newZIndex (images s))
                      s in
          Some (capHistory
                  (pushHistory
                     (createHistoryStep e reorder_layer "レイヤー順序を変更"
                        (images s1)) s1))
      | None => Some s
      end
  | TOGGLE_LAYER_VISIBILITY payload =>
      match findIndex payload (images s) with
      | Some imageIndex =>
          let s1 := with_images
                      (alter (λ img, set_visible (negb (img_visible img)) img)
                         imageIndex (images s)) s in
          Some (pushHistory
                  (createHistoryStep e toggle_visibility "表示/非表示を切替"
                     (images s1)) s1)
      | None => Some s
      end
  | TOGGLE_LAYER_SIDEBAR =>
      Some (with_layerSidebarVisible (negb (layerSidebarVisible s)) s)
  | SET_LAYER_SIDEBAR payload => Some (with_layerSidebarVisible payload s)
  | TOGGLE_DARK_MODE => Some (with_darkMode (negb (darkMode s)) s)
  | SET_DARK_MODE payload => Some (with_darkMode payload s)
  | SET_LOADING payload => Some (with_isLoading payload s)
  | LOAD_STATE payload => Some (assignState payload s)
  | RESET_STATE => Some (assignState
                           (mkPartial (Some (images initialState))
                              (Some (selectedImageId initialState))
                              (Some (dragMode initialState))
                              (Some (aspectRatioLocked initialState))
                              (Some (history initialState))
                              (Some (historyIndex initialState))
                              (Some (cropState initialState))
                              (Some (layerSidebarVisible initialState))
                              (Some (darkMode initialState))
                              (Some (isLoading initialState))) s)
  end.

(** Dispatching a sequence of actions, each with the environment it runs
    in; a throwing reducer call ends the run. *)
Fixpoint run (s : AppState) (l : list (Env * Action)) : option AppState :=
  match l with
  | [] => Some s
  | (e, a) :: rest => s' ← imageReducer e s a; run s' rest
  end.

(** [n] dispatches of the same action. *)
Fixpoint repeatAction (e : Env) (a : Action) (n : nat) (s : AppState)
  : option AppState :=
  match n with
  | O => Some s
  | S k => s' ← imageReducer e s a; repeatAction e a k s'
  end.

(** ** Pointer geometry ([DraggableImage.tsx]) *)

(** The part of a [MouseEvent] the drag handler reads. *)
Record PointerEvent := mkEvent {
  clientX : Q;
  clientY : Q;
  shiftKey : bool
}.

(** The result of [getCanvasBounds]. *)
Record Bounds := mkBounds { b_width : Q; b_height : Q }.

(** [Math.round]: halves go up. *)
Definition mathRound (v : Q) : Q := inject_Z (Qfloor (v + (1 # 2))).

Definition snapToGrid (value gridSize : Q) : Q :=
  (mathRound (value / gridSize) * gridSize)%Q.

(** ** Resize geometry ([handleResize] in [DraggableImage.tsx])

    [handleResize] multiplies and divides by the aspect ratio, so it is
    embedded over binary64 numbers ([PrimFloat.float]): every operation
    rounds as the program's does, and a division by zero gives an infinity
    or NaN. *)

Module Doubles.

Local Open Scope float_scope.

(** [Math.max(a, b)] and [Math.min(a, b)]: NaN if either argument is NaN,
    and [+0] counts as larger than [-0]. *)
Definition mathMax (a b : float) : float :=
  if is_nan a || is_nan b then nan
  else if a <? b then b
  else if b <? a then a
  else if is_zero a && get_sign a then b else a.

Definition mathMin (a b : float) : float :=
  if is_nan a || is_nan b then nan
  else if a <? b then a
  else if b <? a then b
  else if is_zero a && negb (get_sign a) then b else a.

(** [Math.round]: the nearest integer, halves towards +∞; NaN, the
    infinities, the zeros and integers are returned as they are, and a
    negative value that rounds to zero gives [-0].  A finite non-zero
    double is [± m * 2^e]. *)
Definition mathRound (x : float) : float :=
  match Prim2SF x with
  | S754_finite s m e =>
      if (0 <=? e)%Z then x
      else
        let n := if s then Z.neg m else Z.pos m in
        let r := ((n + 2 ^ (- e - 1)) / 2 ^ (- e))%Z in
        if (r =? 0)%Z then (if s then (-0)%float else 0%float)
        else if (r <? 0)%Z then - of_uint63 (Uint63.of_Z (- r))
        else of_uint63 (Uint63.of_Z r)
  | _ => x
  end.

Definition snapToGrid (value gridSize : float) : float :=
  mathRound (value / gridSize) * gridSize.

(** What [handleResize] reads of [image]. *)
Record Image := mkImage {
  originalWidth : float;
  originalHeight : float;
  aspectRatioLocked : bool
}.

Record ResizeStart := mkResizeStart {
  rs_x : float;
  rs_y : float;
  rs_imgX : float;
  rs_imgY : float;
  rs_width : float;
  rs_height : float;
  rs_handle : ResizeHandle
}.

(** The part of a [MouseEvent] the handler reads. *)
Record PointerEvent := mkEvent {
  clientX : float;
  clientY : float;
  shiftKey : bool
}.

(** The result of [getCanvasBounds]. *)
Record Bounds := mkBounds { b_width : float; b_height : float }.

(** The four values handed to [optimizedUpdateImage]. *)
Record Geometry := mkGeom {
  g_x : float;
  g_y : float;
  g_width : float;
  g_height : float
}.

(** The [switch (resizeStart.handle)] that opens each of the three paths. *)
Definition cornerResize (rs : ResizeStart) (deltaX deltaY : float)
  : Geometry :=
  match rs_handle rs with
  | se =>
      mkGeom (rs_imgX rs) (rs_imgY rs)
        (mathMax 50 (rs_width rs + deltaX)) (mathMax 50 (rs_height rs + deltaY))
  | sw =>
      let newWidth := mathMax 50 (rs_width rs - deltaX) in
      mkGeom (rs_imgX rs + (rs_width rs - newWidth)) (rs_imgY rs)
        newWidth (mathMax 50 (rs_height rs + deltaY))
  | ne =>
      let newHeight := mathMax 50 (rs_height rs - deltaY) in
      mkGeom (rs_imgX rs) (rs_imgY rs + (rs_height rs - newHeight))
        (mathMax 50 (rs_width rs + deltaX)) newHeight
  | nw =>
      let newWidth := mathMax 50 (rs_width rs - deltaX) in
      let newHeight := mathMax 50 (rs_height rs - deltaY) in
      mkGeom (rs_imgX rs + (rs_width rs - newWidth))
        (rs_imgY rs + (rs_height rs - newHeight)) newWidth newHeight
  end.

(** Aspect lock of the two Windows paths: sizes only, no offset. *)
Definition aspectSimple (image : Image) (g : Geometry) : Geometry :=
  let aspectRatio := originalWidth image / originalHeight image in
  let currentRatio := g_width g / g_height g in
  if aspectRatio <? currentRatio
  then mkGeom (g_x g) (g_y g) (g_height g * aspectRatio) (g_height g)
  else mkGeom (g_x g) (g_y g) (g_width g) (g_width g / aspectRatio).

(** Aspect lock of the full path, with the offset correction for the
    handles that move [x] or [y]. *)
Definition aspectCorrected (handle : ResizeHandle) (aspectRatio : float)
    (g : Geometry) : Geometry :=
  let currentRatio := g_width g / g_height g in
  if aspectRatio <? currentRatio then
    let adjustedWidth := g_height g * aspectRatio in
    let widthDiff := g_width g - adjustedWidth in
    let newX := match handle with
                | sw | nw => g_x g + widthDiff
                | _ => g_x g
                end in
    mkGeom newX (g_y g) adjustedWidth (g_height g)
  else if currentRatio <? aspectRatio then
    let adjustedHeight := g_width g / aspectRatio in
    let heightDiff := g_height g - adjustedHeight in
    let newY := match handle with
                | ne | nw => g_y g + heightDiff
                | _ => g_y g
                end in
    mkGeom (g_x g) newY (g_width g) adjustedHeight
  else g.

(** Boundary limits of the full path, then the size floor once more. *)
Definition clampFull (bounds : Bounds) (g : Geometry) : Geometry :=
  let '(newX, newWidth) :=
    if g_x g <? 0 then (0, g_width g + g_x g) else (g_x g, g_width g) in
  let '(newY, newHeight) :=
    if g_y g <? 0 then (0, g_height g + g_y g) else (g_y g, g_height g) in
  let newWidth :=
    if b_width bounds <? newX + newWidth then b_width bounds - newX
    else newWidth in
  let newHeight :=
    if b_height bounds <? newY + newHeight then b_height bounds - newY
    else newHeight in
  mkGeom newX newY (mathMax 50 newWidth) (mathMax 50 newHeight).

(** Boundary limits of the simplified path. *)
Definition clampSimplified (bounds : Bounds) (g : Geometry) : Geometry :=
  let newX := mathMax 0 (mathMin (b_width bounds - g_width g) (g_x g)) in
  let newY := mathMax 0 (mathMin (b_height bounds - g_height g) (g_y g)) in
  let newWidth := mathMax 50 (mathMin (b_width bounds - newX) (g_width g)) in
  let newHeight :=
    mathMax 50 (mathMin (b_height bounds - newY) (g_height g)) in
  mkGeom newX newY newWidth newHeight.

(** Limits of the free-mode Windows path: no canvas bounds at all. *)
Definition clampMinimal (g : Geometry) : Geometry :=
  mkGeom (mathMax 0 (g_x g)) (mathMax 0 (g_y g))
    (mathMax 50 (g_width g)) (mathMax 50 (g_height g)).

Definition snapGeometry (gridSize : float) (g : Geometry) : Geometry :=
  mkGeom (snapToGrid (g_x g) gridSize) (snapToGrid (g_y g) gridSize)
    (snapToGrid (g_width g) gridSize) (snapToGrid (g_height g) gridSize).

(** [handleResize]: [None] when there is no resize in progress, otherwise
    the update it submits.  [isWindows] is the user-agent test, which also
    sets [useSimplifiedResize]. *)
Definition handleResize (isWindows : bool) (mode : DragMode)
    (bounds : Bounds) (image : Image) (resizeStart : option ResizeStart)
    (ev : PointerEvent) : option Geometry :=
  match resizeStart with
  | None => None
  | Some rs =>
      let deltaX := clientX ev - rs_x rs in
      let deltaY := clientY ev - rs_y rs in
      let isAspectLocked := aspectRatioLocked image && negb (shiftKey ev) in
      let g0 := cornerResize rs deltaX deltaY in
      if isWindows && bool_decide (mode = free) then
        let g1 := if isAspectLocked then aspectSimple image g0 else g0 in
        Some (clampMinimal g1)
      else
        let g2 :=
          if isWindows then
            let g1 := if isAspectLocked then aspectSimple image g0 else g0 in
            clampSimplified bounds g1
          else
            let aspectRatio := originalWidth image / originalHeight image in
            let g1 := if isAspectLocked
                      then aspectCorrected (rs_handle rs) aspectRatio g0
                      else g0 in
            clampFull bounds g1 in
        Some (if bool_decide (mode = grid_snap)
              then snapGeometry (if isWindows then 44 else 22) g2
              else g2)
  end.

End Doubles.

(** ** Which dispatches append a history step *)

Definition found (i : ImageId) (l : list ImageItem) : bool :=
  match findIndex i l with Some _ => true | None => false end.

(** The guard under which each case of the reducer reaches its history
    push. *)
Definition appendsStep (e : Env) (s : AppState) (a : Action) : bool :=
  match a with
  | ADD_IMAGE payload => negb (isDuplicate e payload (images s))
  | DELETE_IMAGE i | REORDER_LAYER i _ | TOGGLE_LAYER_VISIBILITY i =>
      found i (images s)
  | ADD_HISTORY_STEP _ _ => true
  | APPLY_CROP =>
      match crop_imageId (cropState s), crop_selection (cropState s) with
      | Some target, Some _ => found target (images s)
      | _, _ => false
      end
  | _ => false
  end.

(** The operations that leave the last history step in agreement with the
    collection: the six that may append a step (each snapshots the
    collection it has just written) and those that touch neither the
    collection nor the history.  Left out are [UPDATE_IMAGE], which writes
    the collection without a step, [UNDO] and [REDO], which move the
    cursor, and [LOAD_STATE] and [RESET_STATE], which replace the history. *)
Definition isEditAction (a : Action) : bool :=
  match a with
  | UPDATE_IMAGE _ _ | UNDO | REDO | LOAD_STATE _ | RESET_STATE => false
  | _ => true
  end.

(** ** Invariants and reachability *)

(** The cursor points at a step whose snapshot is the live collection. *)
Definition cursorOnSnapshot (s : AppState) : Prop :=
  ∃ st, at_index (history s) (historyIndex s) = Some st
        ∧ step_images st = images s.

(** The history as the six editing operations keep it: empty with an empty
    collection, or with the cursor on the last step and that step holding
    the live collection. *)
Definition historyConsistent (s : AppState) : Prop :=
  historyIndex s = Z.of_nat (length (history s)) - 1
  ∧ match last (history s) with
    | None => images s = []
    | Some st => step_images st = images s
    end.

(** The zIndex found at an array position (0 where there is none). *)
Definition zIndexAt (l : list ImageItem) (pos : nat) : Q :=
  default 0%Q (img_zIndex <$> l !! pos).

(** The zIndex values are 0 .. N-1, each once. *)
Definition dense (l : list ImageItem) : Prop :=
  img_zIndex <$> l ≡ₚ Z2Q <$> seq 0 (length l).

(** The collection and every snapshot of the history are dense. *)
Definition layersDense (s : AppState) : Prop :=
  dense (images s) ∧ Forall (λ st, dense (step_images st)) (history s).

(** A non-null selection names an image of the collection. *)
Definition selectionValid (s : AppState) : bool :=
  match selectedImageId s with
  | None => true
  | Some i => found i (images s)
  end.

(** States reached from [initialState] by dispatches that the predicate
    [ok] admits in the state they are dispatched in. *)
Inductive reachableBy (ok : AppState → Action → bool) : AppState → Prop :=
| reach_init : reachableBy ok initialState
| reach_step e s a s' :
    reachableBy ok s → ok s a = true → imageReducer e s a = Some s' →
    reachableBy ok s'.

(** Every dispatch. *)
Definition anyAction (s : AppState) (a : Action) : bool := true.

(** Dispatches that do not write a zIndex from outside: no [LOAD_STATE],
    and no [UPDATE_IMAGE] whose updates carry a [zIndex]. *)
Definition keepsLayers (s : AppState) (a : Action) : bool :=
  match a with
  | LOAD_STATE _ => false
  | UPDATE_IMAGE _ updates =>
      match upd_zIndex updates with None => true | Some _ => false end
  | _ => true
  end.

(** Dispatches that cannot leave the selection dangling: no [UNDO], [REDO]
    or [LOAD_STATE], a [SELECT_IMAGE] only of an image that is there, and no
    [UPDATE_IMAGE] whose updates carry an [id]. *)
Definition keepsSelection (s : AppState) (a : Action) : bool :=
  match a with
  | UNDO | REDO | LOAD_STATE _ => false
  | SELECT_IMAGE (Some i) => found i (images s)
  | UPDATE_IMAGE _ updates =>
      match upd_id updates with None => true | Some _ => false end
  | _ => true
  end.

(** ** Sample data for the worked examples *)

Definition idA : ImageId := generateId 1000 "a".
Definition idB : ImageId := generateId 2000 "b".
Definition idC : ImageId := generateId 3000 "c".

Definition sampleA : NewImage :=
  mkNew "data:A" 0 0 100 100 100 100 true false None None.
Definition sampleB : NewImage :=
  mkNew "data:B" 10 10 50 50 50 50 true true None None.
Definition sampleC : NewImage :=
  mkNew "data:C" 20 20 50 50 50 50 true true None None.

(** An environment whose clock reads [t] throughout and which draws [i]
    for a new image. *)
Definition envAt (t : Z) (i : ImageId) : Env :=
  mkEnv t i (generateId t "step") t.

(** [A] alone on the board. *)
Definition docA : AppState :=
  default initialState
    (run initialState [(envAt 1000 idA, ADD_IMAGE sampleA)]).

(** [A] then [B]. *)
Definition docAB : AppState :=
  default initialState
    (run initialState [(envAt 1000 idA, ADD_IMAGE sampleA);
                       (envAt 2000 idB, ADD_IMAGE sampleB)]).

(** [A] then [B], and the addition of [B] undone. *)
Definition docAB_undone : AppState :=
  default initialState (imageReducer (envAt 2500 idB) docAB UNDO).

(** [A], [B], [C] in that order, then [A] raised to the top. *)
Definition docABC_raised : AppState :=
  default initialState
    (run initialState [(envAt 1000 idA, ADD_IMAGE sampleA);
                       (envAt 2000 idB, ADD_IMAGE sampleB);
                       (envAt 3000 idC, ADD_IMAGE sampleC);
                       (envAt 4000 idA, REORDER_LAYER idA 2)]).

(** [A] on the board with a crop of it under way. *)
Definition cropOfA : list (Env * Action) :=
  [(envAt 1000 idA, ADD_IMAGE sampleA);
   (envAt 1500 idA, START_CROP idA);
   (envAt 1600 idA, UPDATE_CROP_SELECTION (mkSel 5 7 40 30))].


(** The same, with the crop applied. *)
Definition docA_cropped : AppState :=
  default initialState
    (run initialState (cropOfA ++ [(envAt 1700 idA, APPLY_CROP)])).

(** [A] added, then its visibility toggled 149 times: 150 editing
    operations in all. *)
Definition docA_toggled : option AppState :=
  s ← run initialState [(envAt 1000 idA, ADD_IMAGE sampleA)];
  repeatAction (envAt 5000 idA) (TOGGLE_LAYER_VISIBILITY idA) 149 s.

(** [A] added, then 149 explicit checkpoints. *)
Definition docA_checkpointed : option AppState :=
  s ← run initialState [(envAt 1000 idA, ADD_IMAGE sampleA)];
  repeatAction (envAt 5000 idA) (ADD_HISTORY_STEP move_image "move") 149 s.

(** An update that writes nothing but a zIndex. *)
Definition onlyZIndex (z : Q) : ImageUpdates :=
  mkUpd None None None None None None None None (Some z) None None None None.

(** [A], [B], [C] in that order. *)
Definition docABC : AppState :=
  default initialState
    (imageReducer (envAt 3000 idC) docAB (ADD_IMAGE sampleC)).

(** [A] alone, its zIndex overwritten with 7 by an [UPDATE_IMAGE]. *)
Definition docA_relayered : AppState :=
  default initialState
    (imageReducer (envAt 1200 idA) docA (UPDATE_IMAGE idA (onlyZIndex 7))).

(** A locked 100 x 200 image at (100, 100) on a 1000 x 1000 canvas. *)
Definition tallImage : ImageItem :=
  mkImage idA "data:A" 100 100 100 200 100 200 0 true true None None.

Definition canvas : Bounds := mkBounds 1000 1000.


Definition tallStart (handle : ResizeHandle) : Doubles.ResizeStart :=
  Doubles.mkResizeStart 0 0 100 100 100 200 handle.

Definition board : Doubles.Bounds := Doubles.mkBounds 1000 1000.

Definition pointerAt (x y : float) : Doubles.PointerEvent :=
  Doubles.mkEvent x y false.

(** The pairs (random part of the id, zIndex) of a collection, in array
    order. *)
Definition layerTable (l : list ImageItem) : list (string * Q) :=
  (λ i, (id_rand (img_id i), img_zIndex i)) <$> l.

(** ** Further sets of dispatches *)

(** Every dispatch but [LOAD_STATE]. *)
Definition noLoad (s : AppState) (a : Action) : bool :=
  match a with LOAD_STATE _ => false | _ => true end.

(** Dispatches whose history push, if any, is followed by the length
    check: everything but [DELETE_IMAGE], [TOGGLE_LAYER_VISIBILITY],
    [APPLY_CROP] and [LOAD_STATE]. *)
Definition cappedOnly (s : AppState) (a : Action) : bool :=
  match a with
  | DELETE_IMAGE _ | TOGGLE_LAYER_VISIBILITY _ | APPLY_CROP
  | LOAD_STATE _ => false
  | _ => true
  end.

(** Dispatches that leave every zIndex equal to the array position: no
    [REORDER_LAYER], no [LOAD_STATE], no [UPDATE_IMAGE] with a [zIndex]. *)
Definition keepsArrayOrder (s : AppState) (a : Action) : bool :=
  match a with
  | REORDER_LAYER _ _ | LOAD_STATE _ => false
  | UPDATE_IMAGE _ updates =>
      match upd_zIndex updates with None => true | Some _ => false end
  | _ => true
  end.

(** Each image sits on the layer given by its array position. *)
Definition inArrayOrder (l : list ImageItem) : Prop :=
  img_zIndex <$> l = Z2Q <$> seq 0 (length l).

(** The collection and every snapshot are in array order. *)
Definition allInArrayOrder (s : AppState) : Prop :=
  inArrayOrder (images s)
  ∧ Forall (λ st, inArrayOrder (step_images st)) (history s).

(** The cursor is -1 or the index of a step. *)
Definition cursorInRange (s : AppState) : Prop :=
  -1 ≤ historyIndex s < Z.of_nat (length (history s)).

(** A full history: [A] added, then 99 checkpoints. *)
Definition docA_full : AppState :=
  default initialState
    (s ← run initialState [(envAt 1000 idA, ADD_IMAGE sampleA)];
     repeatAction (envAt 5000 idA) (ADD_HISTORY_STEP move_image "move") 99 s).

(** ** Stacking order *)

(** [a] lies below [b]: lower zIndex, or the same zIndex and earlier in the
    array.  Arguments are pairs (array position, zIndex). *)
Definition below (a b : nat * Q) : Prop :=
  (a.2 < b.2)%Q ∨ ((a.2 == b.2)%Q ∧ (a.1 < b.1)%nat).

(** The (position, zIndex) pairs the sort of [REORDER_LAYER] works on. *)
Definition layerKeys (l : list ImageItem) : list (nat * Q) :=
  imap (λ pos img, (pos, img_zIndex img)) l.

(** The layer an image on layer [layer] ends on when the image on layer
    [old] is moved to layer [new]: the images in between close the gap. *)
Definition layerAfterReorder (old new layer : nat) : nat :=
  if decide (layer = old) then new
  else if decide (old < new)%nat then
    if decide (old < layer ≤ new)%nat then pred layer else layer
  else
    if decide (new ≤ layer < old)%nat then S layer else layer.

(** The requested value [newZIndex] makes an image that sits on layer [old]
    of [n] land on layer [new]: going up, [new] is the integer part of the
    request, capped at the top layer; going down (or staying), it is the
    request rounded up, capped at layer 0. *)
Definition landsOn (n old new : nat) (newZIndex : Q) : Prop :=
  ((Z2Q old < newZIndex)%Q ∧ (Z2Q new <= newZIndex)%Q
   ∧ ((newZIndex < Z2Q (S new))%Q ∨ S new = n))
  ∨ ((newZIndex <= Z2Q old)%Q ∧ (newZIndex <= Z2Q new)%Q
     ∧ ((Z2Q new < newZIndex + 1)%Q ∨ new = 0%nat)).

(** ** Layer commands of the image toolbar and context menu
    ([DraggableImage.tsx]) *)

(** [Math.max(...zs)] and [Math.min(...zs)]; [None] stands for the
    [-Infinity] or [Infinity] they return on no argument. *)
Definition mathMax (zs : list Q) : option Q :=
  match zs with
  | [] => None
  | z :: rest => Some (foldl Qmax z rest)
  end.

Definition mathMin (zs : list Q) : option Q :=
  match zs with
  | [] => None
  | z :: rest => Some (foldl Qmin z rest)
  end.

(** Each command yields the action it dispatches.  [moveToFront] and
    [moveToBack] on an empty collection dispatch a reorder to an infinite
    layer, which the reducer ignores since it finds no image: that is
    [None] as well. *)
Definition moveToFront (imgs : list ImageItem) (image : ImageItem)
  : option Action :=
  maxZIndex ← mathMax (img_zIndex <$> imgs);
  Some (REORDER_LAYER (img_id image) (maxZIndex + 1)%Q).

Definition moveForward (imgs : list ImageItem) (image : ImageItem)
  : option Action :=
  let currentZIndex := img_zIndex image in
  let higherImages :=
    List.filter (λ img, Qltb currentZIndex (img_zIndex img)) imgs in
  nextZIndex ← mathMin (img_zIndex <$> higherImages);
  Some (REORDER_LAYER (img_id image) (nextZIndex + (1 # 2))%Q).

Definition moveBackward (imgs : list ImageItem) (image : ImageItem)
  : option Action :=
  let currentZIndex := img_zIndex image in
  let lowerImages :=
    List.filter (λ img, Qltb (img_zIndex img) currentZIndex) imgs in
  prevZIndex ← mathMax (img_zIndex <$> lowerImages);
  Some (REORDER_LAYER (img_id image) (prevZIndex - (1 # 2))%Q).

Definition moveToBack (imgs : list ImageItem) (image : ImageItem)
  : option Action :=
  minZIndex ← mathMin (img_zIndex <$> imgs);
  Some (REORDER_LAYER (img_id image) (minZIndex - 1)%Q).

(** The list after the first two steps of [REORDER_LAYER], before the
    renormalisation. *)
Definition shiftedImages (imageIndex : nat) (target : ImageId) (newZIndex : Q)
    (l : list ImageItem) : list ImageItem :=
  shiftOther target (default 0%Q (img_zIndex <$> l !! imageIndex)) newZIndex
    <$> alter (set_zIndex newZIndex) imageIndex l.

(** ** Keyboard shortcuts ([useKeyboardShortcuts]) *)

(** [images.find(img => img.id === id)]. *)
Definition findImage (i : ImageId) (l : list ImageItem) : option ImageItem :=
  snd <$> list_find (λ img, img_id img = i) l.

(** [handleLayerShortcuts]: the action a key press dispatches, [None] when
    it dispatches nothing.  [key] is [event.key.toLowerCase()];
    [inputFocused] tells whether the focus is in an input, a text area or
    an editable element. *)
Definition handleLayerShortcuts (inputFocused : bool) (key : string)
    (s : AppState) : option Action :=
  if inputFocused then None
  else if String.eqb key "l" then Some TOGGLE_LAYER_SIDEBAR
  else if String.eqb key "[" then
    sel ← selectedImageId s;
    selectedImage ← findImage sel (images s);
    if Qltb 0 (img_zIndex selectedImage)
    then Some (REORDER_LAYER sel (img_zIndex selectedImage - 1)%Q)
    else None
  else if String.eqb key "]" then
    sel ← selectedImageId s;
    maxZIndex ← mathMax ((img_zIndex <$> images s) ++ [(-1)%Q]);
    selectedImage ← findImage sel (images s);
    if Qltb (img_zIndex selectedImage) maxZIndex
    then Some (REORDER_LAYER sel (img_zIndex selectedImage + 1)%Q)
    else None
  else if String.eqb key "delete" || String.eqb key "backspace" then
    sel ← selectedImageId s;
    Some (DELETE_IMAGE sel)
  else None.

(** The layer an image ends on when the images on layers [a] and [b]
    change places. *)
Definition swapLayers (a b layer : nat) : nat :=
  if decide (layer = a) then b
  else if decide (layer = b) then a else layer.

(** ** Layer list of the sidebar ([LayerSidebar.tsx]) *)

(** [[...images].sort((a, b) => b.zIndex - a.zIndex)]: highest layer
    first, equal values in array order. *)
Fixpoint insertDescending (x : ImageItem) (l : list ImageItem)
  : list ImageItem :=
  match l with
  | [] => [x]
  | y :: l' =>
      if Qle_bool (img_zIndex y) (img_zIndex x) then x :: y :: l'
      else y :: insertDescending x l'
  end.

Definition sortedImages (imgs : list ImageItem) : list ImageItem :=
  foldr insertDescending [] imgs.

(** [handleDrop]: the outer [None] is the [TypeError] of reading [zIndex]
    from a row that does not exist, the inner one a drop that dispatches
    nothing. *)
Definition handleDrop (draggedImageId : option ImageId) (targetIndex : nat)
    (imgs : list ImageItem) : option (option Action) :=
  match draggedImageId with
  | None => Some None
  | Some dragged =>
      match findIndex dragged (sortedImages imgs) with
      | None => Some None
      | Some draggedImageIndex =>
          if decide (draggedImageIndex = targetIndex) then Some None
          else
            targetImage ← sortedImages imgs !! targetIndex;
            Some (Some (REORDER_LAYER dragged (img_zIndex targetImage)))
      end
  end.

(** ** Gestures *)

Definition isUpdate (a : Action) : bool :=
  match a with UPDATE_IMAGE _ _ => true | _ => false end.

(** Updates that write one coordinate. *)
Definition onlyX (x : Q) : ImageUpdates :=
  mkUpd None None (Some x) None None None None None None None None None None.

Definition onlyY (y : Q) : ImageUpdates :=
  mkUpd None None None (Some y) None None None None None None None None None.

(** [handleImageShortcuts]: the actions an arrow key dispatches, in
    order.  [key] is [event.key], [shift] is [event.shiftKey]. *)
Definition handleImageShortcuts (key : string) (shift : bool) (s : AppState)
  : list Action :=
  match selectedImageId s with
  | None => []
  | Some sel =>
      if bool_decide (dragMode s = grid_snap) then []
      else
        let moveDistance : Q := if shift then 10%Q else 1%Q in
        match findImage sel (images s) with
        | None => []
        | Some selectedImage =>
            let record :=
              ADD_HISTORY_STEP move_image "画像をキーボードで移動" in
            if String.eqb key "ArrowUp" then
              [UPDATE_IMAGE sel
                 (onlyY (Qmax 0 (img_y selectedImage - moveDistance)));
               record]
            else if String.eqb key "ArrowDown" then
              [UPDATE_IMAGE sel (onlyY (img_y selectedImage + moveDistance)%Q);
               record]
            else if String.eqb key "ArrowLeft" then
              [UPDATE_IMAGE sel
                 (onlyX (Qmax 0 (img_x selectedImage - moveDistance)));
               record]
            else if String.eqb key "ArrowRight" then
              [UPDATE_IMAGE sel (onlyX (img_x selectedImage + moveDistance)%Q);
               record]
            else []
        end
  end.

(** ** Dragging ([handleMouseMove] in [DraggableImage.tsx]) *)

Record DragStart := mkDragStart {
  ds_x : Q;
  ds_y : Q;
  ds_imgX : Q;
  ds_imgY : Q
}.

(** [lightSnapToGrid] with its default grid of 44. *)
Definition lightSnapToGrid (value : Q) : Q := snapToGrid value 44.

(** The drag branch of [handleMouseMove]: the [x] and [y] it submits. *)
Definition dragMove (mode : DragMode) (bounds : Bounds) (image : ImageItem)
    (dragStart : DragStart) (ev : PointerEvent) : Q * Q :=
  let deltaX := (clientX ev - ds_x dragStart)%Q in
  let deltaY := (clientY ev - ds_y dragStart)%Q in
  let newX := (ds_imgX dragStart + deltaX)%Q in
  let newY := (ds_imgY dragStart + deltaY)%Q in
  let newX := if bool_decide (mode = grid_snap) then lightSnapToGrid newX
              else newX in
  let newY := if bool_decide (mode = grid_snap) then lightSnapToGrid newY
              else newY in
  (Qmax 0 (Qmin (b_width bounds - img_width image) newX),
   Qmax 0 (Qmin (b_height bounds - img_height image) newY)).

(** ** Grid-mode arrow keys ([ImageCanvas.tsx]) *)



(** ** Placement of a pasted image ([usePasteHandler.ts]) *)

(** [calculateImagePosition].  [canvasRect] is the bounding rectangle of
    the canvas element, [None] when the element is not in the document;
    [imgs] is [state.images]. *)
Definition calculateImagePosition (canvasRect : option Bounds)
    (imgs : list ImageItem) (imageWidth imageHeight : Q) : Q * Q :=
  let safetyMargin : Q := 8%Q in
  let canvasWidth :=
    match canvasRect with
    | Some r => (b_width r - safetyMargin)%Q
    | None => 792%Q
    end in
  let canvasHeight :=
    match canvasRect with
    | Some r => (b_height r - safetyMargin)%Q
    | None => 592%Q
    end in
  let centerX := (canvasWidth / 2)%Q in
  let centerY := (canvasHeight / 2)%Q in
  let '(x, y) :=
    match last imgs with
    | Some lastImage =>
        let offsetX : Q := 25%Q in
        let offsetY : Q := 25%Q in
        let x := (img_x lastImage + offsetX)%Q in
        let y := (img_y lastImage + offsetY)%Q in
        let '(x, y) :=
          if Qltb canvasWidth (x + imageWidth)
          then (50%Q, (img_y lastImage + img_height lastImage + 30)%Q)
          else (x, y) in
        if Qltb canvasHeight (y + imageHeight)
        then ((centerX - imageWidth / 2)%Q, (centerY - imageHeight / 2)%Q)
        else (x, y)
    | None => ((centerX - imageWidth / 2)%Q, (centerY - imageHeight / 2)%Q)
    end in
  (Qmax 10 (Qmin (canvasWidth - imageWidth - 10) x),
   Qmax 10 (Qmin (canvasHeight - imageHeight - 10) y)).

(** ** Layout of the combined export ([useExport.ts]) *)












(** ** Predicted file size ([useExport.ts]) *)

Inductive DownloadFormat := png | jpeg | webp.

Inductive SizeUnit := unitB | unitKB | unitMB.

(** Bytes in one unit. *)
Definition unitBytes (unit : SizeUnit) : Q :=
  match unit with
  | unitB => 1
  | unitKB => 1024
  | unitMB => 1024 * 1024
  end%Q.

(** [estimateFileSize]: the [size] and [unit] of its result (the
    [formatted] text is left out). *)
Definition estimateFileSize (width height : Q) (format : DownloadFormat)
    (quality : Q) : Q * SizeUnit :=
  let pixels := (width * height)%Q in
  let estimatedBytes :=
    match format with
    | png => (pixels * 3)%Q
    | jpeg => ((pixels * 3 * quality) / 3)%Q
    | webp => ((pixels * 3 * quality) / 4)%Q
    end in
  if Qltb estimatedBytes 1024 then (estimatedBytes, unitB)
  else if Qltb estimatedBytes (1024 * 1024)
       then ((estimatedBytes / 1024)%Q, unitKB)
       else ((estimatedBytes / (1024 * 1024))%Q, unitMB).

(** ** Further sample documents *)

(** The image at array position [pos] of a document. *)
Definition imageAt (s : AppState) (pos : nat) : ImageItem :=
  default tallImage (images s !! pos).

(** [A], [B], [C] with the zIndex of [A] overwritten with 7: layers 7, 1
    and 2. *)
Definition docABC_relayered : AppState :=
  default initialState
    (imageReducer (envAt 3500 idA) docABC (UPDATE_IMAGE idA (onlyZIndex 7))).

(** A drag of [tallImage] that starts with the pointer at the origin. *)
Definition tallDrag : DragStart := mkDragStart 0 0 100 100.



(** * Properties *)

(** ** Elementary facts about the state helpers *)

Lemma images_pushHistory st s : images (pushHistory st s) = images s.
Proof. reflexivity. Qed.

Lemma images_capHistory s : images (capHistory s) = images s.
Proof. unfold capHistory. by destruct (100 <? _). Qed.

Lemma selected_capHistory s : selectedImageId (capHistory s) = selectedImageId s.
Proof. unfold capHistory. by destruct (100 <? _). Qed.

Lemma cropState_capHistory s : cropState (capHistory s) = cropState s.
Proof. unfold capHistory. by destruct (100 <? _). Qed.

Lemma history_pushHistory st s :
  history (pushHistory st s) = slice0 (history s) (historyIndex s + 1) ++ [st].
Proof. reflexivity. Qed.

Lemma historyIndex_pushHistory st s :
  historyIndex (pushHistory st s)
  = Z.of_nat (length (history (pushHistory st s))) - 1.
Proof. reflexivity. Qed.

(** After a push, with or without the cap, the cursor is on the last step. *)
Lemma cursor_last_capHistory s :
  historyIndex s = Z.of_nat (length (history s)) - 1 →
  historyIndex (capHistory s) = Z.of_nat (length (history (capHistory s))) - 1.
Proof.
  intros Hc. unfold capHistory.
  destruct (100 <? Z.of_nat (length (history s))) eqn:Hlen; [|done].
  apply Z.ltb_lt in Hlen. cbn. rewrite length_drop. lia.
Qed.

Lemma history_capHistory s :
  history (capHistory s) = history s ∨ history (capHistory s) = drop 1 (history s).
Proof. unfold capHistory. destruct (100 <? _); [by right | by left]. Qed.

Lemma sliceLast_snoc {A} (l : list A) (x : A) : sliceLast (l ++ [x]) = [x].
Proof.
  unfold sliceLast. rewrite length_app. cbn [length].
  replace (length l + 1 - 1)%nat with (length l) by lia.
  by rewrite drop_app_length.
Qed.

Lemma sliceLast_nil {A} : sliceLast (@nil A) = [].
Proof. reflexivity. Qed.


Lemma last_snoc_drop1 {A} (l : list A) (x : A) :
  last (drop 1 (l ++ [x])) = Some x ∨ drop 1 (l ++ [x]) = [].
Proof.
  destruct l as [|y l]; cbn; [by right|]. left. rewrite drop_0. apply last_snoc.
Qed.

(** What an appending dispatch does to the history, whichever case of the
    reducer it goes through. *)
Lemma appending_dispatch e s a :
  appendsStep e s a = true →
  ∃ s' st,
    imageReducer e s a = Some s'
    ∧ step_images st = images s'
    ∧ (history s' = slice0 (history s) (historyIndex s + 1) ++ [st]
       ∨ (100 < Z.of_nat (length (slice0 (history s) (historyIndex s + 1) ++ [st]))
          ∧ history s' = drop 1 (slice0 (history s) (historyIndex s + 1) ++ [st])))
    ∧ historyIndex s' = Z.of_nat (length (history s')) - 1.
Proof.
  assert (Hcap : ∀ st s0,
    history s0 = history s → historyIndex s0 = historyIndex s →
    let s' := capHistory (pushHistory st s0) in
    (history s' = slice0 (history s) (historyIndex s + 1) ++ [st]
     ∨ (100 < Z.of_nat (length (slice0 (history s) (historyIndex s + 1) ++ [st]))
        ∧ history s' = drop 1 (slice0 (history s) (historyIndex s + 1) ++ [st])))
    ∧ historyIndex s' = Z.of_nat (length (history s')) - 1).
  { intros st s0 Hh Hi. cbn zeta. split.
    - unfold capHistory.
      destruct (100 <? Z.of_nat (length (history (pushHistory st s0)))) eqn:Hl.
      + right. apply Z.ltb_lt in Hl. rewrite history_pushHistory, Hh, Hi in Hl.
        split; [done|]. cbn. by rewrite Hh, Hi.
      + left. rewrite history_pushHistory. by rewrite Hh, Hi.
    - apply cursor_last_capHistory, historyIndex_pushHistory. }
  assert (Hpush : ∀ st s0,
    history s0 = history s → historyIndex s0 = historyIndex s →
    let s' := pushHistory st s0 in
    (history s' = slice0 (history s) (historyIndex s + 1) ++ [st]
     ∨ (100 < Z.of_nat (length (slice0 (history s) (historyIndex s + 1) ++ [st]))
        ∧ history s' = drop 1 (slice0 (history s) (historyIndex s + 1) ++ [st])))
    ∧ historyIndex s' = Z.of_nat (length (history s')) - 1).
  { intros st s0 Hh Hi. cbn zeta. split; [|apply historyIndex_pushHistory].
    left. rewrite history_pushHistory. by rewrite Hh, Hi. }
  destruct a; cbn [appendsStep]; try discriminate; intros Hg.
  - (* ADD_IMAGE *)
    apply negb_true_iff in Hg. cbn [imageReducer]. rewrite Hg.
    eexists _, _. split; [reflexivity|]. split; [|by apply Hcap].
    by rewrite images_capHistory, images_pushHistory.
  - (* DELETE_IMAGE *)
    unfold found in Hg. cbn [imageReducer].
    destruct (findIndex payload (images s)) as [i|]; [|done].
    eexists _, _. split; [reflexivity|]. split; [|apply Hpush].
    + by rewrite images_pushHistory.
    + by destruct (decide _).
    + by destruct (decide _).
  - (* ADD_HISTORY_STEP *)
    cbn [imageReducer]. eexists _, _. split; [reflexivity|].
    split; [|by apply Hcap].
    by rewrite images_capHistory, images_pushHistory.
  - (* APPLY_CROP *)
    cbn [imageReducer]. unfold found in Hg.
    destruct (crop_imageId (cropState s)) as [t|]; [|done].
    destruct (crop_selection (cropState s)) as [sel|]; [|done].
    destruct (findIndex t (images s)) as [i|]; [|done].
    eexists _, _. split; [reflexivity|]. split; [|by apply Hpush].
    reflexivity.
  - (* REORDER_LAYER *)
    unfold found in Hg. cbn [imageReducer].
    destruct (findIndex imageId (images s)) as [i|]; [|done].
    eexists _, _. split; [reflexivity|]. split; [|by apply Hcap].
    by rewrite images_capHistory, images_pushHistory.
  - (* TOGGLE_LAYER_VISIBILITY *)
    unfold found in Hg. cbn [imageReducer].
    destruct (findIndex payload (images s)) as [i|]; [|done].
    eexists _, _. split; [reflexivity|]. split; [|by apply Hpush].
    reflexivity.
Qed.

(** A dispatch that appends nothing leaves the collection and the history
    as they were. *)
Lemma non_appending_edit e s a :
  isEditAction a = true → appendsStep e s a = false →
  ∃ s', imageReducer e s a = Some s'
        ∧ images s' = images s ∧ history s' = history s
        ∧ historyIndex s' = historyIndex s.
Proof.
  destruct a; cbn [isEditAction appendsStep]; try discriminate; intros _ Hg;
    try (eexists; split; [reflexivity|]; done).
  - apply negb_false_iff in Hg. cbn [imageReducer]. rewrite Hg. eauto 10.
  - unfold found in Hg. cbn [imageReducer].
    destruct (findIndex payload (images s)); [done|]. eauto 10.
  - cbn [imageReducer]. unfold found in Hg.
    destruct (crop_imageId (cropState s)) as [t|];
      [destruct (crop_selection (cropState s)) as [sel|];
       [destruct (findIndex t (images s)); [done|] |] |];
      eexists; (split; [reflexivity|]); done.
  - unfold found in Hg. cbn [imageReducer].
    destruct (findIndex imageId (images s)); [done|]. eauto 10.
  - unfold found in Hg. cbn [imageReducer].
    destruct (findIndex payload (images s)); [done|]. eauto 10.
Qed.

(** ** Adding an image *)

(** C10. An [ADD_IMAGE] that is not rejected as a duplicate stores an image
    whose [aspectRatioLocked] is the document's global flag at that moment,
    whatever the payload carried in that field. *)
Theorem add_image_uses_global_aspect_lock e s payload :
  isDuplicate e payload (images s) = false →
  ∃ s' stored,
    imageReducer e s (ADD_IMAGE payload) = Some s'
    ∧ images s' = images s ++ [stored]
    ∧ img_id stored = e_imageId e
    ∧ img_src stored = new_src payload
    ∧ img_aspectRatioLocked stored = aspectRatioLocked s.
Proof.
  intros Hdup. cbn [imageReducer]. rewrite Hdup.
  eexists _, (newImageOf e payload s). split; [reflexivity|].
  rewrite images_capHistory, images_pushHistory. done.
Qed.

(** The payload [sampleA] asks for an unlocked image; the fresh document
    has the global lock on, and the stored image is locked. *)
Lemma add_image_uses_global_aspect_lock_witness :
  new_aspectRatioLocked sampleA = false
  ∧ ∃ s' stored,
      imageReducer (envAt 1000 idA) initialState (ADD_IMAGE sampleA) = Some s'
      ∧ images s' = images initialState ++ [stored]
      ∧ img_id stored = e_imageId (envAt 1000 idA)
      ∧ img_src stored = new_src sampleA
      ∧ img_aspectRatioLocked stored = true.
Proof.
  split; [reflexivity|].
  apply (add_image_uses_global_aspect_lock (envAt 1000 idA) initialState sampleA).
  reflexivity.
Defined.

(** C8. With [recent] the last image of the collection: a payload with the
    same [src], [x] and [y] as [recent], dispatched less than 50 ms after
    [recent] got its id, is rejected and the whole state (collection,
    selection, history, cursor) stays as it was; a payload that differs from
    [recent] in [src], [x] or [y] is appended, whatever the earlier images
    look like. *)
Theorem duplicate_add_guard e s payload earlier recent :
  images s = earlier ++ [recent] →
  let same :=
    img_src recent = new_src payload
    ∧ (img_x recent == new_x payload)%Q
    ∧ (img_y recent == new_y payload)%Q in
  (same ∧ e_now e - id_time (img_id recent) < 50 →
     imageReducer e s (ADD_IMAGE payload) = Some s)
  ∧ (¬ same →
     ∃ s', imageReducer e s (ADD_IMAGE payload) = Some s'
           ∧ images s' = images s ++ [newImageOf e payload s]
           ∧ selectedImageId s' = Some (e_imageId e)).
Proof.
  intros Himgs same. subst same.
  assert (Hd : isDuplicate e payload (images s)
               = String.eqb (img_src recent) (new_src payload)
                 && Qeq_bool (img_x recent) (new_x payload)
                 && Qeq_bool (img_y recent) (new_y payload)
                 && (e_now e - id_time (img_id recent) <? 50)).
  { unfold isDuplicate. rewrite Himgs, sliceLast_snoc. cbn.
    by rewrite orb_false_r. }
  split.
  - intros [(Hsrc & Hx & Hy) Ht]. cbn [imageReducer]. rewrite Hd.
    apply String.eqb_eq in Hsrc. apply Qeq_bool_iff in Hx, Hy.
    apply Z.ltb_lt in Ht. by rewrite Hsrc, Hx, Hy, Ht.
  - intros Hne. cbn [imageReducer]. rewrite Hd.
    destruct (_ && _) eqn:Hdup.
    + exfalso. apply Hne.
      apply andb_true_iff in Hdup as [Hdup _].
      apply andb_true_iff in Hdup as [Hdup Hy].
      apply andb_true_iff in Hdup as [Hsrc Hx].
      apply String.eqb_eq in Hsrc. apply Qeq_bool_iff in Hx, Hy. done.
    + eexists. split; [reflexivity|].
      rewrite images_capHistory, selected_capHistory. done.
Qed.

(** [sampleA] pasted twice 10 ms apart: the second paste changes nothing;
    [sampleB] pasted right after [sampleA] is appended. *)
Lemma duplicate_add_guard_witness :
  imageReducer (envAt 1010 idB) docA (ADD_IMAGE sampleA) = Some docA
  ∧ ∃ s', imageReducer (envAt 1010 idB) docA (ADD_IMAGE sampleB) = Some s'
          ∧ images s' = images docA ++ [newImageOf (envAt 1010 idB) sampleB docA]
          ∧ selectedImageId s' = Some idB.
Proof.
  split.
  - refine (proj1 (duplicate_add_guard (envAt 1010 idB) docA sampleA []
                     (newImageOf (envAt 1000 idA) sampleA initialState)
                     eq_refl) _).
    repeat split; vm_compute; congruence.
  - refine (proj2 (duplicate_add_guard (envAt 1010 idB) docA sampleB []
                     (newImageOf (envAt 1000 idA) sampleA initialState)
                     eq_refl) _).
    intros [Hsrc _]. vm_compute in Hsrc. congruence.
Defined.

(** ** Cropping *)



(** ** Redo after a new edit *)






(** ** Undo and redo *)

Lemma length_slice0 {A} (l : list A) (e : Z) : (length (slice0 l e) ≤ length l)%nat.
Proof. unfold slice0. rewrite length_take. lia. Qed.

Lemma at_index_Some {A} (l : list A) (i : Z) (x : A) :
  at_index l i = Some x ↔ 0 ≤ i ∧ l !! Z.to_nat i = Some x.
Proof.
  unfold at_index. destruct (i <? 0) eqn:Hi.
  - apply Z.ltb_lt in Hi. split; [done | lia].
  - apply Z.ltb_ge in Hi. tauto.
Qed.

Lemma at_index_in_range {A} (l : list A) (i : Z) :
  0 ≤ i < Z.of_nat (length l) → is_Some (at_index l i).
Proof.
  intros Hi. unfold at_index.
  destruct (i <? 0) eqn:Hneg; [apply Z.ltb_lt in Hneg; lia|].
  apply lookup_lt_is_Some. lia.
Qed.

Lemma at_index_last {A} (l : list A) :
  at_index l (Z.of_nat (length l) - 1) = last l.
Proof.
  destruct l as [|x l]; [done|].
  unfold at_index. cbn [length].
  destruct (_ <? 0) eqn:Hneg; [apply Z.ltb_lt in Hneg; lia|].
  rewrite last_lookup. f_equal. cbn [length]. lia.
Qed.

Lemma at_index_first {A} (l : list A) : at_index l 0 = head l.
Proof. by destruct l. Qed.

(** [n] undos walk the cursor down to [max 0 (cursor - n)], restoring the
    snapshot found there. *)
Lemma undo_n e n : ∀ s,
  0 ≤ historyIndex s < Z.of_nat (length (history s)) →
  cursorOnSnapshot s →
  ∃ s', repeatAction e UNDO n s = Some s'
        ∧ history s' = history s
        ∧ historyIndex s' = Z.max 0 (historyIndex s - Z.of_nat n)
        ∧ cursorOnSnapshot s'.
Proof.
  induction n as [|n IH]; intros s Hr Hc.
  - exists s. cbn. repeat split; [lia | done].
  - cbn [repeatAction imageReducer].
    destruct (0 <? historyIndex s) eqn:Hpos.
    + apply Z.ltb_lt in Hpos.
      destruct (at_index_in_range (history s) (historyIndex s - 1)) as [st Hst];
        [lia|].
      rewrite Hst. cbn [mbind option_bind].
      destruct (IH (with_images (step_images st)
                      (with_history (history s) (historyIndex s - 1) s)))
        as (s' & Hrun & Hh & Hi & Hc'); [cbn; lia | by exists st |].
      exists s'. cbn in Hh, Hi. repeat split; [done | done | lia | done].
    + apply Z.ltb_ge in Hpos. cbn [mbind option_bind].
      destruct (IH s Hr Hc) as (s' & Hrun & Hh & Hi & Hc').
      exists s'. repeat split; [done | done | lia | done].
Qed.

(** [n] redos walk it up to [min (length - 1) (cursor + n)]. *)
Lemma redo_n e n : ∀ s,
  0 ≤ historyIndex s < Z.of_nat (length (history s)) →
  cursorOnSnapshot s →
  ∃ s', repeatAction e REDO n s = Some s'
        ∧ history s' = history s
        ∧ historyIndex s'
          = Z.min (Z.of_nat (length (history s)) - 1)
              (historyIndex s + Z.of_nat n)
        ∧ cursorOnSnapshot s'.
Proof.
  induction n as [|n IH]; intros s Hr Hc.
  - exists s. cbn. repeat split; [lia | done].
  - cbn [repeatAction imageReducer].
    destruct (historyIndex s <? Z.of_nat (length (history s)) - 1) eqn:Hlt.
    + apply Z.ltb_lt in Hlt.
      destruct (at_index_in_range (history s) (historyIndex s + 1)) as [st Hst];
        [lia|].
      rewrite Hst. cbn [mbind option_bind].
      destruct (IH (with_images (step_images st)
                      (with_history (history s) (historyIndex s + 1) s)))
        as (s' & Hrun & Hh & Hi & Hc'); [cbn; lia | by exists st |].
      exists s'. cbn in Hh, Hi. repeat split; [done | done | lia | done].
    + apply Z.ltb_ge in Hlt. cbn [mbind option_bind].
      destruct (IH s Hr Hc) as (s' & Hrun & Hh & Hi & Hc').
      exists s'. repeat split; [done | done | lia | done].
Qed.

(** With an empty history neither [UNDO] nor [REDO] does anything. *)
Lemma undo_redo_empty e a n s :
  a = UNDO ∨ a = REDO →
  history s = [] → historyIndex s = -1 → repeatAction e a n s = Some s.
Proof.
  intros Ha Hh Hi. induction n as [|n IH]; [done|].
  cbn [repeatAction]. destruct Ha as [-> | ->]; cbn [imageReducer];
    rewrite Hh, Hi; cbn; exact IH.
Qed.

Lemma historyConsistent_step e s a :
  isEditAction a = true → historyConsistent s →
  ∃ s', imageReducer e s a = Some s' ∧ historyConsistent s'
        ∧ (length (history s') ≤ S (length (history s)))%nat.
Proof.
  intros Ha [Hc Hl]. destruct (appendsStep e s a) eqn:Hg.
  - destruct (appending_dispatch e s a Hg) as (s' & st & Hred & Himgs & Hh & Hc').
    exists s'. split; [done|]. split; [split; [done|] |].
    + destruct Hh as [-> | [Hlen ->]]; [by rewrite last_snoc|].
      destruct (last_snoc_drop1 (slice0 (history s) (historyIndex s + 1)) st)
        as [-> | Hnil]; [done|].
      apply (f_equal length) in Hnil. rewrite length_drop in Hnil. cbn in Hnil.
      lia.
    + pose proof (length_slice0 (history s) (historyIndex s + 1)).
      destruct Hh as [-> | [_ ->]]; rewrite ?length_drop, length_app; cbn; lia.
  - destruct (non_appending_edit e s a Ha Hg) as (s' & Hred & Hi & Hh & Hx).
    exists s'. split; [done|]. unfold historyConsistent.
    rewrite Hi, Hh, Hx. split; [done | lia].
Qed.

Lemma historyConsistent_run ops : ∀ s,
  Forall (λ ea, isEditAction ea.2 = true) ops → historyConsistent s →
  ∃ s', run s ops = Some s' ∧ historyConsistent s'
        ∧ (length (history s') ≤ length (history s) + length ops)%nat.
Proof.
  induction ops as [|[e a] ops IH]; intros s Hall Hc.
  - exists s. cbn. repeat split; [apply Hc.. | lia].
  - apply Forall_cons in Hall as [Ha Hall]. cbn in Ha.
    destruct (historyConsistent_step e s a Ha Hc) as (s1 & Hred & Hc1 & Hlen1).
    destruct (IH s1 Hall Hc1) as (s' & Hrun & Hc' & Hlen').
    exists s'. cbn [run]. rewrite Hred. cbn. repeat split; [done | apply Hc'.. |].
    cbn [length]. lia.
Qed.

Lemma historyConsistent_initial : historyConsistent initialState.
Proof. by split. Qed.

Lemma slice0_all {A} (l : list A) : slice0 l (Z.of_nat (length l) - 1 + 1) = l.
Proof.
  unfold slice0. replace (Z.of_nat (length l) - 1 + 1) with (Z.of_nat (length l))
    by lia.
  destruct (_ <? 0) eqn:Hneg; [apply Z.ltb_lt in Hneg; lia|].
  rewrite Z.min_id, Nat2Z.id. by apply take_ge.
Qed.

(** Below the cap an edit leaves the oldest step in place. *)
Lemma oldest_step_kept e s a s' :
  isEditAction a = true → historyConsistent s →
  history s ≠ [] → (length (history s) < 100)%nat →
  imageReducer e s a = Some s' →
  head (history s') = head (history s).
Proof.
  intros Ha [Hc _] Hne Hlen Hred. destruct (appendsStep e s a) eqn:Hg.
  - destruct (appending_dispatch e s a Hg) as (s1 & st & Hred1 & _ & Hh & _).
    rewrite Hred in Hred1. injection Hred1 as <-.
    rewrite Hc, slice0_all in Hh.
    destruct Hh as [-> | [Hover _]].
    + by destruct (history s).
    + rewrite length_app in Hover. cbn in Hover. lia.
  - destruct (non_appending_edit e s a Ha Hg) as (s1 & Hred1 & _ & Hh & _).
    rewrite Hred in Hred1. injection Hred1 as <-. by rewrite Hh.
Qed.

Lemma oldest_step_kept_run ops : ∀ s s',
  Forall (λ ea, isEditAction ea.2 = true) ops → historyConsistent s →
  history s ≠ [] → (length (history s) + length ops ≤ 100)%nat →
  run s ops = Some s' →
  head (history s') = head (history s).
Proof.
  induction ops as [|[e a] ops IH]; intros s s' Hall Hc Hne Hlen Hrun.
  - cbn in Hrun. by injection Hrun as <-.
  - apply Forall_cons in Hall as [Ha Hall]. cbn in Ha, Hlen.
    destruct (historyConsistent_step e s a Ha Hc) as (s1 & Hred & Hc1 & Hlen1).
    cbn [run] in Hrun. rewrite Hred in Hrun. cbn in Hrun.
    assert (Hhead : head (history s1) = head (history s))
      by (eapply oldest_step_kept; [done.. | lia | done]).
    rewrite <- Hhead. apply IH; [done.. | | lia | done].
    intros Hnil. rewrite Hnil in Hhead. by destruct (history s).
Qed.

(** The first edit that appends leaves a history of exactly one step. *)
Lemma first_step e a s1 :
  appendsStep e initialState a = true →
  imageReducer e initialState a = Some s1 →
  ∃ st, history s1 = [st] ∧ step_images st = images s1.
Proof.
  intros Hg Hred.
  destruct (appending_dispatch e initialState a Hg)
    as (s' & st & Hred' & Himgs & Hh & _).
  rewrite Hred in Hred'. injection Hred' as <-. exists st. split; [|done].
  destruct Hh as [Hh | [Hover _]]; [done|]. by vm_compute in Hover.
Qed.

(** C1, as the code has it.  After any sequence of [N] operations from
    the initial document, each one of the six that append a step or one
    that touches neither collection nor history, [N] undos bring back the
    snapshot of the oldest step still in the history (an empty collection only when no
    operation appended a step): the guard [historyIndex > 0] never lets the
    cursor leave the history, so the state before the first step is out of
    reach.  With [N] at most 100 and a first operation that appends, that
    snapshot is the collection as the first operation left it.  [N] undos
    followed by [N] redos bring back the final collection. *)
Theorem undo_redo_roundtrip ops eu er s :
  Forall (λ ea, isEditAction ea.2 = true) ops →
  run initialState ops = Some s →
  ∃ su sr,
    repeatAction eu UNDO (length ops) s = Some su
    ∧ images su = match head (history s) with
                  | Some oldest => step_images oldest
                  | None => images initialState
                  end
    ∧ (∀ e a rest s1,
         ops = (e, a) :: rest → (length ops ≤ 100)%nat →
         appendsStep e initialState a = true →
         imageReducer e initialState a = Some s1 →
         images su = images s1)
    ∧ repeatAction er REDO (length ops) su = Some sr
    ∧ images sr = images s.
Proof.
  intros Hall Hrun.
  destruct (historyConsistent_run ops initialState Hall historyConsistent_initial)
    as (s0 & Hrun0 & [Hc Hl] & Hlen).
  rewrite Hrun in Hrun0. injection Hrun0 as <-. cbn in Hlen.
  assert (Hfirst : ∀ su e a rest s1,
    images su = match head (history s) with
                | Some oldest => step_images oldest
                | None => images initialState
                end →
    ops = (e, a) :: rest → (length ops ≤ 100)%nat →
    appendsStep e initialState a = true →
    imageReducer e initialState a = Some s1 →
    images su = images s1).
  { intros su e a rest s1 Hsu -> Hn Hg Hred.
    destruct (first_step e a s1 Hg Hred) as (st & Hh1 & Hst).
    apply Forall_cons in Hall as [Ha Hall]. cbn in Ha.
    destruct (historyConsistent_step e initialState a Ha historyConsistent_initial)
      as (s1' & Hred' & Hc1 & _).
    rewrite Hred in Hred'. injection Hred' as <-.
    cbn [run] in Hrun. rewrite Hred in Hrun. cbn in Hrun.
    rewrite (oldest_step_kept_run rest s1 s Hall Hc1) in Hsu;
      [| by rewrite Hh1 | rewrite Hh1; cbn in *; lia | done].
    rewrite Hh1 in Hsu. cbn in Hsu. congruence. }
  destruct (history s) as [|st0 h] eqn:Hh.
  - (* nothing was appended *)
    cbn in Hc, Hl.
    exists s, s. rewrite !undo_redo_empty by (try done; tauto). cbn.
    split; [done|]. split; [done|]. split; [|done].
    intros e a rest s1. by apply Hfirst.
  - assert (Hr : 0 ≤ historyIndex s < Z.of_nat (length (history s))).
    { rewrite Hh. cbn [length] in *. lia. }
    assert (Hcur : cursorOnSnapshot s).
    { unfold cursorOnSnapshot. rewrite Hc, Hh, at_index_last.
      destruct (last (st0 :: h)) as [st|] eqn:Hlast; [by exists st|].
      apply last_None in Hlast. done. }
    destruct (undo_n eu (length ops) s Hr Hcur) as (su & Hu & Hhu & Hiu & Hcu).
    assert (Hiu0 : historyIndex su = 0).
    { rewrite Hiu, Hc. cbn [length] in *. lia. }
    destruct (redo_n er (length ops) su) as (sr & Hre & Hhr & Hir & Hcr);
      [rewrite Hhu, Hiu0, Hh; cbn [length]; lia | done |].
    assert (Hsu : images su = step_images st0).
    { destruct Hcu as (st & Hst & <-). rewrite Hiu0, Hhu, Hh in Hst.
      cbn in Hst. by injection Hst as <-. }
    exists su, sr. split; [done|]. split; [done|].
    split; [intros e a rest s1; by apply Hfirst|]. split; [done|].
    destruct Hcr as (st & Hst & <-). destruct Hcur as (st' & Hst' & <-).
    rewrite Hhr, Hhu in Hst. rewrite Hir, Hiu0, Hhu in Hst.
    replace (Z.min _ _) with (historyIndex s) in Hst
      by (rewrite Hc, Hh; cbn [length] in *; lia).
    congruence.
Qed.

(** [A] added once: the undo that follows finds the cursor at 0 and is
    refused, so the collection still holds [A] and not the initial empty
    value. *)
Lemma undo_cannot_reach_initial_collection :
  let ops := [(envAt 1000 idA, ADD_IMAGE sampleA)] in
  Forall (λ ea, isEditAction ea.2 = true) ops
  ∧ run initialState ops = Some docA
  ∧ ∀ su, repeatAction (envAt 1100 idA) UNDO (length ops) docA = Some su →
          images su ≠ images initialState.
Proof.
  cbn zeta. split; [by repeat constructor|]. split; [reflexivity|].
  intros su Hsu. vm_compute in Hsu. injection Hsu as <-. discriminate.
Qed.

(** [A] added, a crop of it started, sized and applied (four dispatches,
    two of which append a step): four undos stop at the snapshot taken when
    [A] was added, four redos bring the cropped [A] back. *)
Lemma undo_redo_roundtrip_witness :
  ∃ su sr,
    repeatAction (envAt 2100 idA) UNDO 4 docA_cropped = Some su
    ∧ images su = images docA
    ∧ repeatAction (envAt 2200 idA) REDO 4 su = Some sr
    ∧ images sr = images docA_cropped.
Proof.
  destruct (undo_redo_roundtrip (cropOfA ++ [(envAt 1700 idA, APPLY_CROP)])
              (envAt 2100 idA) (envAt 2200 idA) docA_cropped)
    as (su & sr & Hu & _ & Hfirst & Hr & Hfinal).
  - repeat constructor.
  - reflexivity.
  - exists su, sr. split; [exact Hu|]. split; [|split; [exact Hr | exact Hfinal]].
    apply (Hfirst (envAt 1000 idA) (ADD_IMAGE sampleA)
             [(envAt 1500 idA, START_CROP idA);
              (envAt 1600 idA, UPDATE_CROP_SELECTION (mkSel 5 7 40 30));
              (envAt 1700 idA, APPLY_CROP)] docA);
      [reflexivity | cbn; lia | reflexivity | reflexivity].
Defined.

(** ** Selection *)

Lemma found_ids i l : found i l = true ↔ i ∈ img_id <$> l.
Proof.
  unfold found, findIndex.
  destruct (list_find _ l) as [[k x]|] eqn:Hf; cbn.
  - apply list_find_Some in Hf as (Hk & Hx & _). split; [|done]. intros _.
    apply list_elem_of_fmap. exists x. split; [done|].
    by eapply list_elem_of_lookup_2.
  - split; [done|]. intros (x & -> & Hin)%list_elem_of_fmap.
    apply list_find_None in Hf. rewrite Forall_forall in Hf.
    by specialize (Hf x Hin).
Qed.

Lemma findIndex_Some i l k :
  findIndex i l = Some k → ∃ x, l !! k = Some x ∧ img_id x = i.
Proof.
  unfold findIndex. destruct (list_find _ l) as [[k' x]|] eqn:Hf; [|done].
  cbn. intros [= <-]. apply list_find_Some in Hf as (Hk & Hx & _). eauto.
Qed.

Lemma ids_alter f k (l : list ImageItem) :
  (∀ x, img_id (f x) = img_id x) →
  img_id <$> alter f k l = img_id <$> l.
Proof.
  intros Hf. rewrite (list_fmap_alter img_id f (λ x, x)).
  - by apply list_alter_id.
  - apply Forall_forall. intros x _. apply Hf.
Qed.

Lemma ids_renumberByPosition l :
  img_id <$> renumberByPosition l = img_id <$> l.
Proof.
  unfold renumberByPosition. rewrite fmap_imap.
  rewrite <- (imap_const img_id). by apply imap_ext.
Qed.

Lemma id_shiftOther t o n x : img_id (shiftOther t o n x) = img_id x.
Proof. unfold shiftOther. by repeat case_match. Qed.

Lemma ids_assignRanks order : ∀ r l,
  img_id <$> assignRanks r order l = img_id <$> l.
Proof.
  induction order as [|p order IH]; intros r l; [done|].
  cbn [assignRanks]. rewrite IH. by apply ids_alter.
Qed.

Lemma ids_fmap (f : ImageItem → ImageItem) (l : list ImageItem) :
  (∀ x, img_id (f x) = img_id x) → img_id <$> (f <$> l) = img_id <$> l.
Proof.
  intros Hf. induction l as [|x l IH]; [done|]. cbn. by rewrite Hf, IH.
Qed.

Lemma ids_reorderImages k t z l :
  img_id <$> reorderImages k t z l = img_id <$> l.
Proof.
  unfold reorderImages, normalizeZIndex. rewrite ids_assignRanks.
  rewrite ids_fmap by (intros; apply id_shiftOther).
  by apply ids_alter.
Qed.

Lemma ids_delete_other i k (l : list ImageItem) x :
  l !! k = Some x → i ≠ img_id x →
  i ∈ img_id <$> l → i ∈ img_id <$> delete k l.
Proof.
  intros Hk Hne (y & -> & Hin)%list_elem_of_fmap.
  apply list_elem_of_lookup in Hin as [j Hj].
  apply list_elem_of_fmap. exists y. split; [done|].
  assert (j ≠ k) by (intros ->; congruence).
  destruct (decide (j < k)%nat).
  - apply list_elem_of_lookup. exists j. by rewrite list_lookup_delete_lt.
  - apply list_elem_of_lookup. exists (pred j).
    rewrite list_lookup_delete_ge by lia.
    by replace (S (pred j)) with j by lia.
Qed.

Lemma selectionValid_ids s s' :
  selectedImageId s' = selectedImageId s →
  img_id <$> images s' = img_id <$> images s →
  selectionValid s = true → selectionValid s' = true.
Proof.
  unfold selectionValid. intros -> Hids.
  destruct (selectedImageId s) as [i|]; [|done].
  by rewrite !found_ids, Hids.
Qed.

(** One dispatch admitted by [keepsSelection] keeps the selection valid. *)
Lemma selectionValid_step e s a s' :
  keepsSelection s a = true → imageReducer e s a = Some s' →
  selectionValid s = true → selectionValid s' = true.
Proof.
  intros Hok Hred Hv.
  destruct a; cbn [keepsSelection] in Hok; try discriminate;
    cbn [imageReducer] in Hred;
    try (injection Hred as <-; exact Hv).
  - (* ADD_IMAGE *)
    destruct (isDuplicate e payload (images s)); injection Hred as <-; [done|].
    unfold selectionValid.
    rewrite selected_capHistory, images_capHistory. cbn.
    apply found_ids. rewrite fmap_app. apply elem_of_app. right. cbn.
    apply list_elem_of_singleton. done.
  - (* DELETE_IMAGE *)
    destruct (findIndex payload (images s)) as [k|] eqn:Hk;
      injection Hred as <-; [|done].
    apply findIndex_Some in Hk as (x & Hx & Hid).
    unfold selectionValid in *. rewrite images_pushHistory. cbn.
    destruct (decide (selectedImageId s = Some payload)) as [Heq|Hne]; [done|].
    cbn. destruct (selectedImageId s) as [i|]; [|done].
    apply found_ids. rewrite ids_renumberByPosition.
    apply (ids_delete_other i k _ x); [done | congruence | by apply found_ids].
  - (* UPDATE_IMAGE *)
    destruct (upd_id updates) eqn:Hu; [done|].
    destruct (findIndex id (images s)) as [k|]; injection Hred as <-; [|done].
    eapply selectionValid_ids; [| |exact Hv]; [done|]. cbn.
    apply ids_alter. intros x. unfold assignImage. cbn. by rewrite Hu.
  - (* SELECT_IMAGE *)
    injection Hred as <-. unfold selectionValid. cbn. by destruct payload.
  - (* ADD_HISTORY_STEP *)
    injection Hred as <-. eapply selectionValid_ids; [| |exact Hv].
    + by rewrite selected_capHistory.
    + by rewrite images_capHistory.
  - (* APPLY_CROP *)
    injection Hred as <-. eapply selectionValid_ids; [| |exact Hv].
    + cbn. by repeat case_match.
    + cbn. repeat case_match; try done. cbn.
      apply ids_alter. by intros [].
  - (* REORDER_LAYER *)
    destruct (findIndex imageId (images s)) as [k|]; injection Hred as <-;
      [|done].
    eapply selectionValid_ids; [| |exact Hv].
    + by rewrite selected_capHistory.
    + rewrite images_capHistory. cbn. apply ids_reorderImages.
  - (* TOGGLE_LAYER_VISIBILITY *)
    destruct (findIndex payload (images s)) as [k|]; injection Hred as <-;
      [|done].
    eapply selectionValid_ids; [| |exact Hv]; [done|]. cbn.
    apply ids_alter. by intros [].
  - (* RESET_STATE *)
    by injection Hred as <-.
Qed.

(** C9, as the code has it.  In every state reached from the initial
    document without [UNDO], [REDO] or [LOAD_STATE], with [SELECT_IMAGE]
    naming only images that are there and [UPDATE_IMAGE] leaving ids alone,
    a non-null selection names an image of the collection; and
    [DELETE_IMAGE] of the selected image clears the selection.  [UNDO] and
    [REDO] replace the collection and leave the selection as it is, so
    nothing is promised about them. *)
Theorem selection_valid_without_undo s :
  reachableBy keepsSelection s →
  selectionValid s = true
  ∧ ∀ e i s', selectedImageId s = Some i →
              imageReducer e s (DELETE_IMAGE i) = Some s' →
              selectedImageId s' = None ∧ selectionValid s' = true.
Proof.
  intros Hreach.
  assert (Hv : selectionValid s = true).
  { induction Hreach as [|e s a s' _ IH Hok Hred]; [done|].
    by eapply selectionValid_step. }
  split; [done|]. intros e i s' Hsel Hred.
  assert (Hv' : selectionValid s' = true)
    by (by eapply (selectionValid_step e s (DELETE_IMAGE i))).
  split; [|done].
  unfold selectionValid in Hv. rewrite Hsel in Hv. unfold found in Hv.
  cbn [imageReducer] in Hred.
  destruct (findIndex i (images s)) as [k|]; [|done].
  injection Hred as <-. cbn. rewrite Hsel.
  by destruct (decide (Some i = Some i)).
Qed.

(** [A] then [B] added: [B] is selected and present; deleting [B] clears
    the selection. *)
Lemma selection_valid_without_undo_witness :
  selectionValid docAB = true
  ∧ ∀ e i s', selectedImageId docAB = Some i →
              imageReducer e docAB (DELETE_IMAGE i) = Some s' →
              selectedImageId s' = None ∧ selectionValid s' = true.
Proof.
  apply (selection_valid_without_undo docAB).
  apply (reach_step keepsSelection (envAt 2000 idB) docA (ADD_IMAGE sampleB));
    [|reflexivity..].
  apply (reach_step keepsSelection (envAt 1000 idA) initialState
           (ADD_IMAGE sampleA)); [|reflexivity..].
  apply reach_init.
Defined.

(** [A] then [B] added, then one [UNDO]: the collection is back to [A]
    alone while the selection still names [B]. *)
Lemma undo_leaves_selection_dangling :
  reachableBy anyAction docAB_undone
  ∧ selectedImageId docAB_undone = Some idB
  ∧ layerTable (images docAB_undone) = [("a", 0%Q)]
  ∧ selectionValid docAB_undone = false.
Proof.
  split; [|by vm_compute].
  apply (reach_step anyAction (envAt 2500 idB) docAB UNDO); [|reflexivity..].
  apply (reach_step anyAction (envAt 2000 idB) docA (ADD_IMAGE sampleB));
    [|reflexivity..].
  apply (reach_step anyAction (envAt 1000 idA) initialState
           (ADD_IMAGE sampleA)); [|reflexivity..].
  apply reach_init.
Qed.

(** ** The history cap *)

(** C4, at the failing input.  One [ADD_IMAGE] followed by 149
    [TOGGLE_LAYER_VISIBILITY] leaves 150 steps in the history: the toggle
    case pushes its step without the length check that [ADD_IMAGE],
    [REORDER_LAYER] and [ADD_HISTORY_STEP] run after theirs.  The same
    count of [ADD_HISTORY_STEP] dispatches stops at 100. *)
Theorem history_cap_missing_on_toggle :
  (λ s, (length (history s), historyIndex s)) <$> docA_toggled
  = Some (150%nat, 149)
  ∧ (λ s, (length (history s), historyIndex s)) <$> docA_checkpointed
    = Some (100%nat, 99).
Proof. split; vm_compute; reflexivity. Qed.

(** ** Deleting a layer *)

(** C3, at the failing input.  With [A], [B], [C] added in that order and
    [A] raised to the top, the layers are [B] = 0, [C] = 1, [A] = 2.
    Deleting [C] (zIndex 1) should leave [A] at 1 and [B] at 0; the
    renumbering goes by array position instead and leaves [A] at 0 and [B]
    at 1, swapping the two. *)
Theorem delete_renumbers_by_array_position :
  layerTable (images docABC_raised) = [("a", 2%Q); ("b", 0%Q); ("c", 1%Q)]
  ∧ dense (images docABC_raised)
  ∧ (λ s, layerTable (images s))
      <$> imageReducer (envAt 5000 idA) docABC_raised (DELETE_IMAGE idC)
    = Some [("a", 0%Q); ("b", 1%Q)].
Proof.
  split; [by vm_compute|]. split; [|by vm_compute].
  unfold dense. vm_compute.
  change (Permutation [2%Q; 0%Q; 1%Q] [0%Q; 1%Q; 2%Q]).
  apply (Permutation_cons_app [0%Q; 1%Q] []). done.
Qed.

(** ** Dense layer numbers *)

Lemma insertByZ_Permutation p l : insertByZ p l ≡ₚ p :: l.
Proof.
  induction l as [|q l IH]; cbn; [done|].
  destruct (Qle_bool (snd p) (snd q)); [done|].
  rewrite IH. apply perm_swap.
Qed.

Lemma sortByZ_Permutation l : sortByZ l ≡ₚ l.
Proof.
  induction l as [|p l IH]; cbn; [done|].
  by rewrite insertByZ_Permutation, IH.
Qed.

(** The sorted copy holds every position of the array once. *)
Lemma sortedPositions_Permutation l :
  sortedPositions l ≡ₚ seq 0 (length l).
Proof.
  unfold sortedPositions. rewrite sortByZ_Permutation.
  rewrite fmap_imap.
  rewrite (imap_ext _ (λ pos _, pos) l) by done.
  by rewrite (imap_seq_0 l (λ pos, pos)), list_fmap_id.
Qed.

Lemma length_assignRanks order : ∀ r l,
  length (assignRanks r order l) = length l.
Proof.
  induction order as [|p order IH]; intros r l; [done|].
  cbn [assignRanks]. by rewrite IH, length_alter.
Qed.

Lemma assignRanks_untouched order : ∀ r l pos,
  pos ∉ order → assignRanks r order l !! pos = l !! pos.
Proof.
  induction order as [|p order IH]; intros r l pos Hnot; [done|].
  apply not_elem_of_cons in Hnot as [Hne Hnot].
  cbn [assignRanks]. rewrite IH by done.
  by apply list_lookup_alter_ne.
Qed.

(** Read back through the references, the images carry their ranks. *)
Lemma assignRanks_ranks order : ∀ r l,
  NoDup order → (∀ pos, pos ∈ order → (pos < length l)%nat) →
  zIndexAt (assignRanks r order l) <$> order = Z2Q <$> seq r (length order).
Proof.
  induction order as [|p order IH]; intros r l Hnd Hlt; [done|].
  apply NoDup_cons in Hnd as [Hp Hnd].
  cbn [assignRanks fmap list_fmap length seq]. f_equal.
  - unfold zIndexAt. rewrite assignRanks_untouched by done.
    rewrite list_lookup_alter_eq.
    destruct (lookup_lt_is_Some_2 l p) as [x ->]; [apply Hlt; left|]. done.
  - apply IH; [done|]. intros pos Hpos. rewrite length_alter.
    apply Hlt. by right.
Qed.

Lemma zIndex_by_position l :
  img_zIndex <$> l = zIndexAt l <$> seq 0 (length l).
Proof.
  apply list_eq. intros i. rewrite !list_lookup_fmap.
  destruct (decide (i < length l)%nat) as [Hi|Hi].
  - rewrite lookup_seq_lt by done. cbn. unfold zIndexAt.
    by destruct (lookup_lt_is_Some_2 l i Hi) as [x ->].
  - rewrite lookup_seq_ge, lookup_ge_None_2 by lia. done.
Qed.

(** The renormalisation of [REORDER_LAYER] yields dense values whatever it
    starts from. *)
Lemma dense_normalizeZIndex l : dense (normalizeZIndex l).
Proof.
  unfold dense, normalizeZIndex.
  pose proof (sortedPositions_Permutation l) as Hperm.
  rewrite zIndex_by_position, !length_assignRanks.
  rewrite <- Hperm at 1.
  rewrite assignRanks_ranks.
  - by rewrite (Permutation_length Hperm), length_seq.
  - rewrite Hperm. apply NoDup_seq.
  - intros pos Hpos. rewrite Hperm in Hpos. apply elem_of_seq in Hpos. lia.
Qed.

Lemma length_reorderImages k t z l : length (reorderImages k t z l) = length l.
Proof.
  unfold reorderImages, normalizeZIndex.
  by rewrite length_assignRanks, length_fmap, length_alter.
Qed.

Lemma dense_reorderImages k t z l : dense (reorderImages k t z l).
Proof. apply dense_normalizeZIndex. Qed.

Lemma dense_renumberByPosition l : dense (renumberByPosition l).
Proof.
  unfold dense, renumberByPosition. rewrite length_imap, fmap_imap.
  rewrite (imap_ext _ (λ pos _, Z2Q pos) l) by done.
  by rewrite (imap_seq_0 l Z2Q).
Qed.

Lemma dense_nil : dense [].
Proof. unfold dense. cbn. done. Qed.

Lemma dense_snoc l x :
  dense l → img_zIndex x = Z2Q (length l) → dense (l ++ [x]).
Proof.
  unfold dense. intros Hd Hx.
  rewrite fmap_app, length_app, seq_app, fmap_app. cbn.
  by rewrite Hd, Hx.
Qed.

Lemma dense_alter f k (l : list ImageItem) :
  (∀ x, img_zIndex (f x) = img_zIndex x) → dense l → dense (alter f k l).
Proof.
  intros Hf. unfold dense. rewrite length_alter.
  rewrite (list_fmap_alter img_zIndex f (λ x, x)).
  - by rewrite list_alter_id.
  - apply Forall_forall. intros x _. apply Hf.
Qed.

Lemma layersDense_push st s :
  layersDense s → dense (step_images st) → layersDense (pushHistory st s).
Proof.
  intros [Hi Hh] Hst. split; [done|].
  rewrite history_pushHistory. apply Forall_app. split.
  - unfold slice0. by apply Forall_take.
  - by apply Forall_singleton.
Qed.

Lemma layersDense_cap s : layersDense s → layersDense (capHistory s).
Proof.
  intros [Hi Hh]. unfold capHistory. destruct (100 <? _); [|done].
  split; [done|]. cbn. by apply Forall_drop.
Qed.

Lemma layersDense_images l s :
  layersDense s → dense l → layersDense (with_images l s).
Proof. intros [_ Hh] Hl. by split. Qed.

Lemma layersDense_at_index s i st :
  layersDense s → at_index (history s) i = Some st →
  layersDense (with_images (step_images st) (with_history (history s) i s)).
Proof.
  intros [Hi Hh] Hst. apply at_index_Some in Hst as [_ Hst].
  split; [|done]. cbn. by eapply (Forall_lookup_1 _ _ _ _ Hh).
Qed.

(** One dispatch admitted by [keepsLayers] keeps everything dense. *)
Lemma layersDense_step e s a s' :
  keepsLayers s a = true → imageReducer e s a = Some s' →
  layersDense s → layersDense s'.
Proof.
  intros Hok Hred Hinv. pose proof Hinv as [Hd Hh].
  destruct a; cbn [keepsLayers] in Hok; try discriminate;
    cbn [imageReducer] in Hred;
    try (injection Hred as <-; exact Hinv).
  - (* ADD_IMAGE *)
    destruct (isDuplicate e payload (images s)); injection Hred as <-; [done|].
    apply layersDense_cap, layersDense_push; cbn.
    + split; [|done]. by apply dense_snoc.
    + by apply dense_snoc.
  - (* DELETE_IMAGE *)
    destruct (findIndex payload (images s)) as [k|]; injection Hred as <-;
      [|done].
    apply layersDense_push; cbn.
    + split; [|by destruct (decide _)]. apply dense_renumberByPosition.
    + apply dense_renumberByPosition.
  - (* UPDATE_IMAGE *)
    destruct (upd_zIndex updates) eqn:Hu; [done|].
    destruct (findIndex id (images s)) as [k|]; injection Hred as <-; [|done].
    apply layersDense_images; [done|]. apply dense_alter; [|done].
    intros x. unfold assignImage. cbn. by rewrite Hu.
  - (* UNDO *)
    destruct (0 <? historyIndex s); [|by injection Hred as <-].
    destruct (at_index (history s) (historyIndex s - 1)) as [st|] eqn:Hst;
      [|done].
    injection Hred as <-. by apply layersDense_at_index.
  - (* REDO *)
    destruct (historyIndex s <? _); [|by injection Hred as <-].
    destruct (at_index (history s) (historyIndex s + 1)) as [st|] eqn:Hst;
      [|done].
    injection Hred as <-. by apply layersDense_at_index.
  - (* ADD_HISTORY_STEP *)
    injection Hred as <-. by apply layersDense_cap, layersDense_push.
  - (* APPLY_CROP *)
    injection Hred as <-.
    destruct (crop_imageId (cropState s)) as [t|]; [|done].
    destruct (crop_selection (cropState s)) as [sel|]; [|done].
    destruct (findIndex t (images s)) as [k|]; [|done].
    assert (dense (alter (applySelection sel) k (images s)))
      by (apply dense_alter; [by intros []|done]).
    by apply (layersDense_push _ (with_images _ s)).
  - (* REORDER_LAYER *)
    destruct (findIndex imageId (images s)) as [k|]; injection Hred as <-;
      [|done].
    apply layersDense_cap, layersDense_push; cbn.
    + split; [|done]. apply dense_reorderImages.
    + apply dense_reorderImages.
  - (* TOGGLE_LAYER_VISIBILITY *)
    destruct (findIndex payload (images s)) as [k|]; injection Hred as <-;
      [|done].
    assert (dense (alter (λ img, set_visible (negb (img_visible img)) img) k
                     (images s)))
      by (apply dense_alter; [by intros []|done]).
    by apply (layersDense_push _ (with_images _ s)).
  - (* RESET_STATE *)
    injection Hred as <-. split; [apply dense_nil | constructor].
Qed.

(** C2, as the code has it.  In every state reached from the initial
    document by dispatches other than [LOAD_STATE] and in which no
    [UPDATE_IMAGE] writes a [zIndex], the zIndex values of the [N] images
    are 0, 1, ..., N-1, each once.  [UPDATE_IMAGE] merges whatever fields it
    is given, [zIndex] included, without renumbering. *)
Theorem zindex_dense_when_not_overwritten s :
  reachableBy keepsLayers s → dense (images s).
Proof.
  intros Hreach. enough (layersDense s) as [? _] by done.
  induction Hreach as [|e s a s' _ IH Hok Hred].
  - split; [apply dense_nil | constructor].
  - by eapply layersDense_step.
Qed.

(** [A], [B], [C] added and [A] raised: the layers are a permutation of
    0, 1, 2. *)
Lemma zindex_dense_when_not_overwritten_witness :
  layerTable (images docABC_raised) = [("a", 2%Q); ("b", 0%Q); ("c", 1%Q)]
  ∧ dense (images docABC_raised).
Proof.
  split; [by vm_compute|].
  apply (zindex_dense_when_not_overwritten docABC_raised).
  apply (reach_step keepsLayers (envAt 4000 idA) docABC (REORDER_LAYER idA 2));
    [|reflexivity | vm_compute; reflexivity].
  apply (reach_step keepsLayers (envAt 3000 idC) docAB (ADD_IMAGE sampleC));
    [|reflexivity | vm_compute; reflexivity].
  apply (reach_step keepsLayers (envAt 2000 idB) docA (ADD_IMAGE sampleB));
    [|reflexivity | vm_compute; reflexivity].
  apply (reach_step keepsLayers (envAt 1000 idA) initialState
           (ADD_IMAGE sampleA)); [|reflexivity | vm_compute; reflexivity].
  apply reach_init.
Defined.

(** [UPDATE_IMAGE] with a [zIndex] in its updates: the only image of the
    document ends up on layer 7. *)
Lemma update_image_overwrites_zindex :
  reachableBy anyAction docA_relayered
  ∧ layerTable (images docA_relayered) = [("a", 7%Q)]
  ∧ ¬ dense (images docA_relayered).
Proof.
  split; [|split; [by vm_compute|]].
  - apply (reach_step anyAction (envAt 1200 idA) docA
             (UPDATE_IMAGE idA (onlyZIndex 7))); [|reflexivity..].
    apply (reach_step anyAction (envAt 1000 idA) initialState
             (ADD_IMAGE sampleA)); [|reflexivity..].
    apply reach_init.
  - unfold dense. vm_compute.
    intros Hp. apply Permutation_singleton_inj in Hp. discriminate.
Qed.

(** ** Comparisons of rationals *)

Lemma Qltb_true a b : Qltb a b = true ↔ (a < b)%Q.
Proof.
  unfold Qltb. rewrite negb_true_iff, <- not_true_iff_false, Qle_bool_iff.
  split; [apply Qnot_le_lt | apply Qlt_not_le].
Qed.

Lemma Qltb_false a b : Qltb a b = false ↔ (b <= a)%Q.
Proof. unfold Qltb. by rewrite negb_false_iff, Qle_bool_iff. Qed.

(** ** Order on binary64 numbers *)


Lemma SFcompare_antisym a b c :
  SFcompare a b = Some c → SFcompare b a = Some (CompOpp c).
Proof.
  destruct a as [sa|sa| |sa ma ea], b as [sb|sb| |sb mb eb]; cbn;
    try (intros [= <-]; by repeat case_match).
  intros [= <-]. f_equal.
  assert (Em : Pos.compare_cont Eq mb ma = CompOpp (Pos.compare_cont Eq ma mb))
    by (symmetry; apply (Pos.compare_cont_antisym ma mb Eq)).
  rewrite (Z.compare_antisym ea eb), Em.
  destruct sa, sb, (ea ?= eb)%Z; cbn; try done;
    by destruct (Pos.compare_cont Eq ma mb).
Qed.

Section DoubleOrder.

Local Open Scope float_scope.

Lemma ltb_asym a b : (a <? b) = true → (b <? a) = false.
Proof.
  intros H. rewrite FloatAxioms.ltb_spec in H |- *. unfold SFltb in *.
  destruct (SFcompare (Prim2SF a) (Prim2SF b)) as [c|] eqn:Hc; [|done].
  rewrite (SFcompare_antisym _ _ _ Hc). by destruct c.
Qed.

Lemma ltb_irrefl a : (a <? a) = false.
Proof.
  destruct (a <? a) eqn:H; [|done].
  by rewrite (ltb_asym _ _ H) in H.
Qed.




Lemma ltb_nan_l a : (nan <? a) = false.
Proof. rewrite FloatAxioms.ltb_spec. reflexivity. Qed.

(** [Math.max(c, v)] is never below [c]. *)
Lemma mathMax_not_below c v : (Doubles.mathMax c v <? c) = false.
Proof.
  unfold Doubles.mathMax.
  destruct (is_nan c || is_nan v); [apply ltb_nan_l|].
  destruct (c <? v) eqn:H1; [by apply ltb_asym|].
  destruct (v <? c) eqn:H2; [apply ltb_irrefl|].
  destruct (is_zero c && get_sign c); [done | apply ltb_irrefl].
Qed.


End DoubleOrder.

(** ** Resize anchors *)

Section ResizeAnchors.

Import Doubles.
Local Open Scope float_scope.








End ResizeAnchors.

(** * Further properties of the reducer *)

Lemma found_false_findIndex i l : found i l = false → findIndex i l = None.
Proof. unfold found. by destruct (findIndex i l). Qed.

(** X1. An action that names an image which is not in the collection is
    ignored: [DELETE_IMAGE], [UPDATE_IMAGE], [REORDER_LAYER] and
    [TOGGLE_LAYER_VISIBILITY] all return the state they were given. *)
Theorem unknown_id_is_ignored e s i updates newZIndex :
  found i (images s) = false →
  imageReducer e s (DELETE_IMAGE i) = Some s
  ∧ imageReducer e s (UPDATE_IMAGE i updates) = Some s
  ∧ imageReducer e s (REORDER_LAYER i newZIndex) = Some s
  ∧ imageReducer e s (TOGGLE_LAYER_VISIBILITY i) = Some s.
Proof.
  intros Hf%found_false_findIndex. cbn [imageReducer]. by rewrite Hf.
Qed.

Lemma unknown_id_is_ignored_witness :
  imageReducer (envAt 1300 idB) docA (DELETE_IMAGE idB) = Some docA
  ∧ imageReducer (envAt 1300 idB) docA (UPDATE_IMAGE idB (onlyZIndex 7))
    = Some docA
  ∧ imageReducer (envAt 1300 idB) docA (REORDER_LAYER idB 3) = Some docA
  ∧ imageReducer (envAt 1300 idB) docA (TOGGLE_LAYER_VISIBILITY idB)
    = Some docA.
Proof.
  apply (unknown_id_is_ignored (envAt 1300 idB) docA idB (onlyZIndex 7) 3).
  reflexivity.
Defined.

Lemma cursorInRange_step e s a s' :
  noLoad s a = true → imageReducer e s a = Some s' →
  cursorInRange s → cursorInRange s'.
Proof.
  unfold cursorInRange. intros Hok Hred Hr.
  destruct (isEditAction a) eqn:Hedit.
  - destruct (appendsStep e s a) eqn:Hg.
    + destruct (appending_dispatch e s a Hg) as (s1 & st & Hred1 & _ & Hh & Hc).
      rewrite Hred in Hred1. injection Hred1 as <-.
      assert (0 < length (history s'))%nat; [|lia].
      destruct Hh as [-> | [Hover ->]].
      * rewrite length_app. cbn. lia.
      * rewrite length_drop. lia.
    + destruct (non_appending_edit e s a Hedit Hg) as (s1 & Hred1 & _ & Hh & Hi).
      rewrite Hred in Hred1. injection Hred1 as <-. by rewrite Hh, Hi.
  - destruct a; try discriminate; cbn [imageReducer] in Hred.
    + destruct (findIndex id (images s)); by injection Hred as <-.
    + destruct (0 <? historyIndex s) eqn:Hpos; [|by injection Hred as <-].
      apply Z.ltb_lt in Hpos.
      destruct (at_index (history s) (historyIndex s - 1)); [|done].
      injection Hred as <-. cbn. lia.
    + destruct (historyIndex s <? _) eqn:Hlt; [|by injection Hred as <-].
      apply Z.ltb_lt in Hlt.
      destruct (at_index (history s) (historyIndex s + 1)); [|done].
      injection Hred as <-. cbn. lia.
    + injection Hred as <-. cbn. lia.
Qed.

Lemma reducer_returns_in_range e s a :
  cursorInRange s → is_Some (imageReducer e s a).
Proof.
  intros Hr. unfold cursorInRange in Hr.
  destruct a; cbn [imageReducer]; try done; try (by repeat case_match).
  - (* UNDO *)
    destruct (0 <? historyIndex s) eqn:Hpos; [|done]. apply Z.ltb_lt in Hpos.
    destruct (at_index_in_range (history s) (historyIndex s - 1)) as [st ->];
      [lia | done].
  - (* REDO *)
    destruct (historyIndex s <? _) eqn:Hlt; [|done]. apply Z.ltb_lt in Hlt.
    destruct (at_index_in_range (history s) (historyIndex s + 1)) as [st ->];
      [lia | done].
Qed.

(** X2. In every state reached from the initial document without
    [LOAD_STATE] the cursor is -1 or the index of a history step, and no
    dispatch throws: the lookups of [UNDO] and [REDO] always find their
    step. *)
Theorem reducer_never_throws s :
  reachableBy noLoad s →
  cursorInRange s ∧ ∀ e a, is_Some (imageReducer e s a).
Proof.
  intros Hreach.
  assert (Hr : cursorInRange s).
  { induction Hreach as [|e s a s' _ IH Hok Hred]; [by vm_compute|].
    by eapply cursorInRange_step. }
  split; [done|]. intros e a. by apply reducer_returns_in_range.
Qed.

Lemma reducer_never_throws_witness :
  cursorInRange docAB_undone
  ∧ ∀ e a, is_Some (imageReducer e docAB_undone a).
Proof.
  apply (reducer_never_throws docAB_undone).
  apply (reach_step noLoad (envAt 2500 idB) docAB UNDO); [|reflexivity..].
  apply (reach_step noLoad (envAt 2000 idB) docA (ADD_IMAGE sampleB));
    [|reflexivity..].
  apply (reach_step noLoad (envAt 1000 idA) initialState (ADD_IMAGE sampleA));
    [|reflexivity..].
  apply reach_init.
Defined.

Lemma length_cap_push st s :
  (length (history s) ≤ 100)%nat →
  (length (history (capHistory (pushHistory st s))) ≤ 100)%nat.
Proof.
  intros Hlen. unfold capHistory.
  pose proof (length_slice0 (history s) (historyIndex s + 1)) as Hs.
  destruct (100 <? _) eqn:Hover.
  - cbn. rewrite length_drop, length_app. cbn. lia.
  - apply Z.ltb_ge in Hover. lia.
Qed.

(** X3. As long as the steps are pushed by [ADD_IMAGE], [REORDER_LAYER]
    and [ADD_HISTORY_STEP] (no [DELETE_IMAGE], [TOGGLE_LAYER_VISIBILITY],
    [APPLY_CROP] or [LOAD_STATE] is dispatched), the history never holds
    more than 100 steps. *)
Theorem history_capped_at_100 s :
  reachableBy cappedOnly s → (length (history s) ≤ 100)%nat.
Proof.
  intros Hreach. induction Hreach as [|e s a s' _ IH Hok Hred]; [cbn; lia|].
  destruct a; cbn [cappedOnly] in Hok; try discriminate;
    cbn [imageReducer] in Hred;
    try (injection Hred as <-; exact IH).
  - destruct (isDuplicate e payload (images s)); injection Hred as <-; [done|].
    by apply length_cap_push.
  - destruct (findIndex id (images s)); by injection Hred as <-.
  - destruct (0 <? historyIndex s); [|by injection Hred as <-].
    destruct (at_index _ _); [|done]. by injection Hred as <-.
  - destruct (historyIndex s <? _); [|by injection Hred as <-].
    destruct (at_index _ _); [|done]. by injection Hred as <-.
  - injection Hred as <-. by apply length_cap_push.
  - destruct (findIndex imageId (images s)); injection Hred as <-; [|done].
    by apply length_cap_push.
  - injection Hred as <-. cbn. lia.
Qed.

Lemma history_capped_at_100_witness :
  (length (history docAB_undone) ≤ 100)%nat.
Proof.
  apply (history_capped_at_100 docAB_undone).
  apply (reach_step cappedOnly (envAt 2500 idB) docAB UNDO); [|reflexivity..].
  apply (reach_step cappedOnly (envAt 2000 idB) docA (ADD_IMAGE sampleB));
    [|reflexivity..].
  apply (reach_step cappedOnly (envAt 1000 idA) initialState
           (ADD_IMAGE sampleA)); [|reflexivity..].
  apply reach_init.
Defined.

(** X4. Eviction is first-in first-out.  With the cursor on the last of
    at least 100 steps, an explicit checkpoint drops the oldest step, keeps
    the others in their order, puts the new snapshot last and leaves the
    cursor on it; the collection is not touched. *)
Theorem checkpoint_evicts_oldest e s action description :
  (100 ≤ length (history s))%nat →
  historyIndex s = Z.of_nat (length (history s)) - 1 →
  ∃ s',
    imageReducer e s (ADD_HISTORY_STEP action description) = Some s'
    ∧ history s'
      = drop 1 (history s)
        ++ [createHistoryStep e action description (images s)]
    ∧ historyIndex s' = Z.of_nat (length (history s)) - 1
    ∧ images s' = images s.
Proof.
  intros Hlen Hc. eexists. split; [reflexivity|].
  unfold capHistory. rewrite history_pushHistory, Hc, slice0_all.
  destruct (100 <? _) eqn:Hover.
  - cbn. rewrite Hc, slice0_all, length_app. cbn.
    split; [|split; [lia | done]].
    destruct (history s); [cbn in Hlen; lia | done].
  - apply Z.ltb_ge in Hover. rewrite length_app in Hover. cbn in Hover. lia.
Qed.

Lemma checkpoint_evicts_oldest_witness :
  length (history docA_full) = 100%nat
  ∧ ∃ s',
      imageReducer (envAt 6000 idA) docA_full
        (ADD_HISTORY_STEP resize_image "resize") = Some s'
      ∧ history s'
        = drop 1 (history docA_full)
          ++ [createHistoryStep (envAt 6000 idA) resize_image "resize"
                (images docA_full)]
      ∧ historyIndex s' = Z.of_nat (length (history docA_full)) - 1
      ∧ images s' = images docA_full.
Proof.
  split; [by vm_compute|].
  apply (checkpoint_evicts_oldest (envAt 6000 idA) docA_full
           resize_image "resize").
  - vm_compute. lia.
  - by vm_compute.
Defined.




(** ** Documents whose layers were never reordered *)

Lemma inArrayOrder_lookup l j x :
  inArrayOrder l → l !! j = Some x → img_zIndex x = Z2Q j.
Proof.
  intros Ho Hj. apply (f_equal (λ zs, zs !! j)) in Ho.
  rewrite !list_lookup_fmap, Hj in Ho.
  rewrite lookup_seq_lt in Ho by (by eapply lookup_lt_Some). cbn in Ho.
  by injection Ho.
Qed.

Lemma inArrayOrder_renumberByPosition l : inArrayOrder (renumberByPosition l).
Proof.
  unfold inArrayOrder, renumberByPosition. rewrite length_imap, fmap_imap.
  rewrite (imap_ext _ (λ pos _, Z2Q pos) l) by done.
  by rewrite (imap_seq_0 l Z2Q).
Qed.

Lemma inArrayOrder_snoc l x :
  inArrayOrder l → img_zIndex x = Z2Q (length l) → inArrayOrder (l ++ [x]).
Proof.
  unfold inArrayOrder. intros Ho Hx.
  rewrite fmap_app, length_app, seq_app, fmap_app. cbn. by rewrite Ho, Hx.
Qed.

Lemma inArrayOrder_alter f k (l : list ImageItem) :
  (∀ x, img_zIndex (f x) = img_zIndex x) →
  inArrayOrder l → inArrayOrder (alter f k l).
Proof.
  intros Hf. unfold inArrayOrder. rewrite length_alter.
  rewrite (list_fmap_alter img_zIndex f (λ x, x)).
  - by rewrite list_alter_id.
  - apply Forall_forall. intros x _. apply Hf.
Qed.

Lemma allInArrayOrder_push st s :
  allInArrayOrder s → inArrayOrder (step_images st) →
  allInArrayOrder (pushHistory st s).
Proof.
  intros [Hi Hh] Hst. split; [done|].
  rewrite history_pushHistory. apply Forall_app. split.
  - unfold slice0. by apply Forall_take.
  - by apply Forall_singleton.
Qed.

Lemma allInArrayOrder_cap s : allInArrayOrder s → allInArrayOrder (capHistory s).
Proof.
  intros [Hi Hh]. unfold capHistory. destruct (100 <? _); [|done].
  split; [done|]. cbn. by apply Forall_drop.
Qed.

Lemma allInArrayOrder_at_index s i st :
  allInArrayOrder s → at_index (history s) i = Some st →
  allInArrayOrder (with_images (step_images st) (with_history (history s) i s)).
Proof.
  intros [Hi Hh] Hst. apply at_index_Some in Hst as [_ Hst].
  split; [|done]. cbn. by eapply (Forall_lookup_1 _ _ _ _ Hh).
Qed.

Lemma allInArrayOrder_step e s a s' :
  keepsArrayOrder s a = true → imageReducer e s a = Some s' →
  allInArrayOrder s → allInArrayOrder s'.
Proof.
  intros Hok Hred Hinv. pose proof Hinv as [Hd Hh].
  destruct a; cbn [keepsArrayOrder] in Hok; try discriminate;
    cbn [imageReducer] in Hred;
    try (injection Hred as <-; exact Hinv).
  - (* ADD_IMAGE *)
    destruct (isDuplicate e payload (images s)); injection Hred as <-; [done|].
    apply allInArrayOrder_cap, allInArrayOrder_push; cbn.
    + split; [|done]. by apply inArrayOrder_snoc.
    + by apply inArrayOrder_snoc.
  - (* DELETE_IMAGE *)
    destruct (findIndex payload (images s)) as [k|]; injection Hred as <-;
      [|done].
    apply allInArrayOrder_push; cbn.
    + split; [|by destruct (decide _)]. apply inArrayOrder_renumberByPosition.
    + apply inArrayOrder_renumberByPosition.
  - (* UPDATE_IMAGE *)
    destruct (upd_zIndex updates) eqn:Hu; [done|].
    destruct (findIndex id (images s)) as [k|]; injection Hred as <-; [|done].
    split; [|done]. cbn. apply inArrayOrder_alter; [|done].
    intros x. unfold assignImage. cbn. by rewrite Hu.
  - (* UNDO *)
    destruct (0 <? historyIndex s); [|by injection Hred as <-].
    destruct (at_index (history s) (historyIndex s - 1)) as [st|] eqn:Hst;
      [|done].
    injection Hred as <-. by apply allInArrayOrder_at_index.
  - (* REDO *)
    destruct (historyIndex s <? _); [|by injection Hred as <-].
    destruct (at_index (history s) (historyIndex s + 1)) as [st|] eqn:Hst;
      [|done].
    injection Hred as <-. by apply allInArrayOrder_at_index.
  - (* ADD_HISTORY_STEP *)
    injection Hred as <-. by apply allInArrayOrder_cap, allInArrayOrder_push.
  - (* APPLY_CROP *)
    injection Hred as <-.
    destruct (crop_imageId (cropState s)) as [t|]; [|done].
    destruct (crop_selection (cropState s)) as [sel|]; [|done].
    destruct (findIndex t (images s)) as [k|]; [|done].
    assert (inArrayOrder (alter (applySelection sel) k (images s)))
      by (apply inArrayOrder_alter; [by intros []|done]).
    by apply (allInArrayOrder_push _ (with_images _ s)).
  - (* TOGGLE_LAYER_VISIBILITY *)
    destruct (findIndex payload (images s)) as [k|]; injection Hred as <-;
      [|done].
    assert (inArrayOrder
              (alter (λ img, set_visible (negb (img_visible img)) img) k
                 (images s)))
      by (apply inArrayOrder_alter; [by intros []|done]).
    by apply (allInArrayOrder_push _ (with_images _ s)).
  - (* RESET_STATE *)
    injection Hred as <-. split; [done | constructor].
Qed.

(** X6. Until a layer is reordered, layers follow array order: in every
    state reached without [REORDER_LAYER], without [LOAD_STATE] and
    without an [UPDATE_IMAGE] that writes a [zIndex], each image's zIndex
    is its position in the collection, also after undo and redo. *)
Theorem layers_follow_array_order s :
  reachableBy keepsArrayOrder s →
  ∀ pos image, images s !! pos = Some image → img_zIndex image = Z2Q pos.
Proof.
  intros Hreach.
  enough (allInArrayOrder s) as [Ho _]
    by (intros pos image; by apply inArrayOrder_lookup).
  induction Hreach as [|e s a s' _ IH Hok Hred].
  - split; [done | constructor].
  - by eapply allInArrayOrder_step.
Qed.

Lemma layers_follow_array_order_witness :
  img_zIndex (imageAt docAB_undone 0) = Z2Q 0.
Proof.
  apply (layers_follow_array_order docAB_undone); [|reflexivity].
  apply (reach_step keepsArrayOrder (envAt 2500 idB) docAB UNDO);
    [|reflexivity..].
  apply (reach_step keepsArrayOrder (envAt 2000 idB) docA (ADD_IMAGE sampleB));
    [|reflexivity..].
  apply (reach_step keepsArrayOrder (envAt 1000 idA) initialState
           (ADD_IMAGE sampleA)); [|reflexivity..].
  apply reach_init.
Defined.

(** X7. In a collection that is in array order, [DELETE_IMAGE] removes the
    first image carrying the id, leaves the images before it exactly as
    they were and moves each image after it down by one layer (its zIndex
    goes from its old position to the position before), changing nothing
    else in it; the result is again in array order and a non-matching
    selection is kept. *)
Theorem delete_in_array_order e s i k :
  inArrayOrder (images s) →
  findIndex i (images s) = Some k →
  ∃ s',
    imageReducer e s (DELETE_IMAGE i) = Some s'
    ∧ length (images s') = pred (length (images s))
    ∧ inArrayOrder (images s')
    ∧ (∀ j x, images s !! j = Some x → (j < k)%nat →
              images s' !! j = Some x)
    ∧ (∀ j x, images s !! j = Some x → (k < j)%nat →
              img_zIndex x = Z2Q j
              ∧ images s' !! pred j = Some (set_zIndex (Z2Q (pred j)) x))
    ∧ (selectedImageId s ≠ Some i → selectedImageId s' = selectedImageId s).
Proof.
  intros Ho Hk. eexists. split; [cbn [imageReducer]; rewrite Hk; reflexivity|].
  rewrite images_pushHistory. cbn [images with_images].
  assert (Himgs : ∀ s0, images (if decide (selectedImageId (with_images
                    (delete k (images s)) s) = Some i)
                  then with_selected None s0 else s0) = images s0)
    by (intros s0; by destruct (decide _)).
  rewrite Himgs. cbn [images with_images].
  apply findIndex_Some in Hk as (y & Hy & _).
  split; [|split; [apply inArrayOrder_renumberByPosition|split; [|split]]].
  - unfold renumberByPosition. rewrite length_imap, length_delete by eauto.
    lia.
  - intros j x Hj Hlt. unfold renumberByPosition.
    rewrite list_lookup_imap, list_lookup_delete_lt, Hj by done. cbn.
    f_equal. pose proof (inArrayOrder_lookup _ _ _ Ho Hj) as Hz.
    destruct x. cbn in *. by subst.
  - intros j x Hj Hlt. split; [by eapply inArrayOrder_lookup|].
    unfold renumberByPosition.
    rewrite list_lookup_imap, list_lookup_delete_ge by lia.
    replace (S (pred j)) with j by lia. by rewrite Hj.
  - intros Hsel. cbn. destruct (decide _) as [Heq|]; [|done].
    cbn in Heq. done.
Qed.

(** [A], [B], [C] added in that order, then [A] deleted: [B] and [C] move
    down to layers 0 and 1. *)
Lemma delete_in_array_order_witness :
  ∃ s',
    imageReducer (envAt 4000 idA) docABC (DELETE_IMAGE idA) = Some s'
    ∧ length (images s') = 2%nat
    ∧ layerTable (images s') = [("b", 0%Q); ("c", 1%Q)].
Proof.
  destruct (delete_in_array_order (envAt 4000 idA) docABC idA 0)
    as (s' & Hred & Hlen & _); [by vm_compute | by vm_compute |].
  exists s'. split; [exact Hred|]. split; [exact Hlen|].
  vm_compute in Hred. injection Hred as <-. by vm_compute.
Defined.

(** * Stacking order *)

Lemma below_trans a b c : below a b → below b c → below a c.
Proof.
  unfold below. intros [Hab | [Hab Hpab]] [Hbc | [Hbc Hpbc]].
  - left. lra.
  - left. lra.
  - left. lra.
  - right. split; [lra | lia].
Qed.

Lemma below_irrefl a : ¬ below a a.
Proof. unfold below. intros [H | [_ H]]; [lra | lia]. Qed.

Lemma insertByZ_below p l :
  (∀ q, q ∈ l → (p.1 < q.1)%nat) →
  StronglySorted below l → StronglySorted below (insertByZ p l).
Proof.
  intros Hpos Hs. induction Hs as [|q l Hs IH Hq]; cbn.
  - by repeat constructor.
  - assert (Hpq : (p.1 < q.1)%nat) by (apply Hpos; left).
    destruct (Qle_bool p.2 q.2) eqn:Hle.
    + apply Qle_bool_iff in Hle.
      assert (Hbelow : below p q).
      { unfold below. destruct (Qlt_le_dec p.2 q.2); [by left|].
        right. split; [lra | done]. }
      constructor; [by constructor|]. constructor; [done|].
      rewrite Forall_forall in Hq |- *. intros r Hr.
      eapply below_trans; [exact Hbelow | by apply Hq].
    + assert (Hlt : (q.2 < p.2)%Q).
      { apply Qnot_le_lt. intros Hc%Qle_bool_iff. congruence. }
      constructor.
      * apply IH. intros r Hr. apply Hpos. by right.
      * rewrite Forall_forall in Hq |- *. intros r Hr.
        rewrite insertByZ_Permutation in Hr.
        apply elem_of_cons in Hr as [-> | Hr]; [by left | by apply Hq].
Qed.

Lemma layerKeys_from_positions (f : nat → nat) l q :
  q ∈ imap (λ pos img, (f pos, img_zIndex img)) l →
  ∃ pos img, l !! pos = Some img ∧ q = (f pos, img_zIndex img).
Proof.
  intros (pos & img & -> & Hl)%elem_of_lookup_imap. eauto.
Qed.

(** The sort is stable: it orders by zIndex and, among equal values, by
    array position. *)
Lemma sortByZ_shifted_below (k : nat) l :
  StronglySorted below
    (sortByZ (imap (λ pos img, ((k + pos)%nat, img_zIndex img)) l)).
Proof.
  revert k. induction l as [|x l IH]; intros k; [constructor|].
  cbn [imap sortByZ foldr]. apply insertByZ_below.
  - intros q Hq. unfold sortByZ in Hq. fold (sortByZ (imap ((λ pos img, ((k + pos)%nat, img_zIndex img)) ∘ S) l)) in Hq.
    rewrite sortByZ_Permutation in Hq.
    apply elem_of_lookup_imap in Hq as (pos & img & -> & _). cbn. lia.
  - rewrite (imap_ext _ (λ pos img, ((S k + pos)%nat, img_zIndex img)) l).
    + apply IH.
    + intros pos img _. cbn. f_equal. lia.
Qed.

Lemma sortByZ_below l : StronglySorted below (sortByZ (layerKeys l)).
Proof. apply (sortByZ_shifted_below 0). Qed.

Lemma StronglySorted_lookup {A} (R : A → A → Prop) l i j a b :
  StronglySorted R l → (i < j)%nat → l !! i = Some a → l !! j = Some b → R a b.
Proof.
  intros Hs. revert i j. induction Hs as [|x l Hs IH Hx]; intros i j Hij Hi Hj.
  - done.
  - destruct j as [|j]; [lia|]. destruct i as [|i]; cbn in *.
    + injection Hi as <-. rewrite Forall_forall in Hx. apply Hx.
      by eapply list_elem_of_lookup_2.
    + apply (IH i j); [lia | done..].
Qed.

Lemma sorted_keys_lookup l i pos z :
  sortByZ (layerKeys l) !! i = Some (pos, z) →
  ∃ img, l !! pos = Some img ∧ z = img_zIndex img.
Proof.
  intros Hi%list_elem_of_lookup_2. rewrite sortByZ_Permutation in Hi.
  apply elem_of_lookup_imap in Hi as (pos' & img & [= -> ->] & Hl). eauto.
Qed.

Lemma sorted_keys_index l pos img :
  l !! pos = Some img →
  ∃ i, sortByZ (layerKeys l) !! i = Some (pos, img_zIndex img).
Proof.
  intros Hl. apply list_elem_of_lookup. rewrite sortByZ_Permutation.
  apply elem_of_lookup_imap. eauto.
Qed.

Lemma length_sorted_keys l : length (sortByZ (layerKeys l)) = length l.
Proof.
  rewrite (Permutation_length (sortByZ_Permutation _)).
  unfold layerKeys. apply length_imap.
Qed.

(** The image whose key is at index [i] of the sorted copy gets layer [i]. *)
Lemma normalize_rank l i pos z :
  sortByZ (layerKeys l) !! i = Some (pos, z) →
  zIndexAt (normalizeZIndex l) pos = Z2Q i.
Proof.
  intros Hi. unfold normalizeZIndex.
  pose proof (sortedPositions_Permutation l) as Hperm.
  assert (Hranks := assignRanks_ranks (sortedPositions l) 0 l).
  apply (f_equal (λ zs, zs !! i)) in Hranks.
  - rewrite !list_lookup_fmap in Hranks.
    unfold sortedPositions in Hranks at 2. rewrite list_lookup_fmap in Hranks.
    fold (layerKeys l) in Hranks. rewrite Hi in Hranks. cbn in Hranks.
    rewrite lookup_seq_lt in Hranks.
    + cbn in Hranks. by injection Hranks.
    + rewrite (Permutation_length Hperm), length_seq.
      rewrite <- length_sorted_keys. by eapply lookup_lt_Some.
  - rewrite Hperm. apply NoDup_seq.
  - intros p Hp. rewrite Hperm in Hp. apply elem_of_seq in Hp. lia.
Qed.

(** Renormalising writes zIndex and nothing else. *)
Lemma assignRanks_fields order : ∀ r l pos x,
  l !! pos = Some x →
  ∃ z, assignRanks r order l !! pos = Some (set_zIndex z x).
Proof.
  induction order as [|p order IH]; intros r l pos x Hx.
  - exists (img_zIndex x). cbn. rewrite Hx. by destruct x.
  - cbn [assignRanks]. destruct (decide (p = pos)) as [->|Hne].
    + destruct (IH (S r) (alter (set_zIndex (Z2Q r)) pos l) pos
                  (set_zIndex (Z2Q r) x)) as [z Hz].
      { by rewrite list_lookup_alter_eq, Hx. }
      exists z. by rewrite Hz.
    + apply IH. by rewrite list_lookup_alter_ne.
Qed.

Lemma normalize_lookup l pos x :
  l !! pos = Some x →
  normalizeZIndex l !! pos
  = Some (set_zIndex (zIndexAt (normalizeZIndex l) pos) x).
Proof.
  intros Hx. unfold zIndexAt.
  destruct (assignRanks_fields (sortedPositions l) 0 l pos x Hx) as [z Hz].
  unfold normalizeZIndex. by rewrite Hz.
Qed.

Lemma Z2Q_lt a b : (Z2Q a < Z2Q b)%Q ↔ (a < b)%nat.
Proof. unfold Z2Q. rewrite <- Zlt_Qlt. lia. Qed.

Lemma Z2Q_le a b : (Z2Q a <= Z2Q b)%Q ↔ (a ≤ b)%nat.
Proof. unfold Z2Q. rewrite <- Zle_Qle. lia. Qed.

Lemma Z2Q_inj a b : (Z2Q a == Z2Q b)%Q → a = b.
Proof. unfold Z2Q. rewrite inject_Z_injective. lia. Qed.

(** X8. The renormalisation that ends [REORDER_LAYER] keeps the stacking
    order: of two images, the one with the lower zIndex (or, at equal
    zIndex, the earlier one in the array) ends on the lower layer, and
    conversely; it writes no field but zIndex. *)
Theorem normalize_keeps_stacking_order l p q x y :
  l !! p = Some x → l !! q = Some y →
  (∃ x' y',
     normalizeZIndex l !! p = Some x' ∧ normalizeZIndex l !! q = Some y'
     ∧ set_zIndex (img_zIndex x) x' = x ∧ set_zIndex (img_zIndex y) y' = y
     ∧ ((img_zIndex x' < img_zIndex y')%Q
        ↔ below (p, img_zIndex x) (q, img_zIndex y))).
Proof.
  intros Hx Hy.
  exists (set_zIndex (zIndexAt (normalizeZIndex l) p) x),
         (set_zIndex (zIndexAt (normalizeZIndex l) q) y).
  split; [by apply normalize_lookup|]. split; [by apply normalize_lookup|].
  split; [by destruct x|]. split; [by destruct y|]. cbn [img_zIndex set_zIndex].
  destruct (sorted_keys_index l p x Hx) as [i Hi].
  destruct (sorted_keys_index l q y Hy) as [j Hj].
  rewrite (normalize_rank l i p _ Hi), (normalize_rank l j q _ Hj), Z2Q_lt.
  pose proof (sortByZ_below l) as Hs.
  split.
  - intros Hij. by apply (StronglySorted_lookup below _ i j _ _ Hs).
  - intros Hb. destruct (decide (i < j)%nat) as [|Hge]; [done|]. exfalso.
    destruct (decide (i = j)) as [->|Hne].
    + rewrite Hi in Hj. injection Hj as -> Hz. rewrite Hz in Hb.
      by apply below_irrefl in Hb.
    + assert (Hji : (j < i)%nat) by lia.
      pose proof (StronglySorted_lookup below _ j i _ _ Hs Hji Hj Hi) as Hb'.
      by apply (below_irrefl _ (below_trans _ _ _ Hb Hb')).
Qed.

(** [A], [B], [C] on layers 7, 1 and 2: [A] is renumbered above [B]. *)
Lemma normalize_keeps_stacking_order_witness :
  ∃ x' y',
    normalizeZIndex (images docABC_relayered) !! 0%nat = Some x'
    ∧ normalizeZIndex (images docABC_relayered) !! 1%nat = Some y'
    ∧ set_zIndex 7 x' = imageAt docABC_relayered 0
    ∧ set_zIndex 1 y' = imageAt docABC_relayered 1
    ∧ ((img_zIndex x' < img_zIndex y')%Q
       ↔ below (0%nat, 7%Q) (1%nat, 1%Q)).
Proof.
  apply (normalize_keeps_stacking_order (images docABC_relayered) 0 1
           (imageAt docABC_relayered 0) (imageAt docABC_relayered 1));
    reflexivity.
Defined.

Lemma increasing_is_seq (l : list nat) : ∀ a,
  StronglySorted lt l →
  (∀ x, x ∈ l → (a ≤ x < a + length l)%nat) →
  l = seq a (length l).
Proof.
  induction l as [|x l IH]; intros a Hs Hr; [done|].
  apply StronglySorted_inv in Hs as [Hs Hx]. rewrite Forall_forall in Hx.
  assert (Hl : l = seq (S a) (length l)).
  { apply IH; [done|]. intros y Hy.
    specialize (Hx y Hy). pose proof (Hr x ltac:(left)).
    pose proof (Hr y ltac:(by right)). cbn [length] in *. lia. }
  cbn [length seq]. f_equal; [|done].
  pose proof (Hr x ltac:(left)) as Hxr. cbn [length] in Hxr.
  destruct l as [|y l]; [cbn in Hxr; lia|].
  cbn [length seq] in Hl. injection Hl as Hy _.
  specialize (Hx y ltac:(left)). lia.
Qed.

Lemma StronglySorted_fmap {A B} (R : A → A → Prop) (R' : B → B → Prop)
    (f : A → B) (l : list A) :
  (∀ a b, a ∈ l → b ∈ l → R a b → R' (f a) (f b)) →
  StronglySorted R l → StronglySorted R' (f <$> l).
Proof.
  intros Hf Hs. revert Hf.
  induction Hs as [|x l Hs IH Hx]; intros Hf; [constructor|].
  cbn. constructor.
  - apply IH. intros a b Ha Hb. apply Hf; by right.
  - apply Forall_forall. intros y (a & -> & Ha)%list_elem_of_fmap.
    apply Hf; [by left | by right |].
    by apply (proj1 (Forall_forall _ _) Hx).
Qed.

(** If the zIndex values are ordered like a list [ks] of distinct layer
    numbers 0 .. N-1, renormalising puts every image on its layer of [ks]. *)
Lemma normalize_to_layers l (ks : list nat) :
  ks ≡ₚ seq 0 (length l) →
  (∀ p q x y kp kq,
     l !! p = Some x → l !! q = Some y → ks !! p = Some kp → ks !! q = Some kq →
     (kp < kq)%nat → (img_zIndex x < img_zIndex y)%Q) →
  ∀ p kp, ks !! p = Some kp → zIndexAt (normalizeZIndex l) p = Z2Q kp.
Proof.
  intros Hperm Hmono.
  assert (Hlen : length ks = length l)
    by (rewrite (Permutation_length Hperm); apply length_seq).
  assert (Hnd : NoDup ks) by (rewrite Hperm; apply NoDup_seq).
  set (sorted := sortByZ (layerKeys l)).
  set (key := λ pz : nat * Q, default 0%nat (ks !! pz.1)).
  assert (Hkey : ∀ a, a ∈ sorted → ∃ x, l !! a.1 = Some x ∧ a.2 = img_zIndex x
                                        ∧ ks !! a.1 = Some (key a)).
  { intros [pos z] (i & Hi)%list_elem_of_lookup.
    destruct (sorted_keys_lookup l i pos z Hi) as (x & Hx & ->).
    exists x. split; [done|]. split; [done|]. unfold key. cbn.
    destruct (lookup_lt_is_Some_2 ks pos) as [kp ->]; [|done].
    rewrite Hlen. by eapply lookup_lt_Some. }
  assert (Hkeys : key <$> sorted = seq 0 (length l)).
  { rewrite <- (length_sorted_keys l). fold sorted.
    rewrite <- (length_fmap key sorted).
    apply increasing_is_seq.
    - apply (StronglySorted_fmap below lt key sorted); [|apply sortByZ_below].
      intros a b Ha Hb Hab.
      destruct (Hkey a Ha) as (x & Hx & Hza & Hka).
      destruct (Hkey b Hb) as (y & Hy & Hzb & Hkb).
      destruct (decide (key a < key b)%nat) as [|Hge]; [done|]. exfalso.
      destruct (decide (key a = key b)) as [Heq|Hne].
      + assert (a.1 = b.1).
        { eapply NoDup_lookup; [exact Hnd | exact Hka |]. by rewrite Heq. }
        destruct a as [pa za], b as [pb zb]. cbn in *. subst.
        rewrite Hx in Hy. injection Hy as <-. by apply below_irrefl in Hab.
      + assert (Hlt : (img_zIndex y < img_zIndex x)%Q).
        { apply (Hmono b.1 a.1 y x (key b) (key a)); [done..|lia]. }
        unfold below in Hab. rewrite Hza, Hzb in Hab.
        destruct Hab as [Hab | [Hab _]]; lra.
    - intros k (a & -> & Ha)%list_elem_of_fmap.
      destruct (Hkey a Ha) as (x & _ & _ & Hka).
      apply list_elem_of_lookup_2 in Hka. rewrite Hperm in Hka.
      apply elem_of_seq in Hka. rewrite length_fmap. unfold sorted.
      rewrite length_sorted_keys. lia. }
  intros p kp Hp.
  destruct (lookup_lt_is_Some_2 l p) as [x Hx];
    [rewrite <- Hlen; by eapply lookup_lt_Some|].
  destruct (sorted_keys_index l p x Hx) as [i Hi]. fold sorted in Hi.
  rewrite (normalize_rank l i p _ Hi). f_equal.
  apply (f_equal (λ zs, zs !! i)) in Hkeys.
  rewrite list_lookup_fmap, Hi in Hkeys. cbn in Hkeys.
  rewrite lookup_seq_lt in Hkeys
    by (rewrite <- (length_sorted_keys l); by eapply lookup_lt_Some).
  unfold key in Hkeys. cbn in Hkeys. rewrite Hp in Hkeys. cbn in Hkeys.
  by injection Hkeys as ->.
Qed.

(** An image above all others ends on the top layer, one below all others
    on layer 0. *)
Lemma normalize_top l t x :
  l !! t = Some x →
  (∀ q y, q ≠ t → l !! q = Some y →
          below (q, img_zIndex y) (t, img_zIndex x)) →
  zIndexAt (normalizeZIndex l) t = Z2Q (pred (length l)).
Proof.
  intros Hx Htop. destruct (sorted_keys_index l t x Hx) as [i Hi].
  rewrite (normalize_rank l i t _ Hi). f_equal.
  pose proof (lookup_lt_Some _ _ _ Hi) as Hlt. rewrite length_sorted_keys in Hlt.
  destruct (decide (i = pred (length l))) as [|Hne]; [done|]. exfalso.
  destruct (lookup_lt_is_Some_2 (sortByZ (layerKeys l)) (S i)) as [[q z] Hq];
    [rewrite length_sorted_keys; lia|].
  pose proof (StronglySorted_lookup below _ i (S i) _ _ (sortByZ_below l)
                ltac:(lia) Hi Hq) as Hb.
  destruct (sorted_keys_lookup l (S i) q z Hq) as (y & Hy & ->).
  destruct (decide (q = t)) as [->|Hqt].
  - rewrite Hx in Hy. injection Hy as <-. by apply below_irrefl in Hb.
  - by apply (below_irrefl _ (below_trans _ _ _ Hb (Htop q y Hqt Hy))).
Qed.

Lemma normalize_bottom l t x :
  l !! t = Some x →
  (∀ q y, q ≠ t → l !! q = Some y →
          below (t, img_zIndex x) (q, img_zIndex y)) →
  zIndexAt (normalizeZIndex l) t = Z2Q 0.
Proof.
  intros Hx Hbot. destruct (sorted_keys_index l t x Hx) as [i Hi].
  rewrite (normalize_rank l i t _ Hi). f_equal.
  destruct i as [|i]; [done|]. exfalso.
  destruct (lookup_lt_is_Some_2 (sortByZ (layerKeys l)) 0) as [[q z] Hq];
    [apply lookup_lt_Some in Hi; lia|].
  pose proof (StronglySorted_lookup below _ 0 (S i) _ _ (sortByZ_below l)
                ltac:(lia) Hq Hi) as Hb.
  destruct (sorted_keys_lookup l 0 q z Hq) as (y & Hy & ->).
  destruct (decide (q = t)) as [->|Hqt].
  - rewrite Hx in Hy. injection Hy as <-. by apply below_irrefl in Hb.
  - by apply (below_irrefl _ (below_trans _ _ _ Hb (Hbot q y Hqt Hy))).
Qed.

(** ** Reordering a dense document *)

Lemma layerAfterReorder_lt n old new layer :
  (old < n)%nat → (new < n)%nat → (layer < n)%nat →
  (layerAfterReorder old new layer < n)%nat.
Proof. unfold layerAfterReorder. intros. repeat case_decide; lia. Qed.

Lemma layerAfterReorder_inj old new a b :
  layerAfterReorder old new a = layerAfterReorder old new b → a = b.
Proof. unfold layerAfterReorder. repeat case_decide; lia. Qed.

Lemma layerAfterReorder_Permutation n old new ks :
  (old < n)%nat → (new < n)%nat → ks ≡ₚ seq 0 n →
  layerAfterReorder old new <$> ks ≡ₚ seq 0 n.
Proof.
  intros Ho Hn Hperm. apply submseteq_length_Permutation.
  - apply NoDup_submseteq.
    + apply NoDup_fmap_2_strong; [|rewrite Hperm; apply NoDup_seq].
      intros a b _ _. apply layerAfterReorder_inj.
    + intros m (a & -> & Ha)%list_elem_of_fmap. rewrite Hperm in Ha.
      apply elem_of_seq in Ha. apply elem_of_seq.
      pose proof (layerAfterReorder_lt n old new a). lia.
  - by rewrite length_fmap, (Permutation_length Hperm).
Qed.

Lemma reorderImages_shifted k t z l :
  reorderImages k t z l = normalizeZIndex (shiftedImages k t z l).
Proof. reflexivity. Qed.

Lemma Z2Q_pred m : (0 < m)%nat → (Z2Q m - 1 == Z2Q (pred m))%Q.
Proof.
  intros Hm. unfold Z2Q. replace (Z.of_nat (pred m)) with (Z.of_nat m - 1) by lia.
  unfold Zminus. rewrite inject_Z_plus. reflexivity.
Qed.

Lemma Z2Q_S m : (Z2Q m + 1 == Z2Q (S m))%Q.
Proof.
  unfold Z2Q. replace (Z.of_nat (S m)) with (Z.of_nat m + 1) by lia.
  rewrite inject_Z_plus. reflexivity.
Qed.

(** What the shift step does to an image other than the target, told in
    layers. *)
Lemma shiftOther_layer n target old new newZIndex y m :
  img_id y ≠ target → img_zIndex y = Z2Q m →
  (m < n)%nat → (old < n)%nat → (new < n)%nat → m ≠ old →
  landsOn n old new newZIndex →
  let y' := shiftOther target (Z2Q old) newZIndex y in
  set_zIndex (img_zIndex y) y' = y
  ∧ (img_zIndex y' == Z2Q (layerAfterReorder old new m))%Q.
Proof.
  intros Hid Hz Hm Ho Hn Hne Hland. cbn zeta.
  unfold shiftOther. destruct (decide (img_id y = target)); [done|].
  unfold layerAfterReorder. destruct (decide (m = old)); [done|].
  pose proof (Z2Q_lt old m) as Hom. pose proof (Z2Q_lt m old) as Hmo.
  pose proof (Z2Q_le m new) as Hmn. pose proof (Z2Q_le new m) as Hnm.
  pose proof (Z2Q_lt m (S new)) as HmSn. pose proof (Z2Q_lt old (S new)) as HoSn.
  pose proof (Z2Q_le new old) as Hno.
  pose proof (Z2Q_S m) as HSm. pose proof (Z2Q_S new) as HSn.
  destruct Hland as [(Hup & Hk & Hcap) | (Hdown & Hk & Hcap)].
  - (* going up *)
    assert (Hbranch : Qltb (Z2Q old) newZIndex = true) by (by apply Qltb_true).
    rewrite Hbranch.
    assert (Hok : (old ≤ new)%nat).
    { destruct Hcap as [Hcap | Hcap]; [|lia]. apply Nat.lt_succ_r, HoSn. lra. }
    assert (Hle : Qle_bool (img_zIndex y) newZIndex = true ↔ (m ≤ new)%nat).
    { rewrite Qle_bool_iff, Hz. split.
      - intros Hq. destruct Hcap as [Hcap | Hcap]; [|lia].
        apply Nat.lt_succ_r, HmSn. lra.
      - intros Hq. apply Hmn in Hq. lra. }
    assert (Hgt : Qltb (Z2Q old) (img_zIndex y) = true ↔ (old < m)%nat)
      by (by rewrite Qltb_true, Hz).
    destruct (Qle_bool (img_zIndex y) newZIndex) eqn:E1;
      destruct (Qltb (Z2Q old) (img_zIndex y)) eqn:E2; cbn [andb];
      (split; [by destruct y|]); cbn [img_zIndex set_zIndex];
      repeat case_decide; rewrite ?Hz; try reflexivity;
      try (rewrite Z2Q_pred by lia; reflexivity);
      try (exfalso; intuition (try lia; try congruence)).
  - (* going down, or staying *)
    assert (Hbranch : Qltb (Z2Q old) newZIndex = false) by (by apply Qltb_false).
    rewrite Hbranch.
    assert (Hok : (new ≤ old)%nat).
    { destruct Hcap as [Hcap | Hcap]; [|lia].
      apply Nat.lt_succ_r, (Z2Q_lt new (S old)). pose proof (Z2Q_S old). lra. }
    assert (Hge : Qle_bool newZIndex (img_zIndex y) = true ↔ (new ≤ m)%nat).
    { rewrite Qle_bool_iff, Hz. split.
      - intros Hq. destruct Hcap as [Hcap | Hcap]; [|lia].
        apply Nat.lt_succ_r, (Z2Q_lt new (S m)). lra.
      - intros Hq. apply Hnm in Hq. lra. }
    assert (Hlt : Qltb (img_zIndex y) (Z2Q old) = true ↔ (m < old)%nat)
      by (by rewrite Qltb_true, Hz).
    destruct (Qle_bool newZIndex (img_zIndex y)) eqn:E1;
      destruct (Qltb (img_zIndex y) (Z2Q old)) eqn:E2; cbn [andb];
      (split; [by destruct y|]); cbn [img_zIndex set_zIndex];
      repeat case_decide; rewrite ?Hz; try reflexivity;
      try (rewrite Z2Q_S; reflexivity);
      try (exfalso; intuition (try lia; try congruence)).
Qed.

Lemma dense_layers l :
  dense l →
  ∃ ks : list nat,
    img_zIndex <$> l = Z2Q <$> ks ∧ ks ≡ₚ seq 0 (length l)
    ∧ length ks = length l ∧ NoDup ks.
Proof.
  intros Hd. unfold dense in Hd.
  destruct (Permutation_map_inv Z2Q _ Hd) as (ks & Hks & Hperm).
  exists ks. split; [done|]. split; [done|]. split.
  - by rewrite <- (Permutation_length Hperm), length_seq.
  - rewrite <- Hperm. apply NoDup_seq.
Qed.

Lemma layers_lookup l (ks : list nat) p x :
  img_zIndex <$> l = Z2Q <$> ks → l !! p = Some x →
  ∃ m, ks !! p = Some m ∧ img_zIndex x = Z2Q m.
Proof.
  intros Hks Hx. apply (f_equal (λ zs, zs !! p)) in Hks.
  rewrite !list_lookup_fmap, Hx in Hks. cbn in Hks.
  destruct (ks !! p) as [m|]; [|done]. exists m. split; [done|].
  by injection Hks.
Qed.

Lemma Z2Q_eq_inj a b : Z2Q a = Z2Q b → a = b.
Proof. intros H. apply Z2Q_inj. by rewrite H. Qed.

(** The shifted list, position by position. *)
Lemma shiftedImages_lookup l (ks : list nat) i t xt o k newZIndex p x m :
  img_zIndex <$> l = Z2Q <$> ks → ks ≡ₚ seq 0 (length l) →
  NoDup (img_id <$> l) →
  l !! t = Some xt → img_id xt = i → ks !! t = Some o →
  (k < length l)%nat → landsOn (length l) o k newZIndex →
  l !! p = Some x → ks !! p = Some m →
  ∃ x2,
    shiftedImages t i newZIndex l !! p = Some x2
    ∧ (∀ z, set_zIndex z x2 = set_zIndex z x)
    ∧ ((p = t ∧ m = o ∧ img_zIndex x2 = newZIndex)
       ∨ (p ≠ t ∧ m ≠ o
          ∧ (img_zIndex x2 == Z2Q (layerAfterReorder o k m))%Q)).
Proof.
  intros Hks Hperm Hids Hxt Hid Ho Hk Hland Hx Hm.
  assert (Hnd : NoDup ks) by (rewrite Hperm; apply NoDup_seq).
  assert (Hrange : ∀ q a, ks !! q = Some a → (a < length l)%nat).
  { intros q a Ha%list_elem_of_lookup_2. rewrite Hperm in Ha.
    apply elem_of_seq in Ha. lia. }
  destruct (layers_lookup l ks t xt Hks Hxt) as (o' & Ho' & Hzt).
  rewrite Ho in Ho'. injection Ho' as <-.
  destruct (layers_lookup l ks p x Hks Hx) as (m' & Hm' & Hzx).
  rewrite Hm in Hm'. injection Hm' as <-.
  unfold shiftedImages. rewrite Hxt. cbn [fmap option_fmap option_map default].
  rewrite list_lookup_fmap.
  destruct (decide (p = t)) as [->|Hpt].
  - rewrite list_lookup_alter_eq, Hxt. cbn.
    rewrite Hx in Hxt. injection Hxt as ->. rewrite Hm in Ho. injection Ho as ->.
    eexists. split; [reflexivity|].
    unfold shiftOther. cbn. rewrite decide_True by done.
    split; [by intros z|]. left. done.
  - rewrite list_lookup_alter_ne, Hx by done. cbn.
    assert (Hidx : img_id x ≠ i).
    { intros Heq. apply Hpt.
      eapply (NoDup_lookup (img_id <$> l)); [done | |];
        rewrite list_lookup_fmap.
      - by rewrite Hx.
      - rewrite Hxt. cbn. congruence. }
    assert (Hmo : m ≠ o).
    { intros ->. apply Hpt. by eapply NoDup_lookup. }
    destruct (shiftOther_layer (length l) i o k newZIndex x m)
      as [Hfields Hval]; [done | done | by eapply Hrange | by eapply Hrange
                          | done | done | done |].
    rewrite Hzt. eexists. split; [reflexivity|]. split.
    + intros z. rewrite <- Hfields at 2. by destruct (shiftOther _ _ _ _).
    + right. done.
Qed.

Lemma length_shiftedImages t i z l : length (shiftedImages t i z l) = length l.
Proof. unfold shiftedImages. by rewrite length_fmap, length_alter. Qed.

(** [REORDER_LAYER] on a document with dense layers and distinct ids:
    when the requested value lands on layer [new] (see [landsOn]: an
    integer in range lands on itself, a fractional or out-of-range request
    on the nearest layer in the direction of travel), the target ends on
    layer [new], the images between its old and new layer each move one
    layer towards the old one, all others stay, and no other field of any
    image changes. *)
Lemma reorder_lands e s i t xt old new newZIndex :
  dense (images s) →
  NoDup (img_id <$> images s) →
  findIndex i (images s) = Some t →
  images s !! t = Some xt → img_zIndex xt = Z2Q old →
  (new < length (images s))%nat →
  landsOn (length (images s)) old new newZIndex →
  ∃ s',
    imageReducer e s (REORDER_LAYER i newZIndex) = Some s'
    ∧ ∀ pos x layer,
        images s !! pos = Some x → img_zIndex x = Z2Q layer →
        images s' !! pos
        = Some (set_zIndex (Z2Q (layerAfterReorder old new layer)) x).
Proof.
  intros Hd Hids Hfind Hxt Hzt Hnew Hland.
  eexists. split; [cbn [imageReducer]; rewrite Hfind; reflexivity|].
  rewrite images_capHistory, images_pushHistory. cbn [images with_images].
  rewrite reorderImages_shifted.
  destruct (dense_layers _ Hd) as (ks & Hks & Hperm & Hlen & Hnd).
  destruct (layers_lookup _ ks t xt Hks Hxt) as (o & Ho & Hzo).
  assert (o = old) as -> by (apply Z2Q_eq_inj; congruence).
  destruct (findIndex_Some _ _ _ Hfind) as (xt' & Hxt' & Hid).
  rewrite Hxt in Hxt'. injection Hxt' as <-.
  set (l2 := shiftedImages t i newZIndex (images s)).
  assert (Hrange : ∀ q a, ks !! q = Some a → (a < length (images s))%nat).
  { intros q a Ha%list_elem_of_lookup_2. rewrite Hperm in Ha.
    apply elem_of_seq in Ha. lia. }
  assert (Hfacts : ∀ p x2 kp,
    l2 !! p = Some x2 → (layerAfterReorder old new <$> ks) !! p = Some kp →
    (kp < length (images s))%nat
    ∧ ((p = t ∧ kp = new ∧ img_zIndex x2 = newZIndex)
       ∨ (p ≠ t ∧ kp ≠ new ∧ (img_zIndex x2 == Z2Q kp)%Q))).
  { intros p x2 kp Hx2 Hkp. rewrite list_lookup_fmap in Hkp.
    destruct (ks !! p) as [m|] eqn:Hm; [|done]. cbn in Hkp.
    injection Hkp as <-.
    destruct (lookup_lt_is_Some_2 (images s) p) as [x Hx];
      [rewrite <- Hlen; by eapply lookup_lt_Some|].
    destruct (shiftedImages_lookup (images s) ks i t xt old new newZIndex p x m)
      as (x2' & Hx2' & _ & Hcase); try done.
    fold l2 in Hx2'. rewrite Hx2 in Hx2'. injection Hx2' as <-.
    split.
    { apply layerAfterReorder_lt; [by eapply Hrange | done | by eapply Hrange]. }
    destruct Hcase as [(-> & -> & Hz) | (Hpt & Hmo & Hz)].
    - left. split; [done|]. split; [|done].
      unfold layerAfterReorder. by rewrite decide_True.
    - right. split; [done|]. split; [|done].
      intros Heq. apply Hmo.
      apply (layerAfterReorder_inj old new).
      rewrite Heq. unfold layerAfterReorder. by rewrite decide_True. }
  intros pos x layer Hx Hzx.
  destruct (layers_lookup _ ks pos x Hks Hx) as (m & Hm & Hzm).
  assert (m = layer) as -> by (apply Z2Q_eq_inj; congruence).
  destruct (shiftedImages_lookup (images s) ks i t xt old new newZIndex
              pos x layer) as (x2 & Hx2 & Hfields & _); try done.
  fold l2 in Hx2.
  rewrite (normalize_lookup l2 pos x2 Hx2), Hfields. do 2 f_equal.
  apply (normalize_to_layers l2 (layerAfterReorder old new <$> ks)).
  - unfold l2. rewrite length_shiftedImages.
    apply layerAfterReorder_Permutation; [by eapply Hrange | done | done].
  - intros p q xp xq kp kq Hp Hq Hkp Hkq Hlt.
    destruct (Hfacts p xp kp Hp Hkp) as [Hrp Hcp].
    destruct (Hfacts q xq kq Hq Hkq) as [Hrq Hcq].
    pose proof (Z2Q_lt kp kq) as Hq1. pose proof (Z2Q_le (S kp) kq) as Hq2.
    pose proof (Z2Q_S kp) as Hq3. pose proof (Z2Q_S new) as Hq4.
    pose proof (Z2Q_le (S new) kq) as Hq5. pose proof (Z2Q_le (S kp) new) as Hq6.
    pose proof (Z2Q_lt new kq) as Hq7. pose proof (Z2Q_lt kp new) as Hq8.
    destruct Hcp as [(-> & -> & Hzp) | (Hpt & Hkpn & Hzp)];
      destruct Hcq as [(-> & -> & Hzq) | (Hqt & Hkqn & Hzq)].
    + lia.
    + rewrite Hzp, Hzq.
      destruct Hland as [(_ & _ & [Hcap | Hcap]) | (_ & Hk & _)].
      * apply Hq5 in Hlt. lra.
      * lia.
      * apply Hq7 in Hlt. lra.
    + rewrite Hzp, Hzq.
      destruct Hland as [(_ & Hk & _) | (_ & _ & [Hcap | Hcap])].
      * apply Hq8 in Hlt. lra.
      * apply Hq6 in Hlt. lra.
      * lia.
    + rewrite Hzp, Hzq. by apply Hq1.
  - rewrite list_lookup_fmap, Hm. done.
Qed.

(** X9. [REORDER_LAYER] on a document with dense layers and distinct ids
    moves the target to the layer its request lands on ([landsOn]: an
    integer in range lands on itself, a fractional or out-of-range request
    on the nearest layer in the direction of travel); the images between
    the old and the new layer each move one layer towards the old one, all
    others stay, and no field but zIndex changes. *)
Theorem reorder_layer_lands e s i t xt old new newZIndex :
  dense (images s) →
  NoDup (img_id <$> images s) →
  findIndex i (images s) = Some t →
  images s !! t = Some xt → img_zIndex xt = Z2Q old →
  (new < length (images s))%nat →
  landsOn (length (images s)) old new newZIndex →
  ∃ s',
    imageReducer e s (REORDER_LAYER i newZIndex) = Some s'
    ∧ ∀ pos x layer,
        images s !! pos = Some x → img_zIndex x = Z2Q layer →
        images s' !! pos
        = Some (set_zIndex (Z2Q (layerAfterReorder old new layer)) x).
Proof. apply reorder_lands. Qed.

(** ** The layer commands *)

Lemma Qmax_cases a b : Qmax a b = a ∨ Qmax a b = b.
Proof.
  unfold Qmax, GenericMinMax.gmax. destruct (a ?= b)%Q; auto.
Qed.

(** [A], [B], [C] on layers 0, 1 and 2, and [A] sent to layer 2. *)
Lemma reorder_layer_lands_witness :
  ∃ s',
    imageReducer (envAt 4000 idA) docABC (REORDER_LAYER idA 2) = Some s'
    ∧ ∀ pos x layer,
        images docABC !! pos = Some x → img_zIndex x = Z2Q layer →
        images s' !! pos
        = Some (set_zIndex (Z2Q (layerAfterReorder 0 2 layer)) x).
Proof.
  apply (reorder_layer_lands (envAt 4000 idA) docABC idA 0
           (imageAt docABC 0) 0 2 2).
  - by vm_compute.
  - apply (bool_decide_unpack _). by vm_compute.
  - reflexivity.
  - reflexivity.
  - reflexivity.
  - vm_compute. lia.
  - left. split; [reflexivity|]. split; [by vm_compute|]. left. reflexivity.
Defined.

Lemma Qmin_cases a b : Qmin a b = a ∨ Qmin a b = b.
Proof.
  unfold Qmin, GenericMinMax.gmin. destruct (a ?= b)%Q; auto.
Qed.

Lemma foldl_Qmax_spec l : ∀ a,
  (foldl Qmax a l = a ∨ foldl Qmax a l ∈ l)
  ∧ (a <= foldl Qmax a l)%Q ∧ ∀ z, z ∈ l → (z <= foldl Qmax a l)%Q.
Proof.
  induction l as [|b l IH]; intros a; cbn.
  - split; [by left|]. split; [lra|]. by intros z Hz%elem_of_nil.
  - destruct (IH (Qmax a b)) as (Hin & Hge & Hall).
    pose proof (Q.le_max_l a b). pose proof (Q.le_max_r a b).
    split; [|split].
    + destruct Hin as [-> | Hin]; [|right; by right].
      destruct (Qmax_cases a b) as [-> | ->]; [by left | right; by left].
    + lra.
    + intros z [-> | Hz]%elem_of_cons; [lra | by apply Hall].
Qed.

Lemma foldl_Qmin_spec l : ∀ a,
  (foldl Qmin a l = a ∨ foldl Qmin a l ∈ l)
  ∧ (foldl Qmin a l <= a)%Q ∧ ∀ z, z ∈ l → (foldl Qmin a l <= z)%Q.
Proof.
  induction l as [|b l IH]; intros a; cbn.
  - split; [by left|]. split; [lra|]. by intros z Hz%elem_of_nil.
  - destruct (IH (Qmin a b)) as (Hin & Hge & Hall).
    pose proof (Q.le_min_l a b). pose proof (Q.le_min_r a b).
    split; [|split].
    + destruct Hin as [-> | Hin]; [|right; by right].
      destruct (Qmin_cases a b) as [-> | ->]; [by left | right; by left].
    + lra.
    + intros z [-> | Hz]%elem_of_cons; [lra | by apply Hall].
Qed.

Lemma mathMax_Some zs m :
  mathMax zs = Some m → m ∈ zs ∧ ∀ z, z ∈ zs → (z <= m)%Q.
Proof.
  destruct zs as [|a l]; [done|]. cbn. intros [= <-].
  destruct (foldl_Qmax_spec l a) as (Hin & Hge & Hall). split.
  - destruct Hin as [-> | Hin]; [by left | by right].
  - intros z [-> | Hz]%elem_of_cons; [done | by apply Hall].
Qed.

Lemma mathMin_Some zs m :
  mathMin zs = Some m → m ∈ zs ∧ ∀ z, z ∈ zs → (m <= z)%Q.
Proof.
  destruct zs as [|a l]; [done|]. cbn. intros [= <-].
  destruct (foldl_Qmin_spec l a) as (Hin & Hge & Hall). split.
  - destruct Hin as [-> | Hin]; [by left | by right].
  - intros z [-> | Hz]%elem_of_cons; [done | by apply Hall].
Qed.

Lemma mathMax_is_Some zs z : z ∈ zs → is_Some (mathMax zs).
Proof. destruct zs; [by intros ?%elem_of_nil | by eexists]. Qed.

Lemma mathMin_is_Some zs z : z ∈ zs → is_Some (mathMin zs).
Proof. destruct zs; [by intros ?%elem_of_nil | by eexists]. Qed.

Lemma shiftOther_fields t o n y z :
  set_zIndex z (shiftOther t o n y) = set_zIndex z y.
Proof. unfold shiftOther. by repeat case_match. Qed.

Lemma shiftOther_up t o n y :
  Qltb o n = true → (img_zIndex (shiftOther t o n y) <= img_zIndex y)%Q.
Proof.
  intros Hup. unfold shiftOther. rewrite Hup.
  repeat case_match; cbn; lra.
Qed.

Lemma shiftOther_down t o n y :
  Qltb o n = false → (img_zIndex y <= img_zIndex (shiftOther t o n y))%Q.
Proof.
  intros Hdown. unfold shiftOther. rewrite Hdown.
  repeat case_match; cbn; lra.
Qed.

Lemma shiftedImages_target t i z l x :
  l !! t = Some x → img_id x = i →
  shiftedImages t i z l !! t = Some (set_zIndex z x).
Proof.
  intros Hx Hid. unfold shiftedImages.
  rewrite list_lookup_fmap, list_lookup_alter_eq, Hx. cbn.
  unfold shiftOther. cbn. by rewrite decide_True.
Qed.

Lemma shiftedImages_other t i z l x q y :
  l !! t = Some x → l !! q = Some y → q ≠ t →
  shiftedImages t i z l !! q = Some (shiftOther i (img_zIndex x) z y).
Proof.
  intros Hx Hy Hne. unfold shiftedImages.
  by rewrite list_lookup_fmap, list_lookup_alter_ne, Hx, Hy.
Qed.

Lemma shiftedImages_inv t i z l q y2 :
  shiftedImages t i z l !! q = Some y2 → ∃ y, l !! q = Some y.
Proof.
  intros Hq. apply lookup_lt_is_Some.
  rewrite <- (length_shiftedImages t i z l). by eapply lookup_lt_Some.
Qed.

(** X10. Bring to front and send to back, on any collection (the layers
    need not be dense, nor the ids distinct).  The first image carrying the
    id of the image acted on ends on the top layer N-1, respectively on
    layer 0, with no other field changed, and the layers of the result are
    dense. *)
Theorem move_to_front_and_back e s image t x :
  findIndex (img_id image) (images s) = Some t →
  images s !! t = Some x →
  (∃ a s',
     moveToFront (images s) image = Some a
     ∧ imageReducer e s a = Some s'
     ∧ images s' !! t
       = Some (set_zIndex (Z2Q (pred (length (images s)))) x)
     ∧ dense (images s'))
  ∧ (∃ a s',
       moveToBack (images s) image = Some a
       ∧ imageReducer e s a = Some s'
       ∧ images s' !! t = Some (set_zIndex (Z2Q 0) x)
       ∧ dense (images s')).
Proof.
  intros Hfind Hx.
  destruct (findIndex_Some _ _ _ Hfind) as (x' & Hx' & Hid).
  rewrite Hx in Hx'. injection Hx' as <-.
  assert (Hzin : img_zIndex x ∈ img_zIndex <$> images s).
  { apply list_elem_of_fmap. exists x. split; [done|].
    by eapply list_elem_of_lookup_2. }
  split.
  - destruct (mathMax_is_Some _ _ Hzin) as [m Hm].
    destruct (mathMax_Some _ _ Hm) as [_ Hmax].
    unfold moveToFront. rewrite Hm. cbn.
    eexists _, _. split; [reflexivity|].
    split; [cbn [imageReducer]; rewrite Hfind; reflexivity|].
    rewrite images_capHistory, images_pushHistory. cbn [images with_images].
    split; [|apply dense_reorderImages].
    rewrite reorderImages_shifted.
    pose proof (shiftedImages_target t (img_id image) (m + 1)%Q _ x Hx Hid) as Ht.
    rewrite (normalize_lookup _ t _ Ht).
    rewrite (normalize_top _ t _ Ht), length_shiftedImages; [by destruct x|].
    intros q y2 Hne Hq.
    destruct (shiftedImages_inv _ _ _ _ _ _ Hq) as [y Hy].
    rewrite (shiftedImages_other t _ _ _ x q y Hx Hy Hne) in Hq.
    injection Hq as <-. left. cbn.
    assert (Hzy : (img_zIndex y <= m)%Q).
    { apply Hmax, list_elem_of_fmap. exists y. split; [done|].
      by eapply list_elem_of_lookup_2. }
    assert (Hup : Qltb (img_zIndex x) (m + 1)%Q = true).
    { apply Qltb_true. specialize (Hmax _ Hzin). lra. }
    pose proof (shiftOther_up (img_id image) _ _ y Hup). lra.
  - destruct (mathMin_is_Some _ _ Hzin) as [m Hm].
    destruct (mathMin_Some _ _ Hm) as [_ Hmin].
    unfold moveToBack. rewrite Hm. cbn.
    eexists _, _. split; [reflexivity|].
    split; [cbn [imageReducer]; rewrite Hfind; reflexivity|].
    rewrite images_capHistory, images_pushHistory. cbn [images with_images].
    split; [|apply dense_reorderImages].
    rewrite reorderImages_shifted.
    pose proof (shiftedImages_target t (img_id image) (m - 1)%Q _ x Hx Hid) as Ht.
    rewrite (normalize_lookup _ t _ Ht).
    rewrite (normalize_bottom _ t _ Ht); [by destruct x|].
    intros q y2 Hne Hq.
    destruct (shiftedImages_inv _ _ _ _ _ _ Hq) as [y Hy].
    rewrite (shiftedImages_other t _ _ _ x q y Hx Hy Hne) in Hq.
    injection Hq as <-. left. cbn.
    assert (Hzy : (m <= img_zIndex y)%Q).
    { apply Hmin, list_elem_of_fmap. exists y. split; [done|].
      by eapply list_elem_of_lookup_2. }
    assert (Hdown : Qltb (img_zIndex x) (m - 1)%Q = false).
    { apply Qltb_false. specialize (Hmin _ Hzin). lra. }
    pose proof (shiftOther_down (img_id image) _ _ y Hdown). lra.
Qed.

(** [A] of the document [A], [B], [C] brought to the front, and sent to
    the back. *)
Lemma move_to_front_and_back_witness :
  (∃ a s',
     moveToFront (images docABC) (imageAt docABC 0) = Some a
     ∧ imageReducer (envAt 4000 idA) docABC a = Some s'
     ∧ images s' !! 0%nat = Some (set_zIndex (Z2Q 2) (imageAt docABC 0))
     ∧ dense (images s'))
  ∧ (∃ a s',
       moveToBack (images docABC) (imageAt docABC 0) = Some a
       ∧ imageReducer (envAt 4000 idA) docABC a = Some s'
       ∧ images s' !! 0%nat = Some (set_zIndex (Z2Q 0) (imageAt docABC 0))
       ∧ dense (images s')).
Proof.
  apply (move_to_front_and_back (envAt 4000 idA) docABC (imageAt docABC 0)
           0 (imageAt docABC 0)); reflexivity.
Defined.

Lemma findImage_findIndex i l t x :
  findIndex i l = Some t → l !! t = Some x → findImage i l = Some x.
Proof.
  unfold findIndex, findImage.
  destruct (list_find _ l) as [[k y]|] eqn:Hf; [|done]. cbn. intros [= ->] Hx.
  apply list_find_Some in Hf as (Hy & _). congruence.
Qed.

(** In a dense collection every layer below N is taken. *)
Lemma dense_layer_taken l m :
  dense l → (m < length l)%nat →
  ∃ pos y, l !! pos = Some y ∧ img_zIndex y = Z2Q m.
Proof.
  intros Hd Hm. unfold dense in Hd.
  assert (Hin : Z2Q m ∈ img_zIndex <$> l).
  { rewrite Hd. apply list_elem_of_fmap. exists m. split; [done|].
    apply elem_of_seq. lia. }
  apply list_elem_of_fmap in Hin as (y & Hz & Hy).
  apply list_elem_of_lookup in Hy as [pos Hpos]. eauto.
Qed.

Lemma dense_layer_range l pos y :
  dense l → l !! pos = Some y →
  ∃ m, img_zIndex y = Z2Q m ∧ (m < length l)%nat.
Proof.
  intros Hd Hy. unfold dense in Hd.
  assert (Hin : img_zIndex y ∈ Z2Q <$> seq 0 (length l)).
  { rewrite <- Hd. apply list_elem_of_fmap. exists y. split; [done|].
    by eapply list_elem_of_lookup_2. }
  apply list_elem_of_fmap in Hin as (m & Hz & Hm).
  apply elem_of_seq in Hm. exists m. split; [done | lia].
Qed.

Lemma dense_max l m :
  dense l → mathMax (img_zIndex <$> l) = Some m →
  m = Z2Q (pred (length l)) ∧ (0 < length l)%nat.
Proof.
  intros Hd Hm. destruct (mathMax_Some _ _ Hm) as [Hin Hmax].
  apply list_elem_of_fmap in Hin as (y & -> & Hy).
  apply list_elem_of_lookup in Hy as [pos Hpos].
  destruct (dense_layer_range l pos y Hd Hpos) as (j & Hj & Hjn).
  destruct (dense_layer_taken l (pred (length l)) Hd) as (q & w & Hw & Hzw);
    [lia|].
  assert (Hle : (img_zIndex w <= img_zIndex y)%Q).
  { apply Hmax, list_elem_of_fmap. exists w. split; [done|].
    by eapply list_elem_of_lookup_2. }
  rewrite Hzw, Hj in Hle. apply Z2Q_le in Hle.
  split; [|lia]. rewrite Hj. f_equal. lia.
Qed.

Lemma dense_min l m :
  dense l → mathMin (img_zIndex <$> l) = Some m → m = Z2Q 0.
Proof.
  intros Hd Hm. destruct (mathMin_Some _ _ Hm) as [Hin Hmin].
  apply list_elem_of_fmap in Hin as (y & -> & Hy).
  apply list_elem_of_lookup in Hy as [pos Hpos].
  destruct (dense_layer_range l pos y Hd Hpos) as (j & Hj & Hjn).
  destruct (dense_layer_taken l 0 Hd) as (q & w & Hw & Hzw); [lia|].
  assert (Hle : (img_zIndex y <= img_zIndex w)%Q).
  { apply Hmin, list_elem_of_fmap. exists w. split; [done|].
    by eapply list_elem_of_lookup_2. }
  rewrite Hzw, Hj in Hle. apply Z2Q_le in Hle.
  rewrite Hj. f_equal. lia.
Qed.

Lemma elem_of_filter_bool {A} (f : A → bool) (l : list A) x :
  x ∈ List.filter f l ↔ x ∈ l ∧ f x = true.
Proof. rewrite !list_elem_of_In. apply filter_In. Qed.

(** The lowest layer above layer [o] of a dense collection is [o + 1]. *)
Lemma dense_next l o :
  dense l →
  match mathMin (img_zIndex
                   <$> List.filter (λ img, Qltb (Z2Q o) (img_zIndex img)) l) with
  | Some m => m = Z2Q (S o) ∧ (S o < length l)%nat
  | None => (length l ≤ S o)%nat
  end.
Proof.
  intros Hd.
  destruct (mathMin _) as [m|] eqn:Hm.
  - destruct (mathMin_Some _ _ Hm) as [Hin Hmin].
    apply list_elem_of_fmap in Hin as (y & -> & Hy).
    apply elem_of_filter_bool in Hy as [Hy Hgt]. apply Qltb_true in Hgt.
    apply list_elem_of_lookup in Hy as [pos Hpos].
    destruct (dense_layer_range l pos y Hd Hpos) as (j & Hj & Hjn).
    rewrite Hj in Hgt. apply Z2Q_lt in Hgt.
    destruct (dense_layer_taken l (S o) Hd) as (q & w & Hw & Hzw); [lia|].
    assert (Hle : (img_zIndex y <= img_zIndex w)%Q).
    { apply Hmin, list_elem_of_fmap. exists w. split; [done|].
      apply elem_of_filter_bool. split; [by eapply list_elem_of_lookup_2|].
      apply Qltb_true. rewrite Hzw. apply Z2Q_lt. lia. }
    rewrite Hzw, Hj in Hle. apply Z2Q_le in Hle.
    split; [|lia]. rewrite Hj. f_equal. lia.
  - destruct (decide (S o < length l)%nat) as [Hlt|]; [|lia]. exfalso.
    destruct (dense_layer_taken l (S o) Hd Hlt) as (q & w & Hw & Hzw).
    assert (Hin : img_zIndex w ∈ img_zIndex
              <$> List.filter (λ img, Qltb (Z2Q o) (img_zIndex img)) l).
    { apply list_elem_of_fmap. exists w. split; [done|].
      apply elem_of_filter_bool. split; [by eapply list_elem_of_lookup_2|].
      apply Qltb_true. rewrite Hzw. apply Z2Q_lt. lia. }
    destruct (mathMin_is_Some _ _ Hin) as [m' Hm']. congruence.
Qed.

(** The highest layer below layer [o] is [o - 1]. *)
Lemma dense_prev l o :
  dense l → (o < length l)%nat →
  match mathMax (img_zIndex
                   <$> List.filter (λ img, Qltb (img_zIndex img) (Z2Q o)) l) with
  | Some m => m = Z2Q (pred o) ∧ (0 < o)%nat
  | None => o = 0%nat
  end.
Proof.
  intros Hd Ho.
  destruct (mathMax _) as [m|] eqn:Hm.
  - destruct (mathMax_Some _ _ Hm) as [Hin Hmax].
    apply list_elem_of_fmap in Hin as (y & -> & Hy).
    apply elem_of_filter_bool in Hy as [Hy Hlt]. apply Qltb_true in Hlt.
    apply list_elem_of_lookup in Hy as [pos Hpos].
    destruct (dense_layer_range l pos y Hd Hpos) as (j & Hj & Hjn).
    rewrite Hj in Hlt. apply Z2Q_lt in Hlt.
    destruct (dense_layer_taken l (pred o) Hd) as (q & w & Hw & Hzw); [lia|].
    assert (Hle : (img_zIndex w <= img_zIndex y)%Q).
    { apply Hmax, list_elem_of_fmap. exists w. split; [done|].
      apply elem_of_filter_bool. split; [by eapply list_elem_of_lookup_2|].
      apply Qltb_true. rewrite Hzw. apply Z2Q_lt. lia. }
    rewrite Hzw, Hj in Hle. apply Z2Q_le in Hle.
    split; [|lia]. rewrite Hj. f_equal. lia.
  - destruct (decide (o = 0%nat)) as [|Hne]; [done|]. exfalso.
    destruct (dense_layer_taken l (pred o) Hd) as (q & w & Hw & Hzw); [lia|].
    assert (Hin : img_zIndex w ∈ img_zIndex
              <$> List.filter (λ img, Qltb (img_zIndex img) (Z2Q o)) l).
    { apply list_elem_of_fmap. exists w. split; [done|].
      apply elem_of_filter_bool. split; [by eapply list_elem_of_lookup_2|].
      apply Qltb_true. rewrite Hzw. apply Z2Q_lt. lia. }
    destruct (mathMax_is_Some _ _ Hin) as [m' Hm']. congruence.
Qed.

Lemma layerAfterReorder_up old layer :
  layerAfterReorder old (S old) layer = swapLayers old (S old) layer.
Proof. unfold layerAfterReorder, swapLayers. repeat case_decide; lia. Qed.

Lemma layerAfterReorder_down old layer :
  (0 < old)%nat →
  layerAfterReorder old (pred old) layer = swapLayers old (pred old) layer.
Proof. unfold layerAfterReorder, swapLayers. intros. repeat case_decide; lia. Qed.

(** A request that lands one layer up or down swaps the image with its
    neighbour. *)
Lemma reorder_swaps e s i t xt old new newZIndex :
  dense (images s) → NoDup (img_id <$> images s) →
  findIndex i (images s) = Some t →
  images s !! t = Some xt → img_zIndex xt = Z2Q old →
  (new < length (images s))%nat →
  (new = S old ∨ (0 < old)%nat ∧ new = pred old) →
  landsOn (length (images s)) old new newZIndex →
  ∃ s',
    imageReducer e s (REORDER_LAYER i newZIndex) = Some s'
    ∧ ∀ pos x layer,
        images s !! pos = Some x → img_zIndex x = Z2Q layer →
        images s' !! pos = Some (set_zIndex (Z2Q (swapLayers old new layer)) x).
Proof.
  intros Hd Hids Hfind Hxt Hzt Hnew Hnb Hland.
  destruct (reorder_lands e s i t xt old new newZIndex)
    as (s' & Hred & Hlayers); try done.
  exists s'. split; [done|]. intros pos x layer Hx Hz.
  rewrite (Hlayers pos x layer Hx Hz). do 3 f_equal.
  destruct Hnb as [-> | [Hpos ->]];
    [apply layerAfterReorder_up | by apply layerAfterReorder_down].
Qed.

(** X11. Bring forward and send backward on a document with dense layers
    and distinct ids.  [moveForward] swaps the image with the one on the
    next layer up and dispatches nothing when the image is on top;
    [moveBackward] swaps it with the one on the next layer down and
    dispatches nothing when it is at the bottom.  No image changes in any
    field but zIndex. *)
Theorem forward_and_backward_swap e s image t old :
  dense (images s) → NoDup (img_id <$> images s) →
  findIndex (img_id image) (images s) = Some t →
  images s !! t = Some image → img_zIndex image = Z2Q old →
  (if decide (S old < length (images s))%nat then
     ∃ a s',
       moveForward (images s) image = Some a
       ∧ imageReducer e s a = Some s'
       ∧ ∀ pos x layer,
           images s !! pos = Some x → img_zIndex x = Z2Q layer →
           images s' !! pos
           = Some (set_zIndex (Z2Q (swapLayers old (S old) layer)) x)
   else moveForward (images s) image = None)
  ∧ (if decide (0 < old)%nat then
       ∃ a s',
         moveBackward (images s) image = Some a
         ∧ imageReducer e s a = Some s'
         ∧ ∀ pos x layer,
             images s !! pos = Some x → img_zIndex x = Z2Q layer →
             images s' !! pos
             = Some (set_zIndex (Z2Q (swapLayers old (pred old) layer)) x)
     else moveBackward (images s) image = None).
Proof.
  intros Hd Hids Hfind Hx Hz.
  destruct (dense_layer_range _ _ _ Hd Hx) as (o' & Hz' & Hrange).
  assert (o' = old) as -> by (apply Z2Q_eq_inj; congruence).
  pose proof (Z2Q_S old) as HS. pose proof (Z2Q_S (S old)) as HSS.
  pose proof (Z2Q_lt old (S old)) as Hlt.
  split.
  - unfold moveForward. rewrite Hz.
    pose proof (dense_next (images s) old Hd) as Hnext.
    destruct (mathMin _) as [m|]; case_decide; try lia; [|done].
    destruct Hnext as [-> _]. cbn.
    destruct (reorder_swaps e s (img_id image) t image old (S old)
                (Z2Q (S old) + (1 # 2))%Q) as (s' & Hred & Hres);
      try done; [by left | left; lra |].
    eexists _, s'. split; [reflexivity|]. by split.
  - unfold moveBackward. rewrite Hz.
    pose proof (dense_prev (images s) old Hd Hrange) as Hprev.
    destruct (mathMax _) as [m|]; case_decide; try lia; [|done].
    destruct Hprev as [-> _]. cbn.
    pose proof (Z2Q_pred old ltac:(done)) as Hp.
    destruct (reorder_swaps e s (img_id image) t image old (pred old)
                (Z2Q (pred old) - (1 # 2))%Q) as (s' & Hred & Hres);
      try done; [lia | by right | right; lra |].
    eexists _, s'. split; [reflexivity|]. by split.
Qed.

(** [B], on the middle layer of [A], [B], [C], moved forward and
    backward. *)
Lemma forward_and_backward_swap_witness :
  (∃ a s',
     moveForward (images docABC) (imageAt docABC 1) = Some a
     ∧ imageReducer (envAt 4000 idB) docABC a = Some s'
     ∧ ∀ pos x layer,
         images docABC !! pos = Some x → img_zIndex x = Z2Q layer →
         images s' !! pos = Some (set_zIndex (Z2Q (swapLayers 1 2 layer)) x))
  ∧ (∃ a s',
       moveBackward (images docABC) (imageAt docABC 1) = Some a
       ∧ imageReducer (envAt 4000 idB) docABC a = Some s'
       ∧ ∀ pos x layer,
           images docABC !! pos = Some x → img_zIndex x = Z2Q layer →
           images s' !! pos
           = Some (set_zIndex (Z2Q (swapLayers 1 0 layer)) x)).
Proof.
  apply (forward_and_backward_swap (envAt 4000 idB) docABC
           (imageAt docABC 1) 1 1).
  - by vm_compute.
  - apply (bool_decide_unpack _). by vm_compute.
  - reflexivity.
  - reflexivity.
  - reflexivity.
Defined.

Lemma dense_max_with_floor l m :
  dense l → (0 < length l)%nat →
  mathMax ((img_zIndex <$> l) ++ [(-1)%Q]) = Some m →
  m = Z2Q (pred (length l)).
Proof.
  intros Hd Hn Hm. destruct (mathMax_Some _ _ Hm) as [Hin Hmax].
  destruct (dense_layer_taken l (pred (length l)) Hd) as (q & w & Hw & Hzw);
    [lia|].
  assert (Hle : (img_zIndex w <= m)%Q).
  { apply Hmax, elem_of_app. left. apply list_elem_of_fmap.
    exists w. split; [done|]. by eapply list_elem_of_lookup_2. }
  apply elem_of_app in Hin as [Hin | Hin%list_elem_of_singleton].
  - apply list_elem_of_fmap in Hin as (y & -> & Hy).
    apply list_elem_of_lookup in Hy as [pos Hpos].
    destruct (dense_layer_range l pos y Hd Hpos) as (j & Hj & Hjn).
    rewrite Hzw, Hj in Hle. apply Z2Q_le in Hle. rewrite Hj. f_equal. lia.
  - subst m. rewrite Hzw in Hle. exfalso.
    pose proof (Z2Q_le 0 (pred (length l))) as H0. unfold Z2Q at 1 in H0.
    cbn in H0. assert ((0 <= Z2Q (pred (length l)))%Q) by (apply H0; lia).
    lra.
Qed.

(** X12. The [ ] ] and [ [ ] keys on a document with dense layers and
    distinct ids, with an image of the collection selected: [ ] ] swaps the
    selected image with the one on the next layer up, [ [ ] with the one
    on the next layer down; on the top, respectively bottom, layer the key
    dispatches nothing.  With the focus in an input no key dispatches
    anything. *)
Theorem layer_keys_swap e s i t image old :
  dense (images s) → NoDup (img_id <$> images s) →
  selectedImageId s = Some i →
  findIndex i (images s) = Some t →
  images s !! t = Some image → img_zIndex image = Z2Q old →
  (if decide (S old < length (images s))%nat then
     ∃ a s',
       handleLayerShortcuts false "]" s = Some a
       ∧ imageReducer e s a = Some s'
       ∧ ∀ pos x layer,
           images s !! pos = Some x → img_zIndex x = Z2Q layer →
           images s' !! pos
           = Some (set_zIndex (Z2Q (swapLayers old (S old) layer)) x)
   else handleLayerShortcuts false "]" s = None)
  ∧ (if decide (0 < old)%nat then
       ∃ a s',
         handleLayerShortcuts false "[" s = Some a
         ∧ imageReducer e s a = Some s'
         ∧ ∀ pos x layer,
             images s !! pos = Some x → img_zIndex x = Z2Q layer →
             images s' !! pos
             = Some (set_zIndex (Z2Q (swapLayers old (pred old) layer)) x)
     else handleLayerShortcuts false "[" s = None)
  ∧ ∀ key, handleLayerShortcuts true key s = None.
Proof.
  intros Hd Hids Hsel Hfind Hx Hz.
  destruct (dense_layer_range _ _ _ Hd Hx) as (o' & Hz' & Hrange).
  assert (o' = old) as -> by (apply Z2Q_eq_inj; congruence).
  pose proof (Z2Q_S old) as HS. pose proof (Z2Q_S (S old)) as HSS.
  pose proof (findImage_findIndex i _ t image Hfind Hx) as Himg.
  split; [|split; [|done]].
  - unfold handleLayerShortcuts. cbn [String.eqb Ascii.eqb Bool.eqb].
    rewrite Hsel. cbn [mbind option_bind].
    destruct (mathMax _) as [m|] eqn:Hm.
    2:{ exfalso. destruct (mathMax_is_Some ((img_zIndex <$> images s) ++ [(-1)%Q])
                   (-1)%Q) as [m' Hm']; [|congruence].
        apply elem_of_app. right. by left. }
    apply dense_max_with_floor in Hm; [|done|lia]. subst m.
    rewrite Himg. cbn [mbind option_bind]. rewrite Hz.
    destruct (Qltb (Z2Q old) (Z2Q (pred (length (images s))))) eqn:Hlt.
    + apply Qltb_true, Z2Q_lt in Hlt. rewrite decide_True by lia.
      destruct (reorder_swaps e s i t image old (S old) (Z2Q old + 1)%Q)
        as (s' & Hred & Hres); try done; [lia | by left | |].
      { left. pose proof (Z2Q_lt old (S old)). lra. }
      eexists _, s'. split; [reflexivity|]. by split.
    + apply Qltb_false, Z2Q_le in Hlt. rewrite decide_False by lia. done.
  - unfold handleLayerShortcuts. cbn [String.eqb Ascii.eqb Bool.eqb].
    rewrite Hsel. cbn [mbind option_bind].
    rewrite Himg. cbn [mbind option_bind]. rewrite Hz.
    destruct (Qltb 0 (Z2Q old)) eqn:Hlt.
    + apply Qltb_true in Hlt. apply (Z2Q_lt 0 old) in Hlt.
      rewrite decide_True by lia.
      pose proof (Z2Q_pred old Hlt) as Hp.
      destruct (reorder_swaps e s i t image old (pred old) (Z2Q old - 1)%Q)
        as (s' & Hred & Hres); try done; [lia | by right | right; lra |].
      eexists _, s'. split; [reflexivity|]. by split.
    + apply Qltb_false in Hlt. apply (Z2Q_le old 0) in Hlt.
      rewrite decide_False by lia. done.
Qed.

(** [C] is selected and on top of [A], [B], [C]: [ ] ] dispatches nothing
    and [ [ ] swaps [C] with [B]. *)
Lemma layer_keys_swap_witness :
  handleLayerShortcuts false "]" docABC = None
  ∧ (∃ a s',
       handleLayerShortcuts false "[" docABC = Some a
       ∧ imageReducer (envAt 4000 idC) docABC a = Some s'
       ∧ ∀ pos x layer,
           images docABC !! pos = Some x → img_zIndex x = Z2Q layer →
           images s' !! pos
           = Some (set_zIndex (Z2Q (swapLayers 2 1 layer)) x))
  ∧ ∀ key, handleLayerShortcuts true key docABC = None.
Proof.
  apply (layer_keys_swap (envAt 4000 idC) docABC idC 2 (imageAt docABC 2) 2).
  - by vm_compute.
  - apply (bool_decide_unpack _). by vm_compute.
  - reflexivity.
  - reflexivity.
  - reflexivity.
  - reflexivity.
Defined.

(** ** Dropping a row of the layer list *)

Lemma insertDescending_Permutation x l : insertDescending x l ≡ₚ x :: l.
Proof.
  induction l as [|y l IH]; cbn; [done|].
  destruct (Qle_bool _ _); [done|]. rewrite IH. apply perm_swap.
Qed.

Lemma sortedImages_Permutation l : sortedImages l ≡ₚ l.
Proof.
  induction l as [|x l IH]; cbn; [done|].
  by rewrite insertDescending_Permutation, IH.
Qed.

Lemma findIndex_NoDup i l t x :
  NoDup (img_id <$> l) → l !! t = Some x → img_id x = i →
  findIndex i l = Some t.
Proof.
  intros Hnd Hx Hid. unfold findIndex.
  destruct (list_find _ l) as [[k y]|] eqn:Hf; cbn.
  - apply list_find_Some in Hf as (Hy & Hidy & _). f_equal.
    eapply (NoDup_lookup (img_id <$> l)); [done | |];
      rewrite list_lookup_fmap.
    + by rewrite Hy.
    + rewrite Hx. cbn. congruence.
  - apply list_find_None in Hf. rewrite Forall_forall in Hf.
    exfalso. apply (Hf x); [by eapply list_elem_of_lookup_2 | done].
Qed.

(** X13. Dropping a dragged row of the layer list on the row at
    [targetIndex], on a document with dense layers and distinct ids.  With
    nothing dragged or an unknown id nothing is dispatched; a drop of an
    image of the collection on a row that does not exist throws; a drop on
    the row that shows the dragged image itself dispatches nothing; a drop
    on the row of another image dispatches one [REORDER_LAYER], after
    which the dragged image has the layer of the image shown in the target
    row and the images between the two layers have each moved one layer
    towards the one the dragged image left. *)
Theorem drop_takes_target_layer e s dragged targetIndex :
  dense (images s) → NoDup (img_id <$> images s) →
  handleDrop None targetIndex (images s) = Some None
  ∧ (found dragged (images s) = false →
     handleDrop (Some dragged) targetIndex (images s) = Some None)
  ∧ (found dragged (images s) = true →
     (length (images s) ≤ targetIndex)%nat →
     handleDrop (Some dragged) targetIndex (images s) = None)
  ∧ (∀ shown,
       sortedImages (images s) !! targetIndex = Some shown →
       img_id shown = dragged →
       handleDrop (Some dragged) targetIndex (images s) = Some None)
  ∧ (∀ target,
       found dragged (images s) = true →
       sortedImages (images s) !! targetIndex = Some target →
       img_id target ≠ dragged →
       handleDrop (Some dragged) targetIndex (images s)
       = Some (Some (REORDER_LAYER dragged (img_zIndex target))))
  ∧ ∀ a,
      handleDrop (Some dragged) targetIndex (images s) = Some (Some a) →
      ∃ target old new s',
        sortedImages (images s) !! targetIndex = Some target
        ∧ a = REORDER_LAYER dragged (img_zIndex target)
        ∧ img_zIndex target = Z2Q new
        ∧ findImage dragged (images s) ≫= (λ x, Some (img_zIndex x))
          = Some (Z2Q old)
        ∧ imageReducer e s a = Some s'
        ∧ ∀ pos x layer,
            images s !! pos = Some x → img_zIndex x = Z2Q layer →
            images s' !! pos
            = Some (set_zIndex (Z2Q (layerAfterReorder old new layer)) x).
Proof.
  intros Hd Hids.
  assert (Hsids : NoDup (img_id <$> sortedImages (images s)))
    by (by rewrite sortedImages_Permutation).
  split; [done|]. split; [|split; [|split; [|split]]].
  - intros Hf. unfold handleDrop.
    destruct (findIndex dragged (sortedImages (images s))) as [k|] eqn:Hk;
      [|done].
    apply findIndex_Some in Hk as (x & Hx%list_elem_of_lookup_2 & Hid).
    rewrite sortedImages_Permutation in Hx.
    assert (found dragged (images s) = true); [|congruence].
    apply found_ids, list_elem_of_fmap. by exists x.
  - intros Hf Hrange. unfold handleDrop.
    assert (Hlen : length (sortedImages (images s)) = length (images s))
      by apply (Permutation_length (sortedImages_Permutation _)).
    assert (Hfs : found dragged (sortedImages (images s)) = true).
    { apply found_ids. rewrite sortedImages_Permutation. by apply found_ids. }
    unfold found in Hfs.
    destruct (findIndex dragged _) as [k|] eqn:Hk; [|done].
    apply findIndex_Some in Hk as (x & Hx%lookup_lt_Some & _).
    rewrite decide_False by lia.
    rewrite lookup_ge_None_2; [done | lia].
  - intros shown Hshown Hid. unfold handleDrop.
    rewrite (findIndex_NoDup dragged _ targetIndex shown Hsids Hshown Hid).
    by rewrite decide_True.
  - intros target Hf Ht Hne. unfold handleDrop.
    assert (Hfs : found dragged (sortedImages (images s)) = true).
    { apply found_ids. rewrite sortedImages_Permutation. by apply found_ids. }
    unfold found in Hfs.
    destruct (findIndex dragged _) as [k|] eqn:Hk; [|done].
    apply findIndex_Some in Hk as (x & Hx & Hid).
    rewrite decide_False; [by rewrite Ht|].
    intros ->. rewrite Ht in Hx. injection Hx as <-. done.
  - intros a Ha. unfold handleDrop in Ha.
    destruct (findIndex dragged (sortedImages (images s))) as [k|] eqn:Hk;
      [|done].
    case_decide; [done|].
    destruct (sortedImages (images s) !! targetIndex) as [target|] eqn:Ht;
      [|done].
    cbn in Ha. injection Ha as <-.
    apply findIndex_Some in Hk as (x & Hx%list_elem_of_lookup_2 & Hid).
    rewrite sortedImages_Permutation in Hx.
    apply list_elem_of_lookup in Hx as [t Hxt].
    apply list_elem_of_lookup_2 in Ht as Htin.
    rewrite sortedImages_Permutation in Htin.
    apply list_elem_of_lookup in Htin as [q Hq].
    destruct (dense_layer_range _ _ _ Hd Hxt) as (old & Hzold & _).
    destruct (dense_layer_range _ _ _ Hd Hq) as (new & Hznew & Hnew).
    pose proof (findIndex_NoDup dragged _ t x Hids Hxt Hid) as Hfind.
    destruct (reorder_lands e s dragged t x old new (img_zIndex target))
      as (s' & Hred & Hres); try done.
    { rewrite Hznew. unfold landsOn.
      pose proof (Z2Q_lt old new) as Hup. pose proof (Z2Q_le new old) as Hdn.
      pose proof (Z2Q_S new) as HS.
      destruct (decide (old < new)%nat).
      - left. split; [tauto|]. split; [lra|]. left. lra.
      - right. split; [apply Hdn; lia|]. split; [lra|]. left. lra. }
    exists target, old, new, s'. split; [done|]. split; [done|].
    split; [done|]. split; [|done].
    rewrite (findImage_findIndex dragged _ t x Hfind Hxt). cbn. by rewrite Hzold.
Qed.

(** The row of [A], the lowest of [A], [B], [C], dropped on the top row,
    which shows [C]. *)
Lemma drop_takes_target_layer_witness :
  handleDrop (Some idA) 0 (images docABC)
  = Some (Some (REORDER_LAYER idA (img_zIndex (imageAt docABC 2))))
  ∧ ∃ target old new s',
      sortedImages (images docABC) !! 0%nat = Some target
      ∧ REORDER_LAYER idA 2 = REORDER_LAYER idA (img_zIndex target)
      ∧ img_zIndex target = Z2Q new
      ∧ findImage idA (images docABC) ≫= (λ x, Some (img_zIndex x))
        = Some (Z2Q old)
      ∧ imageReducer (envAt 4000 idA) docABC (REORDER_LAYER idA 2) = Some s'
      ∧ ∀ pos x layer,
          images docABC !! pos = Some x → img_zIndex x = Z2Q layer →
          images s' !! pos
          = Some (set_zIndex (Z2Q (layerAfterReorder old new layer)) x).
Proof.
  destruct (drop_takes_target_layer (envAt 4000 idA) docABC idA 0)
    as (_ & _ & _ & _ & Hother & Hdrop).
  - by vm_compute.
  - apply (bool_decide_unpack _). by vm_compute.
  - split.
    + apply (Hother (imageAt docABC 2)); [reflexivity | reflexivity | done].
    + apply Hdrop. reflexivity.
Defined.

(** * Gestures and undo *)

Lemma run_app s l1 l2 :
  run s (l1 ++ l2) = (s' ← run s l1; run s' l2).
Proof.
  revert s. induction l1 as [|[e a] l1 IH]; intros s; [done|].
  cbn. destruct (imageReducer e s a) as [s1|]; [apply IH | done].
Qed.

Lemma updates_keep_history ups : ∀ s,
  Forall (λ ea, isUpdate ea.2 = true) ups →
  ∃ s', run s ups = Some s'
        ∧ history s' = history s ∧ historyIndex s' = historyIndex s
        ∧ selectedImageId s' = selectedImageId s.
Proof.
  induction ups as [|[e a] ups IH]; intros s Hall; [by exists s|].
  apply Forall_cons in Hall as [Ha Hall]. cbn in Ha.
  destruct a; try discriminate. cbn [run imageReducer].
  destruct (findIndex id (images s)) as [k|]; cbn.
  - destruct (IH (with_images (alter (assignImage updates) k (images s)) s) Hall)
      as (s' & Hrun & Hh & Hi & Hsel).
    by exists s'.
  - apply IH, Hall.
Qed.

Lemma drop1_snoc_lookup {A} (h : list A) (x : A) i :
  drop 1 (h ++ [x]) !! i = (h ++ [x]) !! S i.
Proof. by rewrite lookup_drop. Qed.

Lemma undo_step e s st :
  0 < historyIndex s →
  at_index (history s) (historyIndex s - 1) = Some st →
  imageReducer e s UNDO
  = Some (with_images (step_images st)
            (with_history (history s) (historyIndex s - 1) s)).
Proof.
  intros Hpos%Z.ltb_lt Hst. cbn [imageReducer]. by rewrite Hpos, Hst.
Qed.

Lemma redo_step e s st :
  historyIndex s < Z.of_nat (length (history s)) - 1 →
  at_index (history s) (historyIndex s + 1) = Some st →
  imageReducer e s REDO
  = Some (with_images (step_images st)
            (with_history (history s) (historyIndex s + 1) s)).
Proof.
  intros Hlt%Z.ltb_lt Hst. cbn [imageReducer]. by rewrite Hlt, Hst.
Qed.

(** A checkpoint taken on a consistent history, then undone and redone. *)
Lemma checkpoint_undo_redo e1 e2 e3 s0 s1 action description :
  historyConsistent s0 → history s0 ≠ [] →
  history s1 = history s0 → historyIndex s1 = historyIndex s0 →
  ∃ s2 s3 s4,
    imageReducer e1 s1 (ADD_HISTORY_STEP action description) = Some s2
    ∧ images s2 = images s1
    ∧ imageReducer e2 s2 UNDO = Some s3
    ∧ images s3 = images s0
    ∧ imageReducer e3 s3 REDO = Some s4
    ∧ images s4 = images s1.
Proof.
  intros [Hc Hlast] Hne Hh Hi.
  set (st := createHistoryStep e1 action description (images s1)).
  set (h := history s0) in *.
  destruct (last h) as [st0|] eqn:Hl0;
    [|apply last_None in Hl0; done].
  assert (Hlen : (0 < length h)%nat) by (destruct h; [done | cbn; lia]).
  assert (Hlast0 : h !! pred (length h) = Some st0)
    by (by rewrite <- last_lookup).
  assert (Hpush : history (pushHistory st s1) = h ++ [st]).
  { rewrite history_pushHistory, Hh, Hi, Hc. fold h. by rewrite slice0_all. }
  set (s2 := capHistory (pushHistory st s1)).
  assert (Hi2 : historyIndex s2 = Z.of_nat (length (history s2)) - 1)
    by apply cursor_last_capHistory, historyIndex_pushHistory.
  assert (Hh2 : (2 ≤ length (history s2))%nat
                ∧ history s2 !! pred (length (history s2)) = Some st
                ∧ history s2 !! pred (pred (length (history s2))) = Some st0).
  { unfold s2, capHistory. rewrite Hpush.
    destruct (100 <? _) eqn:Hover.
    - apply Z.ltb_lt in Hover. rewrite length_app in Hover. cbn in Hover.
      cbn [history with_history]. rewrite length_drop, length_app. cbn [length].
      rewrite !drop1_snoc_lookup.
      split; [lia|]. split.
      + replace (S (pred (length h + 1 - 1))) with (length h) by lia.
        rewrite lookup_app_r by lia. by rewrite Nat.sub_diag.
      + replace (S (pred (pred (length h + 1 - 1)))) with (pred (length h)) by lia.
        by apply lookup_app_l_Some.
    - rewrite Hpush, length_app. cbn [length].
      split; [lia|]. split.
      + replace (pred (length h + 1)) with (length h) by lia.
        rewrite lookup_app_r by lia. by rewrite Nat.sub_diag.
      + replace (pred (pred (length h + 1))) with (pred (length h)) by lia.
        by apply lookup_app_l_Some. }
  destruct Hh2 as (Hlen2 & Hst & Hst0).
  exists s2. eexists _, _. split; [reflexivity|].
  split; [unfold s2; by rewrite images_capHistory|].
  split.
  { apply (undo_step e2 s2 st0); [lia|].
    apply at_index_Some. split; [lia|].
    by replace (Z.to_nat (historyIndex s2 - 1))
      with (pred (pred (length (history s2)))) by lia. }
  split; [done|]. split.
  { apply (redo_step e3 _ st); cbn [history historyIndex with_images with_history];
      [lia|].
    apply at_index_Some. split; [lia|].
    by replace (Z.to_nat (historyIndex s2 - 1 + 1))
      with (pred (length (history s2))) by lia. }
  reflexivity.
Qed.

(** X14. A gesture is undone by one undo.  On a state whose history is
    consistent (cursor on the last step, that step holding the collection)
    and not empty, any number of [UPDATE_IMAGE] dispatches followed by one
    [ADD_HISTORY_STEP] make a unit: a single [UNDO] brings back the
    collection from before the first update, and a [REDO] after it the
    collection the gesture produced, also when the checkpoint evicted the
    oldest step. *)
Theorem gesture_undone_by_one_undo e1 e2 e3 s0 ups action description :
  historyConsistent s0 → history s0 ≠ [] →
  Forall (λ ea, isUpdate ea.2 = true) ups →
  ∃ s1 s2 s3 s4,
    run s0 ups = Some s1
    ∧ imageReducer e1 s1 (ADD_HISTORY_STEP action description) = Some s2
    ∧ images s2 = images s1
    ∧ imageReducer e2 s2 UNDO = Some s3
    ∧ images s3 = images s0
    ∧ imageReducer e3 s3 REDO = Some s4
    ∧ images s4 = images s1.
Proof.
  intros Hc Hne Hups.
  destruct (updates_keep_history ups s0 Hups) as (s1 & Hrun & Hh & Hi & _).
  destruct (checkpoint_undo_redo e1 e2 e3 s0 s1 action description Hc Hne Hh Hi)
    as (s2 & s3 & s4 & H).
  by exists s1, s2, s3, s4.
Qed.

Lemma gesture_undone_by_one_undo_witness :
  ∃ s1 s2 s3 s4,
    run docA [(envAt 1100 idA, UPDATE_IMAGE idA (onlyX 5));
              (envAt 1110 idA, UPDATE_IMAGE idA (onlyX 9))] = Some s1
    ∧ imageReducer (envAt 1200 idA) s1 (ADD_HISTORY_STEP move_image "move")
      = Some s2
    ∧ images s2 = images s1
    ∧ imageReducer (envAt 1300 idA) s2 UNDO = Some s3
    ∧ images s3 = images docA
    ∧ imageReducer (envAt 1400 idA) s3 REDO = Some s4
    ∧ images s4 = images s1.
Proof.
  apply (gesture_undone_by_one_undo (envAt 1200 idA) (envAt 1300 idA)
           (envAt 1400 idA) docA).
  - split; by vm_compute.
  - by vm_compute.
  - repeat constructor.
Defined.

Lemma findImage_missing i l : found i l = false → findImage i l = None.
Proof.
  unfold found, findIndex, findImage. by destruct (list_find _ l).
Qed.

Lemma assignImage_onlyX v x :
  assignImage (onlyX v) x
  = set_geometry v (img_y x) (img_width x) (img_height x) x.
Proof. by destruct x. Qed.

Lemma assignImage_onlyY v x :
  assignImage (onlyY v) x
  = set_geometry (img_x x) v (img_width x) (img_height x) x.
Proof. by destruct x. Qed.

Lemma alter_insert {A} (f : A → A) (l : list A) k x :
  l !! k = Some x → alter f k l = <[k := f x]> l.
Proof.
  intros Hx. apply list_eq. intros j. destruct (decide (j = k)) as [->|Hne].
  - rewrite list_lookup_alter_eq, Hx.
    rewrite list_lookup_insert_eq; [done|]. by eapply lookup_lt_Some.
  - by rewrite list_lookup_alter_ne, list_lookup_insert_ne.
Qed.

Lemma appended_is_last e s a :
  appendsStep e s a = true →
  ∃ s' st, imageReducer e s a = Some s'
           ∧ last (history s') = Some st ∧ step_images st = images s'.
Proof.
  intros Hg.
  destruct (appending_dispatch e s a Hg) as (s' & st & Hred & Himgs & Hh & _).
  exists s', st. split; [done|]. split; [|done].
  destruct Hh as [-> | [Hlen ->]]; [apply last_snoc|].
  destruct (last_snoc_drop1 (slice0 (history s) (historyIndex s + 1)) st)
    as [Hl|Hnil]; [done|].
  rewrite length_app in Hlen. cbn [length] in Hlen.
  apply (f_equal length) in Hnil. rewrite length_drop, length_app in Hnil.
  cbn [length] in Hnil. lia.
Qed.

(** X15. Arrow keys in free mode, with an image of the collection
    selected.  Each arrow key dispatches one [UPDATE_IMAGE] and one
    [ADD_HISTORY_STEP]; together they move the selected image by 1 unit
    (10 with Shift), touch nothing else in the collection and leave a last
    history step holding the moved collection; left and up stop at 0,
    right and down have no limit.  Any other key dispatches nothing, and
    no key dispatches anything in grid-snap mode, with an empty selection
    or with a selection that is not in the collection. *)
Theorem arrow_keys_move_selected (e1 e2 : Env) s sel t x (shift : bool) :
  selectedImageId s = Some sel → dragMode s = free →
  findIndex sel (images s) = Some t → images s !! t = Some x →
  let d : Q := if shift then 10%Q else 1%Q in
  let movedTo : string → Q → Q → Prop := λ key newX newY,
    ∃ upd record s' st,
      handleImageShortcuts key shift s = [upd; record]
      ∧ run s [(e1, upd); (e2, record)] = Some s'
      ∧ images s'
        = <[t := set_geometry newX newY (img_width x) (img_height x) x]>
            (images s)
      ∧ last (history s') = Some st ∧ step_images st = images s' in
  movedTo "ArrowLeft" (Qmax 0 (img_x x - d)) (img_y x)
  ∧ movedTo "ArrowRight" (img_x x + d)%Q (img_y x)
  ∧ movedTo "ArrowUp" (img_x x) (Qmax 0 (img_y x - d))
  ∧ movedTo "ArrowDown" (img_x x) (img_y x + d)%Q
  ∧ (0 <= Qmax 0 (img_x x - d))%Q ∧ (0 <= Qmax 0 (img_y x - d))%Q
  ∧ (∀ key,
       key ≠ "ArrowUp" → key ≠ "ArrowDown" →
       key ≠ "ArrowLeft" → key ≠ "ArrowRight" →
       handleImageShortcuts key shift s = [])
  ∧ (∀ key anyShift s',
       dragMode s' = grid_snap → handleImageShortcuts key anyShift s' = [])
  ∧ (∀ key anyShift s',
       selectedImageId s' = None → handleImageShortcuts key anyShift s' = [])
  ∧ (∀ key anyShift s' missing,
       selectedImageId s' = Some missing →
       found missing (images s') = false →
       handleImageShortcuts key anyShift s' = []).
Proof.
  intros Hsel Hfree Hfind Hx d movedTo.
  pose proof (findImage_findIndex sel _ t x Hfind Hx) as Himg.
  assert (Hmoved : ∀ key u newX newY,
    handleImageShortcuts key shift s
    = [UPDATE_IMAGE sel u;
       ADD_HISTORY_STEP move_image "画像をキーボードで移動"] →
    assignImage u x = set_geometry newX newY (img_width x) (img_height x) x →
    movedTo key newX newY).
  { intros key u newX newY Hkey Hu. unfold movedTo.
    destruct (appended_is_last e2
                (with_images (alter (assignImage u) t (images s)) s)
                (ADD_HISTORY_STEP move_image "画像をキーボードで移動") eq_refl)
      as (s' & st & Hred & Hlast & Himgs).
    exists (UPDATE_IMAGE sel u),
      (ADD_HISTORY_STEP move_image "画像をキーボードで移動"), s', st.
    split; [exact Hkey|].
    assert (Hup : imageReducer e1 s (UPDATE_IMAGE sel u)
                  = Some (with_images (alter (assignImage u) t (images s)) s))
      by (cbn [imageReducer]; by rewrite Hfind).
    split; [cbn [run]; rewrite Hup; cbn [mbind option_bind]; by rewrite Hred|].
    split; [|done].
    cbn [imageReducer] in Hred. injection Hred as <-.
    rewrite images_capHistory, images_pushHistory. cbn [images with_images].
    by rewrite (alter_insert _ _ _ _ Hx), Hu. }
  assert (Hkeys : ∀ key,
    handleImageShortcuts key shift s
    = let record := ADD_HISTORY_STEP move_image "画像をキーボードで移動" in
      if String.eqb key "ArrowUp" then
        [UPDATE_IMAGE sel (onlyY (Qmax 0 (img_y x - d))); record]
      else if String.eqb key "ArrowDown" then
        [UPDATE_IMAGE sel (onlyY (img_y x + d)%Q); record]
      else if String.eqb key "ArrowLeft" then
        [UPDATE_IMAGE sel (onlyX (Qmax 0 (img_x x - d))); record]
      else if String.eqb key "ArrowRight" then
        [UPDATE_IMAGE sel (onlyX (img_x x + d)%Q); record]
      else []).
  { intros key. unfold handleImageShortcuts. by rewrite Hsel, Hfree, Himg. }
  split; [|split; [|split; [|split; [|split; [|split; [|split; [|split;
    [|split]]]]]]]].
  - apply (Hmoved "ArrowLeft" (onlyX (Qmax 0 (img_x x - d))));
      [by rewrite Hkeys | apply assignImage_onlyX].
  - apply (Hmoved "ArrowRight" (onlyX (img_x x + d)%Q));
      [by rewrite Hkeys | apply assignImage_onlyX].
  - apply (Hmoved "ArrowUp" (onlyY (Qmax 0 (img_y x - d))));
      [by rewrite Hkeys | apply assignImage_onlyY].
  - apply (Hmoved "ArrowDown" (onlyY (img_y x + d)%Q));
      [by rewrite Hkeys | apply assignImage_onlyY].
  - apply Q.le_max_l.
  - apply Q.le_max_l.
  - intros key Hu Hdn Hl Hr. rewrite Hkeys. cbv zeta.
    apply String.eqb_neq in Hu, Hdn, Hl, Hr. by rewrite Hu, Hdn, Hl, Hr.
  - intros key anyShift s' Hmode. unfold handleImageShortcuts.
    destruct (selectedImageId s'); [|done].
    by rewrite Hmode, bool_decide_eq_true_2.
  - intros key anyShift s' Hnone. unfold handleImageShortcuts.
    by rewrite Hnone.
  - intros key anyShift s' missing Hsome Hmissing.
    unfold handleImageShortcuts. rewrite Hsome.
    destruct (bool_decide _); [done|].
    by rewrite (findImage_missing _ _ Hmissing).
Qed.

(** [A], selected on the board, moved right with Shift held. *)
Lemma arrow_keys_move_selected_witness :
  ∃ upd record s' st,
    handleImageShortcuts "ArrowRight" true docA = [upd; record]
    ∧ run docA [(envAt 1100 idA, upd); (envAt 1200 idA, record)] = Some s'
    ∧ images s'
      = <[0%nat := set_geometry 10 0 100 100 (imageAt docA 0)]> (images docA)
    ∧ last (history s') = Some st ∧ step_images st = images s'.
Proof.
  destruct (arrow_keys_move_selected (envAt 1100 idA) (envAt 1200 idA) docA
              idA 0 (imageAt docA 0) true) as (_ & Hright & _);
    [reflexivity | reflexivity | reflexivity | reflexivity |].
  exact Hright.
Defined.

(** * Geometry *)

Lemma Qfloor_half k : Qfloor (inject_Z k + (1 # 2)) = k.
Proof.
  pose proof (Qfloor_le (inject_Z k + (1 # 2))) as Hle.
  pose proof (Qlt_floor (inject_Z k + (1 # 2))) as Hlt.
  set (f := Qfloor (inject_Z k + (1 # 2))) in *.
  assert (f < k + 1).
  { rewrite Zlt_Qlt, inject_Z_plus. change (inject_Z 1) with 1%Q. lra. }
  assert (k < f + 1).
  { rewrite Zlt_Qlt. rewrite inject_Z_plus in Hlt |- *.
    change (inject_Z 1) with 1%Q in *. lra. }
  lia.
Qed.

Lemma mathRound_integer k : mathRound (inject_Z k) = inject_Z k.
Proof. unfold mathRound. by rewrite Qfloor_half. Qed.

Lemma mathRound_near v :
  (mathRound v <= v + (1 # 2))%Q ∧ (v - (1 # 2) < mathRound v)%Q.
Proof.
  unfold mathRound.
  pose proof (Qfloor_le (v + (1 # 2))) as Hle.
  pose proof (Qlt_floor (v + (1 # 2))) as Hlt.
  rewrite inject_Z_plus in Hlt. change (inject_Z 1) with 1%Q in Hlt.
  split; lra.
Qed.

Lemma mathRound_mono a b : (a <= b)%Q → (mathRound a <= mathRound b)%Q.
Proof.
  intros Hab. unfold mathRound. rewrite <- Zle_Qle.
  apply Qfloor_resp_le. lra.
Qed.

(** X16. Grid snapping, for a positive grid size: the snapped value is a
    whole number of cells, it lies within half a cell of the input (a value
    exactly between two grid lines goes up), snapping is monotone, and
    snapping a snapped value changes nothing. *)
Theorem snapToGrid_properties value gridSize :
  (0 < gridSize)%Q →
  (∃ cells : Z, snapToGrid value gridSize = (inject_Z cells * gridSize)%Q)
  ∧ (snapToGrid value gridSize <= value + gridSize / 2)%Q
  ∧ (value - gridSize / 2 < snapToGrid value gridSize)%Q
  ∧ (∀ other, (value <= other)%Q →
              (snapToGrid value gridSize <= snapToGrid other gridSize)%Q)
  ∧ (snapToGrid (snapToGrid value gridSize) gridSize
     == snapToGrid value gridSize)%Q.
Proof.
  intros Hg. unfold snapToGrid.
  assert (Hne : ¬ (gridSize == 0)%Q) by lra.
  split; [by eexists|].
  destruct (mathRound_near (value / gridSize)) as [Hup Hdown].
  assert (Hv : (value / gridSize * gridSize == value)%Q) by (by field).
  split; [|split; [|split]].
  - apply (Qmult_le_compat_r _ _ gridSize) in Hup; [|lra].
    assert (E : (value + gridSize / 2
                 == (value / gridSize + (1 # 2)) * gridSize)%Q) by (by field).
    by rewrite E.
  - apply (Qmult_lt_compat_r _ _ gridSize) in Hdown; [|lra].
    assert (E : (value - gridSize / 2
                 == (value / gridSize - (1 # 2)) * gridSize)%Q) by (by field).
    by rewrite E.
  - intros other Hle. apply Qmult_le_compat_r; [|lra].
    apply mathRound_mono. apply Qmult_le_compat_r; [done|].
    apply Qlt_le_weak, Qinv_lt_0_compat, Hg.
  - unfold mathRound at 1.
    assert (Hk : Qfloor (inject_Z (Qfloor (value / gridSize + (1 # 2)))
                         * gridSize / gridSize + (1 # 2))
                 = Qfloor (value / gridSize + (1 # 2))).
    { rewrite <- (Qfloor_half (Qfloor (value / gridSize + (1 # 2)))) at 2.
      apply Qfloor_comp. by field. }
    unfold mathRound. rewrite Hk. reflexivity.
Qed.

Lemma snapToGrid_properties_witness :
  (∃ cells : Z, snapToGrid 50 22 = (inject_Z cells * 22)%Q)
  ∧ (snapToGrid 50 22 <= 50 + 22 / 2)%Q
  ∧ (50 - 22 / 2 < snapToGrid 50 22)%Q
  ∧ (∀ other, (50 <= other)%Q → (snapToGrid 50 22 <= snapToGrid other 22)%Q)
  ∧ (snapToGrid (snapToGrid 50 22) 22 == snapToGrid 50 22)%Q.
Proof. apply (snapToGrid_properties 50 22). reflexivity. Defined.


Lemma constrain_spec limit value :
  let c := Qmax 0 (Qmin limit value) in
  (0 <= c)%Q
  ∧ ((0 <= limit)%Q → (c <= limit)%Q)
  ∧ ((0 <= value)%Q → (value <= limit)%Q → (c == value)%Q).
Proof.
  cbv zeta.
  destruct (Q.max_spec 0 (Qmin limit value)) as [[? ->] | [? ->]];
    destruct (Q.min_spec limit value) as [[? E] | [? E]];
    rewrite ?E in *; repeat split; intros; lra.
Qed.

(** X18. Dragging never leaves the board: the position [handleMouseMove]
    submits is never negative in either mode; the image's right and bottom
    edges stay within the canvas bounds whenever the image fits in them;
    and in free mode a pointer offset that keeps the image on the board is
    applied exactly. *)
Theorem drag_stays_on_board mode bounds image dragStart ev :
  let submitted := dragMove mode bounds image dragStart ev in
  let wantedX := (ds_imgX dragStart + (clientX ev - ds_x dragStart))%Q in
  let wantedY := (ds_imgY dragStart + (clientY ev - ds_y dragStart))%Q in
  (0 <= submitted.1)%Q ∧ (0 <= submitted.2)%Q
  ∧ ((img_width image <= b_width bounds)%Q →
     (submitted.1 + img_width image <= b_width bounds)%Q)
  ∧ ((img_height image <= b_height bounds)%Q →
     (submitted.2 + img_height image <= b_height bounds)%Q)
  ∧ (mode = free →
     (0 <= wantedX)%Q → (wantedX + img_width image <= b_width bounds)%Q →
     (submitted.1 == wantedX)%Q)
  ∧ (mode = free →
     (0 <= wantedY)%Q → (wantedY + img_height image <= b_height bounds)%Q →
     (submitted.2 == wantedY)%Q).
Proof.
  cbv zeta. unfold dragMove. cbn [fst snd].
  set (nx := if bool_decide (mode = grid_snap) then _ else _).
  set (ny := if bool_decide (mode = grid_snap) then _ else _).
  assert (Ex : mode = free →
               nx = (ds_imgX dragStart + (clientX ev - ds_x dragStart))%Q)
    by (by intros ->).
  assert (Ey : mode = free →
               ny = (ds_imgY dragStart + (clientY ev - ds_y dragStart))%Q)
    by (by intros ->).
  clearbody nx ny.
  destruct (constrain_spec (b_width bounds - img_width image) nx)
    as (Hx0 & Hx1 & Hx2).
  destruct (constrain_spec (b_height bounds - img_height image) ny)
    as (Hy0 & Hy1 & Hy2).
  repeat split; try done.
  - intros Hfit. assert (0 <= b_width bounds - img_width image)%Q by lra.
    specialize (Hx1 ltac:(done)). lra.
  - intros Hfit. assert (0 <= b_height bounds - img_height image)%Q by lra.
    specialize (Hy1 ltac:(done)). lra.
  - intros Hmode ? ?. rewrite <- (Ex Hmode) in *. apply Hx2; lra.
  - intros Hmode ? ?. rewrite <- (Ey Hmode) in *. apply Hy2; lra.
Qed.

(** The 100 x 200 image at (100, 100) on the 1000 x 1000 canvas, dragged
    by (30, 40) in free mode. *)
Lemma drag_stays_on_board_witness :
  ((dragMove free canvas tallImage tallDrag (mkEvent 30 40 false)).1 == 130)%Q
  ∧ ((dragMove free canvas tallImage tallDrag (mkEvent 30 40 false)).2
     == 140)%Q.
Proof.
  destruct (drag_stays_on_board free canvas tallImage tallDrag
              (mkEvent 30 40 false)) as (_ & _ & _ & _ & Hx & Hy).
  split; [apply Hx | apply Hy]; by vm_compute.
Defined.

(** * Resizing *)

Section ResizeLimits.

Import Doubles.
Local Open Scope float_scope.

Lemma clampFull_not_negative bounds g :
  (g_x (clampFull bounds g) <? 0) = false
  ∧ (g_y (clampFull bounds g) <? 0) = false.
Proof.
  unfold clampFull.
  by destruct (g_x g <? 0) eqn:Hx; destruct (g_y g <? 0) eqn:Hy.
Qed.

(** X17. What [handleResize] never submits in free mode, on the Windows
    path and on the full path, for any numbers at all: an [x] or [y] below
    0, a width or height below 50.  (The size floor does not stop NaN: on
    the Windows path a locked image whose original dimensions are both 0
    gets a NaN height.)  With no resize in progress nothing is
    submitted. *)
Theorem resize_never_submits (isWindows : bool) mode bounds image rs ev :
  handleResize isWindows mode bounds image None ev = None
  ∧ (∃ g,
       handleResize isWindows free bounds image (Some rs) ev = Some g
       ∧ (g_x g <? 0) = false ∧ (g_y g <? 0) = false
       ∧ (g_width g <? 50) = false ∧ (g_height g <? 50) = false)
  ∧ ∃ g,
      handleResize true free board (mkImage 0 0 true) (Some (tallStart se))
        (pointerAt 30 20) = Some g
      ∧ is_nan (g_height g) = true.
Proof.
  split; [done|]. split.
  - set (g0 := cornerResize rs (clientX ev - rs_x rs) (clientY ev - rs_y rs)).
    destruct isWindows.
    + set (g1 := if aspectRatioLocked image && negb (shiftKey ev)
                 then aspectSimple image g0 else g0).
      exists (clampMinimal g1). split; [reflexivity|].
      cbn [clampMinimal g_x g_y g_width g_height].
      repeat split; apply mathMax_not_below.
    + set (g1 := if aspectRatioLocked image && negb (shiftKey ev)
                 then aspectCorrected (rs_handle rs)
                        (originalWidth image / originalHeight image) g0
                 else g0).
      exists (clampFull bounds g1). split; [reflexivity|].
      destruct (clampFull_not_negative bounds g1) as [Hx Hy].
      split; [exact Hx|]. split; [exact Hy|].
      unfold clampFull.
      destruct (g_x g1 <? 0), (g_y g1 <? 0); cbn [g_width g_height];
        split; apply mathMax_not_below.
  - eexists. split; [vm_compute; reflexivity|]. reflexivity.
Qed.

End ResizeLimits.

(** * Pasted images *)

Lemma clamp_spec lo limit value :
  let c := Qmax lo (Qmin limit value) in
  (lo <= c)%Q
  ∧ ((lo <= limit)%Q → (c <= limit)%Q)
  ∧ ((lo <= value)%Q → (value <= limit)%Q → (c == value)%Q).
Proof.
  cbv zeta.
  destruct (Q.max_spec lo (Qmin limit value)) as [[? ->] | [? ->]];
    destruct (Q.min_spec limit value) as [[? E] | [? E]];
    rewrite ?E in *; repeat split; intros; lra.
Qed.

(** X21. [calculateImagePosition] never returns a coordinate below 10,
    and keeps a margin of 10 to the right and bottom of the canvas (less
    its safety margin of 8) for an image that leaves room for both
    margins.  Such an image is centred when it is the first, and placed 25
    right of and 25 below the last image when that position is inside the
    margins. *)
Theorem paste_position_inside canvasRect imgs imageWidth imageHeight :
  let canvasWidth :=
    match canvasRect with
    | Some r => (b_width r - 8)%Q
    | None => 792%Q
    end in
  let canvasHeight :=
    match canvasRect with
    | Some r => (b_height r - 8)%Q
    | None => 592%Q
    end in
  let pos := calculateImagePosition canvasRect imgs imageWidth imageHeight in
  (10 <= pos.1)%Q ∧ (10 <= pos.2)%Q
  ∧ ((imageWidth + 20 <= canvasWidth)%Q →
     (pos.1 + imageWidth <= canvasWidth - 10)%Q)
  ∧ ((imageHeight + 20 <= canvasHeight)%Q →
     (pos.2 + imageHeight <= canvasHeight - 10)%Q)
  ∧ (imgs = [] →
     (imageWidth + 20 <= canvasWidth)%Q →
     (imageHeight + 20 <= canvasHeight)%Q →
     (pos.1 + imageWidth / 2 == canvasWidth / 2)%Q
     ∧ (pos.2 + imageHeight / 2 == canvasHeight / 2)%Q)
  ∧ (∀ lastImage,
       last imgs = Some lastImage →
       (10 <= img_x lastImage + 25)%Q →
       (img_x lastImage + 25 + imageWidth <= canvasWidth - 10)%Q →
       (10 <= img_y lastImage + 25)%Q →
       (img_y lastImage + 25 + imageHeight <= canvasHeight - 10)%Q →
       (pos.1 == img_x lastImage + 25)%Q ∧ (pos.2 == img_y lastImage + 25)%Q).
Proof.
  intros canvasWidth canvasHeight. cbv zeta. unfold calculateImagePosition.
  fold canvasWidth canvasHeight.
  set (placed := match last imgs with Some _ => _ | None => _ end).
  assert (Hfirst : imgs = [] →
            placed = ((canvasWidth / 2 - imageWidth / 2)%Q,
                      (canvasHeight / 2 - imageHeight / 2)%Q))
    by (by intros ->).
  assert (Hnext : ∀ lastImage,
            last imgs = Some lastImage →
            (img_x lastImage + 25 + imageWidth <= canvasWidth - 10)%Q →
            (img_y lastImage + 25 + imageHeight <= canvasHeight - 10)%Q →
            placed = ((img_x lastImage + 25)%Q, (img_y lastImage + 25)%Q)).
  { intros lastImage Hlast Hx Hy. unfold placed. rewrite Hlast.
    destruct (Qltb canvasWidth _) eqn:H1;
      [apply Qltb_true in H1; lra|].
    destruct (Qltb canvasHeight _) eqn:H2;
      [apply Qltb_true in H2; lra|]. done. }
  clearbody placed. destruct placed as [x y]. cbn [fst snd].
  destruct (clamp_spec 10 (canvasWidth - imageWidth - 10) x)
    as (Hx0 & Hx1 & Hx2).
  destruct (clamp_spec 10 (canvasHeight - imageHeight - 10) y)
    as (Hy0 & Hy1 & Hy2).
  split; [done|]. split; [done|].
  split; [intros; specialize (Hx1 ltac:(lra)); lra|].
  split; [intros; specialize (Hy1 ltac:(lra)); lra|].
  split.
  - intros Hnil ? ?. injection (Hfirst Hnil) as -> ->.
    rewrite Hx2, Hy2; [split; field | | | |].
    all: assert (E : ∀ a b : Q, (a / 2 - b / 2 == (a - b) / 2)%Q)
      by (intros; field); rewrite E;
      first [apply Qle_shift_div_l | apply Qle_shift_div_r]; lra.
  - intros lastImage Hlast ? ? ? ?.
    injection (Hnext lastImage Hlast ltac:(done) ltac:(done)) as -> ->.
    rewrite Hx2, Hy2; [done | lra..].
Qed.

(** The first image, 100 x 100, on the default canvas of 792 x 592 lands
    at (346, 246). *)
Lemma paste_position_inside_witness :
  ((calculateImagePosition None [] 100 100).1 + 100 / 2 == 792 / 2)%Q
  ∧ ((calculateImagePosition None [] 100 100).2 + 100 / 2 == 592 / 2)%Q.
Proof.
  destruct (paste_position_inside None [] 100 100)
    as (_ & _ & _ & _ & Hfirst & _).
  apply Hfirst; [reflexivity | by vm_compute | by vm_compute].
Defined.

(** * Combined export *)









(** * Arrow keys in grid-snap mode *)






(** * Predicted file size *)

(** X24. The unit of a predicted file size fits the value: below 1024 in
    bytes, from 1 to below 1024 in kilobytes, at least 1 in megabytes.  For
    non-negative dimensions and a quality of at most 1 the prediction for
    WebP is at most that for JPEG, which is at most that for PNG. *)
Theorem estimateFileSize_units width height quality :
  (∀ format,
     let size := (estimateFileSize width height format quality).1 in
     match (estimateFileSize width height format quality).2 with
     | unitB => (size < 1024)%Q
     | unitKB => (1 <= size)%Q ∧ (size < 1024)%Q
     | unitMB => (1 <= size)%Q
     end)
  ∧ ((0 <= width)%Q → (0 <= height)%Q → (0 <= quality)%Q → (quality <= 1)%Q →
     let bytes format :=
       ((estimateFileSize width height format quality).1
        * unitBytes (estimateFileSize width height format quality).2)%Q in
     (bytes webp <= bytes jpeg)%Q ∧ (bytes jpeg <= bytes png)%Q).
Proof.
  assert (Hunit : ∀ v : Q,
    let r := if Qltb v 1024 then (v, unitB)
             else if Qltb v (1024 * 1024) then ((v / 1024)%Q, unitKB)
                  else ((v / (1024 * 1024))%Q, unitMB) in
    match r.2 with
    | unitB => (r.1 < 1024)%Q
    | unitKB => (1 <= r.1)%Q ∧ (r.1 < 1024)%Q
    | unitMB => (1 <= r.1)%Q
    end ∧ (r.1 * unitBytes r.2 == v)%Q).
  { intros v. cbv zeta.
    destruct (Qltb v 1024) eqn:H1; cbn [fst snd unitBytes].
    { apply Qltb_true in H1. split; [done | ring]. }
    apply Qltb_false in H1.
    destruct (Qltb v (1024 * 1024)) eqn:H2; cbn [fst snd unitBytes].
    - apply Qltb_true in H2. split; [|field]. split.
      + apply Qle_shift_div_l; [reflexivity | lra].
      + apply Qlt_shift_div_r; [reflexivity | lra].
    - apply Qltb_false in H2. split; [|field].
      apply Qle_shift_div_l; [reflexivity | lra]. }
  split.
  - intros format. cbv zeta. unfold estimateFileSize.
    apply (Hunit _).
  - intros Hw Hh Hq0 Hq1 bytes. unfold bytes, estimateFileSize.
    set (pixels := (width * height)%Q).
    assert (Hp : (0 <= pixels)%Q) by (by apply Qmult_le_0_compat).
    destruct (Hunit (pixels * 3)%Q) as [_ ->].
    destruct (Hunit (pixels * 3 * quality / 3)%Q) as [_ ->].
    destruct (Hunit (pixels * 3 * quality / 4)%Q) as [_ ->].
    assert (Hpq : (0 <= pixels * quality)%Q) by (by apply Qmult_le_0_compat).
    assert (Hpq1 : (pixels * quality <= pixels * 1)%Q)
      by (rewrite !(Qmult_comm pixels); by apply Qmult_le_compat_r).
    assert (E3 : (pixels * 3 * quality / 3 == pixels * quality)%Q) by field.
    assert (E4 : (pixels * 3 * quality / 4 == pixels * quality * (3 # 4))%Q)
      by field.
    rewrite E3, E4. split; lra.
Qed.

(** An 800 x 600 export at quality 0.8. *)
Lemma estimateFileSize_units_witness :
  ((estimateFileSize 800 600 webp (8 # 10)).1
   * unitBytes (estimateFileSize 800 600 webp (8 # 10)).2
   <= (estimateFileSize 800 600 jpeg (8 # 10)).1
      * unitBytes (estimateFileSize 800 600 jpeg (8 # 10)).2)%Q
  ∧ ((estimateFileSize 800 600 jpeg (8 # 10)).1
     * unitBytes (estimateFileSize 800 600 jpeg (8 # 10)).2
     <= (estimateFileSize 800 600 png (8 # 10)).1
        * unitBytes (estimateFileSize 800 600 png (8 # 10)).2)%Q.
Proof.
  destruct (estimateFileSize_units 800 600 (8 # 10)) as [_ Horder].
  apply Horder; by vm_compute.
Defined.
